(** * ocrbatcher: confidence masking and guardrail-verified restoration

    A shallow embedding of [grader/ocr.py] ([_build_masked_text]) and
    [grader/ai_cleanup.py] ([_guardrail_ok], [restore]), with the
    properties of the masking / verification / retry pipeline. *)

From Stdlib Require Import ZArith QArith Ascii String Bool Lia.
From Stdlib Require DecimalNat.
From stdpp Require Import base tactics option list.

Local Open Scope nat_scope.

(** ** Text

    A Python [str] is a sequence of Unicode code points. *)

Definition char := N.
Definition pystr := list char.

(** Literals of the development are written as Rocq strings. *)
Definition str (s : string) : pystr := map N_of_ascii (list_ascii_of_string s).

(** The marker shared by the masker and the verifier: ["[[UNK]]"]. *)
Definition UNK : pystr := Eval cbv in str "[[UNK]]".

Definition str_eqb (a b : pystr) : bool := bool_decide (a = b).

(** [s.startswith(sub)] *)
Fixpoint starts_with (sub s : pystr) : bool :=
  match sub, s with
  | [], _ => true
  | _ :: _, [] => false
  | a :: sub', b :: s' => N.eqb a b && starts_with sub' s'
  end.

(** [s[i:j]] for [0 <= i], [0 <= j]. *)
Definition slice (s : pystr) (i j : nat) : pystr := take (j - i) (drop i s).

(** [s.find(sub, start)]: the lowest index [>= start] at which [sub]
    occurs in [s]; [None] stands for [-1]. *)
Fixpoint find_in (sub s : pystr) (i : nat) : option nat :=
  if starts_with sub s then Some i
  else match s with
       | [] => None
       | _ :: s' => find_in sub s' (S i)
       end.

Definition find (s sub : pystr) (start : nat) : option nat :=
  if length s <? start then None else find_in sub (drop start s) start.

(** ** The guardrail verifier ([ai_cleanup.py]) *)

Module Guardrail.

(** [regex.split(r"(\[\[UNK]])", masked_text)]: the text between the
    successive leftmost occurrences of the marker, with the marker
    itself (the captured group) between them.  [skip] counts the
    characters of a marker occurrence still to be stepped over. *)
Definition push_char (c : char) (parts : list pystr) : list pystr :=
  match parts with
  | [] => [[c]]
  | p :: ps => (c :: p) :: ps
  end.

Fixpoint split_go (skip : nat) (s : pystr) : list pystr :=
  match s with
  | [] => [[]]
  | c :: s' =>
      match skip with
      | S k => split_go k s'
      | O => if starts_with UNK s
             then [] :: UNK :: split_go (length UNK - 1) s'
             else push_char c (split_go 0 s')
      end
  end.

Definition split (masked_text : pystr) : list pystr := split_go 0 masked_text.

(** The look-ahead loop of the placeholder branch:
    [for look_ahead in parts[idx + 1:]: if look_ahead != "[[UNK]]": ...; break],
    starting from [next_literal = ""]. *)
Fixpoint next_literal (rest : list pystr) : pystr :=
  match rest with
  | [] => []
  | look_ahead :: rest' =>
      if negb (str_eqb look_ahead UNK) then look_ahead else next_literal rest'
  end.

(** The [while idx < len(parts)] loop; [parts] is [parts[idx:]]. *)
Fixpoint walk (parts : list pystr) (restored_text : pystr) (position : nat) : bool :=
  match parts with
  | [] => true
  | part :: rest =>
      if str_eqb part UNK then
        let nl := next_literal rest in
        match nl with
        | [] => walk rest restored_text (length restored_text)
        | _ :: _ =>
            match find restored_text nl position with
            | None => false
            | Some next_pos => walk rest restored_text next_pos
            end
        end
      else
        match part with
        | [] => walk rest restored_text position
        | _ :: _ =>
            let end_pos := position + length part in
            if negb (str_eqb (slice restored_text position end_pos) part) then false
            else walk rest restored_text end_pos
        end
  end.

Definition _guardrail_ok (masked_text restored_text : pystr) : bool :=
  if str_eqb masked_text restored_text then true
  else walk (split masked_text) restored_text 0.

(** Substituting the placeholders of a segment list, left to right, by
    the given fillers. *)
Fixpoint substitute (parts : list pystr) (fillers : list pystr) : pystr :=
  match parts with
  | [] => []
  | part :: rest =>
      if str_eqb part UNK then
        match fillers with
        | f :: fs => f ++ substitute rest fs
        | [] => substitute rest []
        end
      else part ++ substitute rest fillers
  end.

Definition placeholders (parts : list pystr) : nat :=
  length (filter (fun p => p = UNK) parts).

(** No placeholder is directly followed by another one: an empty
    literal segment after a placeholder is the last segment. *)
Fixpoint separated (parts : list pystr) : bool :=
  match parts with
  | [] => true
  | part :: rest =>
      (if str_eqb part UNK
       then match rest with
            | [] :: _ :: _ => false
            | _ => true
            end
       else true)
      && separated rest
  end.

(** The shape of what follows a literal segment in the output of
    [split]: placeholders and literal segments in turn. *)
Inductive alternating : list pystr -> Prop :=
| alternating_nil : alternating []
| alternating_cons literal rest :
    literal <> UNK -> alternating rest -> alternating (UNK :: literal :: rest).

End Guardrail.

Import Guardrail.

(** ** Outcomes of fallible code *)

Inductive pyexn := ValueError | OverflowError | RuntimeError.

Inductive result (E A : Type) : Type :=
| Ok (a : A)
| Raise (e : E).
Arguments Ok {E A} a.
Arguments Raise {E A} e.

(** ** Confidence values and the builtin [float] *)

(** A Python [float]: a finite value (every finite double is a
    rational), an infinity or NaN. *)
Inductive pyfloat :=
| FFinite (q : Q)
| FPosInf
| FNegInf
| FNan.

(** What a caller can supply as one confidence: an [int] (the declared
    type), a [float], or a [str] that [float] rejects.  A [str] that
    [float] accepts behaves as the [float] it denotes. *)
Inductive confidence :=
| ConfInt (z : Z)
| ConfFloat (v : pyfloat)
| ConfUnparsable.

(** [float(n)] for a non-negative [int]: the nearest integer with at
    most 53 significant bits, ties to even. *)
Definition round_to_double (a : Z) : Z :=
  let n := Z.log2 a in
  if (n <? 53)%Z then a
  else
    let sh := (n - 52)%Z in
    let q := (a / 2 ^ sh)%Z in
    let r := (a mod 2 ^ sh)%Z in
    let half := (2 ^ (sh - 1))%Z in
    let q' := if (half <? r)%Z || ((r =? half)%Z && Z.odd q) then (q + 1)%Z else q in
    (q' * 2 ^ sh)%Z.

Definition DBL_MAX_EXP : Z := 1024.

(** [float(confidence)]: an [int] too large for a double raises
    [OverflowError]; an unparsable [str] raises [ValueError]. *)
Definition py_float (c : confidence) : result pyexn pyfloat :=
  match c with
  | ConfInt z =>
      let m := round_to_double (Z.abs z) in
      if (2 ^ DBL_MAX_EXP <=? m)%Z then Raise OverflowError
      else Ok (FFinite (inject_Z (Z.sgn z * m)))
  | ConfFloat v => Ok v
  | ConfUnparsable => Raise ValueError
  end.

(** [v < threshold] and [v >= 0] for a float [v] and an [int]
    threshold; Python compares a float with an int exactly, and every
    comparison with NaN is false. *)
Definition float_lt_int (v : pyfloat) (n : Z) : bool :=
  match v with
  | FFinite q => negb (Qle_bool (inject_Z n) q)
  | FNegInf => true
  | FPosInf | FNan => false
  end.

Definition float_ge_zero (v : pyfloat) : bool :=
  match v with
  | FFinite q => Qle_bool 0 q
  | FPosInf => true
  | FNegInf | FNan => false
  end.

(** ** The token masker ([ocr.py]) *)

(** Whitespace as [str.strip()] understands it. *)
Definition is_space (c : char) : bool :=
  ((9 <=? c) && (c <=? 13) || (28 <=? c) && (c <=? 32)
   || (c =? 133) || (c =? 160) || (c =? 5760)
   || (8192 <=? c) && (c <=? 8202)
   || (c =? 8232) || (c =? 8233) || (c =? 8239) || (c =? 8287) || (c =? 12288))%N.

Fixpoint lstrip (s : pystr) : pystr :=
  match s with
  | [] => []
  | c :: s' => if is_space c then lstrip s' else s
  end.

Definition strip (s : pystr) : pystr := rev (lstrip (rev (lstrip s))).

(** For the examples: the word class of the regular expressions on
    ASCII text, [[0-9A-Za-z_]]; on other text [\w] has more. *)
Definition ascii_word (c : char) : bool :=
  ((48 <=? c) && (c <=? 57) || (65 <=? c) && (c <=? 90)
   || (c =? 95) || (97 <=? c) && (c <=? 122))%N.

Definition newline : char := 10%N.

Section Masker.

(** The class [\w] of the [regex] module: the Unicode tables behind it
    are not part of the repository, so the masker is parametric in it. *)
Variable is_word : char -> bool.

(** [regex.match(r"^\w+$", token) is not None]; [$] also matches just
    before a newline that ends the string. *)
Fixpoint word_run (token : pystr) : bool :=
  match token with
  | [] => false
  | [c] => is_word c
  | c :: ((d :: rest') as rest) =>
      is_word c && (word_run rest || (match rest' with [] => N.eqb d newline | _ => false end))
  end.

Definition is_word_token (token : pystr) : bool := word_run token.

(** [\b] at index [i] of [text]: exactly one of the characters before
    and after [i] is a word character; there is no character before index
    0 nor after the end. *)
Definition word_before (text : pystr) (i : nat) : bool :=
  match i with
  | O => false
  | S j => from_option is_word false (text !! j)
  end.

Definition word_after (text : pystr) (i : nat) : bool :=
  from_option is_word false (text !! i).

Definition boundary (text : pystr) (i : nat) : bool :=
  xorb (word_before text i) (word_after text i).

(** Does the compiled pattern ([\b token \b] for a word token, the
    escaped token otherwise) match [text] at index [p]? *)
Definition matches_at (is_w : bool) (token text : pystr) (p : nat) : bool :=
  starts_with token (drop p text)
  && (negb is_w || (boundary text p && boundary text (p + length token))).

(** The lowest index among [p], [p+1], ..., [p+n-1] where the pattern
    matches. *)
Fixpoint search_from (is_w : bool) (token text : pystr) (p n : nat) : option nat :=
  match n with
  | O => None
  | S n' => if matches_at is_w token text p then Some p
            else search_from is_w token text (S p) n'
  end.

(** [pattern.search(text, pos)]: match starts range over [pos .. len(text)]. *)
Definition search (is_w : bool) (token text : pystr) (pos : nat) : option nat :=
  search_from is_w token text pos (S (length text) - pos).

(** The loop state: [masked_text], [masked_count], [search_start]. *)
Record mask_state := MaskState {
  masked_text : pystr;
  masked_count : nat;
  search_start : nat
}.

(** One iteration of the [for] loop. *)
Definition mask_step (threshold : Z) (st : mask_state)
    (token : pystr) (conf : confidence) : result pyexn mask_state :=
  let token := strip token in
  match token with
  | [] => Ok st
  | _ :: _ =>
      match py_float conf with
      | Raise ValueError => Ok st
      | Raise e => Raise e
      | Ok confidence_val =>
          if float_lt_int confidence_val threshold && float_ge_zero confidence_val then
            match search (is_word_token token) token (masked_text st) (search_start st) with
            | Some start =>
                let stop := start + length token in
                Ok {| masked_text := take start (masked_text st) ++ UNK
                                       ++ drop stop (masked_text st);
                      masked_count := masked_count st + 1;
                      search_start := start + length UNK |}
            | None => Ok st
            end
          else Ok st
      end
  end.

(** The loop over [zip(tokens, confidences)]. *)
Fixpoint mask_loop (threshold : Z) (st : mask_state)
    (pairs : list (pystr * confidence)) : result pyexn mask_state :=
  match pairs with
  | [] => Ok st
  | (token, conf) :: pairs' =>
      match mask_step threshold st token conf with
      | Ok st' => mask_loop threshold st' pairs'
      | Raise e => Raise e
      end
  end.

Definition _build_masked_text (raw_text : pystr) (tokens : list pystr)
    (confidences : list confidence) (threshold : Z) : result pyexn (pystr * nat) :=
  match mask_loop threshold
          {| masked_text := raw_text; masked_count := 0; search_start := 0 |}
          (zip tokens confidences) with
  | Ok st => Ok (masked_text st, masked_count st)
  | Raise e => Raise e
  end.

(** *** Vocabulary for the properties of the masker *)

(** The replacements of a run, left to right: each one is the text
    kept verbatim since the previous replacement (the gap) and the
    token occurrence that was replaced. *)
Definition occurrence : Type := pystr * pystr.

Definition source_prefix (occs : list occurrence) : pystr :=
  concat (map (fun o : occurrence => o.1 ++ o.2) occs).

Definition masked_prefix (occs : list occurrence) : pystr :=
  concat (map (fun o : occurrence => o.1 ++ UNK) occs).

(** Where the occurrences lie in the source transcript [raw]: the
    occurrence of a token made of word characters ends at a word
    boundary, and starts at one unless it starts exactly where the
    previous replaced occurrence ended; the occurrence of any other
    token is the first one at or after the end of the previous
    replaced occurrence.  [offset] is where the previous occurrence
    ended and [first] tells that there is none. *)
Fixpoint placed (raw : pystr) (offset : nat) (first : bool)
    (occs : list occurrence) : Prop :=
  match occs with
  | [] => True
  | (gap, token) :: occs' =>
      let start := offset + length gap in
      let stop := start + length token in
      (if forallb is_word token
       then boundary raw stop = true
            /\ (first = true \/ gap <> [] -> boundary raw start = true)
       else find raw token offset = Some start)
      /\ placed raw stop false occs'
  end.

(** The pattern of [token] at index [p], read in the source
    transcript [raw].  The search runs in the partly masked text from
    the cursor, that is from [offset], where the previous replaced
    occurrence ended: the text from there on is the untouched rest of
    the transcript, but unless [first] the character before [offset]
    is the ["]"] that ends the placeholder just written. *)
Definition boundary_at_cursor (raw : pystr) (offset : nat) (first : bool) (p : nat) : bool :=
  if (p =? offset) && negb first
  then xorb (is_word 93%N) (word_after raw p)
  else boundary raw p.

Definition matches_in_source (raw : pystr) (offset : nat) (first : bool)
    (token : pystr) (p : nat) : bool :=
  starts_with token (drop p raw)
  && (negb (forallb is_word token)
      || (boundary_at_cursor raw offset first p && boundary raw (p + length token))).

(** What the loop does with the trimmed low-confidence tokens [cands],
    in turn: a token whose pattern matches nowhere from [offset] on is
    passed over; any other is replaced at the first index from
    [offset] on where its pattern matches, and the search for the next
    token starts where that occurrence ended. *)
Fixpoint scanned (raw : pystr) (offset : nat) (first : bool)
    (cands : list pystr) (occs : list occurrence) : Prop :=
  match cands with
  | [] => occs = []
  | token :: cands' =>
      ((forall p, offset <= p -> matches_in_source raw offset first token p = false)
       /\ scanned raw offset first cands' occs)
      \/ (exists (gap : pystr) (occs' : list occurrence),
            occs = (gap, token) :: occs'
            /\ matches_in_source raw offset first token (offset + length gap) = true
            /\ (forall p, offset <= p < offset + length gap ->
                          matches_in_source raw offset first token p = false)
            /\ scanned raw (offset + length gap + length token) false cands' occs')
  end.

(** What holds of the loop state after any number of iterations:
    [occs] are the replacements made so far and [rest] is the part of
    the transcript after the cursor, not yet touched. *)
Definition mask_inv (raw : pystr) (st : mask_state)
    (occs : list occurrence) (rest : pystr) : Prop :=
  raw = source_prefix occs ++ rest
  /\ masked_text st = masked_prefix occs ++ rest
  /\ masked_count st = length occs
  /\ search_start st = length (masked_prefix occs)
  /\ Forall (fun o : occurrence => o.2 <> []) occs
  /\ placed raw 0 true occs.

End Masker.

(** [confidence_val < threshold and confidence_val >= 0], false when
    [float] raises. *)
Definition low_confidence (threshold : Z) (conf : confidence) : bool :=
  match py_float conf with
  | Ok v => float_lt_int v threshold && float_ge_zero v
  | Raise _ => false
  end.

(** The trimmed tokens that a run tries to locate, in the order
    supplied. *)
Definition candidates (threshold : Z) (pairs : list (pystr * confidence)) : list pystr :=
  omap (fun p : pystr * confidence =>
          if low_confidence threshold p.2
          then match strip p.1 with [] => None | t => Some t end
          else None) pairs.

(** A confidence below zero. *)
Definition negative (conf : confidence) : Prop :=
  match conf with
  | ConfInt z => (z < 0)%Z
  | ConfFloat (FFinite q) => (q < 0)%Q
  | ConfFloat FNegInf => True
  | _ => False
  end.

(** ** The restoration orchestrator ([ai_cleanup.py]) *)

Record CleanupResult := mkCleanupResult {
  restored_text : pystr;
  attempts : nat;
  guardrail_triggered : bool;
  guardrail_violated : bool
}.

(** What [restore] does to the outside world, in order: calls of
    [client.restore(masked_text, temperature=...)] and warnings handed
    to the logger. *)
Inductive event :=
| Call (text : pystr) (temperature : Q)
| Warning (msg : string).

Definition is_call (ev : event) : bool :=
  match ev with Call _ _ => true | Warning _ => false end.

Definition calls (log : list event) : list event := filter (fun ev => is_call ev = true) log.

Definition temps : list Q := [0.2%Q; 0.0%Q].

Definition retry_warning : string :=
  "Guardrail violation detected; retrying cleanup with temperature=0.0".
Definition persist_warning : string :=
  "Guardrail violation persists after retry; accepting restored text with warning.".

Section Restore.

(** The completion capability: a client in some state answers
    [restore(masked_text, temperature)] with a text or an exception, and
    moves to a new state. *)
Variable client : Type.
Variable exn : Type.
Variable client_restore : client -> pystr -> Q -> client * result exn pystr.

(** [logger.warning(msg)] when a logger was passed. *)
Definition warn (logger : bool) (msg : string) (log : list event) : list event :=
  if logger then log ++ [Warning msg] else log.

(** The [for idx, temperature in enumerate(temps, start=1)] loop over
    the remaining temperatures, followed by the code after the loop.
    [attempts_], [triggered] and [restored] are the local variables
    [attempts], [guardrail_triggered] and [restored_text]. *)
Fixpoint attempt_loop (masked_text : pystr) (logger : bool) (remaining : list Q)
    (idx : nat) (cl : client) (log : list event)
    (attempts_ : nat) (triggered : bool) (restored : pystr)
    : client * list event * result exn CleanupResult :=
  match remaining with
  | [] =>
      let violated := negb (_guardrail_ok masked_text restored) in
      let log := if violated then warn logger persist_warning log else log in
      (cl, log, Ok (mkCleanupResult restored attempts_ triggered violated))
  | temperature :: remaining' =>
      let attempts_ := idx in
      let log := log ++ [Call masked_text temperature] in
      match client_restore cl masked_text temperature with
      | (cl', Raise e) => (cl', log, Raise e)
      | (cl', Ok restored) =>
          if _guardrail_ok masked_text restored then
            let triggered := if 1 <? idx then true else triggered in
            (cl', log, Ok (mkCleanupResult restored attempts_ triggered false))
          else
            attempt_loop masked_text logger remaining' (S idx) cl'
              (warn logger retry_warning log) attempts_ true restored
      end
  end.

Definition restore (masked_text : pystr) (cl : client) (logger : bool)
    : client * list event * result exn CleanupResult :=
  attempt_loop masked_text logger temps 1 cl [] 0 false masked_text.

End Restore.

Arguments attempt_loop {client exn} client_restore.
Arguments restore {client exn} client_restore.

(** The scripted client of the test suite: answers with
    [responses[calls]] and raises [RuntimeError] once they run out. *)
Record DummyClient := mkDummyClient {
  responses : list pystr;
  dummy_calls : nat
}.

Definition dummy_restore (cl : DummyClient) (masked_text : pystr) (temperature : Q)
    : DummyClient * result pyexn pystr :=
  match responses cl !! dummy_calls cl with
  | None => (cl, Raise RuntimeError)
  | Some response => (mkDummyClient (responses cl) (dummy_calls cl + 1), Ok response)
  end.

Definition run_dummy (masked : pystr) (rs : list pystr) : result pyexn CleanupResult :=
  snd (restore dummy_restore masked (mkDummyClient rs 0) false).

(** ** Token extraction and the OCR step ([ocr.py]) *)

(** The part of a Vision response that the code reads.  A symbol has a
    text and a confidence; a word has symbols and a confidence that may
    be absent. *)
Record Symbol := mkSymbol {
  symbol_text : pystr;
  symbol_confidence : pyfloat
}.

Record Word := mkWord {
  word_symbols : list Symbol;
  word_confidence : option pyfloat
}.

Definition Paragraph := list Word.
Definition Block := list Paragraph.
Definition Page := list Block.

(** [full_text_annotation] is [None] when the message is empty (falsy). *)
Record TextAnnotation := mkTextAnnotation {
  annotation_pages : list Page;
  annotation_text : pystr
}.

Record AnnotateImageResponse := mkResponse {
  full_text_annotation : option TextAnnotation;
  text_annotations : list pystr  (* the [description] of each entry *)
}.

Record OCRStats := mkOCRStats {
  provider : string;
  total_tokens : nat;
  masked_tokens : nat
}.

(** A [dict] with [str] keys, in insertion order. *)
Definition pydict (V : Type) := list (string * V).

Fixpoint dict_get {V} (d : pydict V) (key : string) : option V :=
  match d with
  | [] => None
  | (k, v) :: d' => if String.eqb k key then Some v else dict_get d' key
  end.

(** [d[key] = value] *)
Fixpoint dict_set {V} (d : pydict V) (key : string) (value : V) : pydict V :=
  match d with
  | [] => [(key, value)]
  | (k, v) :: d' =>
      if String.eqb k key then (k, value) :: d' else (k, v) :: dict_set d' key value
  end.

(** [d.setdefault(key, value)] *)
Definition dict_setdefault {V} (d : pydict V) (key : string) (value : V) : pydict V :=
  match dict_get d key with
  | Some _ => d
  | None => dict_set d key value
  end.

(** [d.update(other)] *)
Definition dict_update {V} (d other : pydict V) : pydict V :=
  fold_left (fun acc kv => dict_set acc kv.1 kv.2) other d.

Definition dict_keys {V} (d : pydict V) : list string := map fst d.

Record OCRResult := mkOCRResult {
  raw_text : pystr;
  ocr_masked_text : pystr;
  stats : OCRStats;
  artifacts : pydict pystr
}.

(** [x > 0] for a float. *)
Definition float_gt_zero (v : pyfloat) : bool :=
  match v with
  | FFinite q => negb (Qle_bool q 0)
  | FPosInf => true
  | FNegInf | FNan => false
  end.

(** [x or 0.0]: a zero is replaced by [0.0], anything else (NaN
    included) is kept. *)
Definition or_zero (v : pyfloat) : pyfloat :=
  match v with
  | FFinite q => if Qeq_bool q 0 then FFinite 0 else v
  | _ => v
  end.

Section Extraction.

(** Float arithmetic is left to two parameters: [int(round(x * 100))],
    which raises for NaN and the infinities, and
    [sum(xs) / len(xs)] on a non-empty list. *)
Variable to_percent : pyfloat -> result pyexn Z.
Variable mean : list pyfloat -> pyfloat.

(** ["".join(symbol.text for symbol in word.symbols)] *)
Definition word_text (word : Word) : pystr :=
  concat (map symbol_text (word_symbols word)).

(** The confidence of a word: its own when present and positive, else
    the mean over its symbols, else 100. *)
Definition word_percent (word : Word) : result pyexn Z :=
  let by_symbols :=
    match word_symbols word with
    | _ :: _ =>
        to_percent (mean (map (fun s => or_zero (symbol_confidence s)) (word_symbols word)))
    | [] => Ok 100%Z
    end in
  match word_confidence word with
  | Some c => if float_gt_zero c then to_percent c else by_symbols
  | None => by_symbols
  end.

(** The body of the innermost loop: [None] stands for [continue]. *)
Definition extract_word (word : Word) : result pyexn (option (pystr * Z)) :=
  let text := word_text word in
  match strip text with
  | [] => Ok None
  | _ :: _ =>
      match word_percent word with
      | Ok c => Ok (Some (text, c))
      | Raise e => Raise e
      end
  end.

(** The four nested loops visit the words in reading order. *)
Definition words_of (annotation : TextAnnotation) : list Word :=
  concat (concat (concat (annotation_pages annotation))).

Fixpoint extract_words (words : list Word) (tokens : list pystr) (confidences : list Z)
    : result pyexn (list pystr * list Z) :=
  match words with
  | [] => Ok (tokens, confidences)
  | word :: words' =>
      match extract_word word with
      | Raise e => Raise e
      | Ok None => extract_words words' tokens confidences
      | Ok (Some (text, c)) => extract_words words' (tokens ++ [text]) (confidences ++ [c])
      end
  end.

Definition _extract_tokens_from_vision (response : AnnotateImageResponse)
    : result pyexn (list pystr * list Z) :=
  match full_text_annotation response with
  | None => Ok ([], [])
  | Some annotation => extract_words (words_of annotation) [] []
  end.

Variable is_word : char -> bool.

(** [ocr_google_vision], given what [client.document_text(image_path)]
    answered. *)
Definition ocr_google_vision (document_text : result pyexn AnnotateImageResponse)
    (threshold : Z) : result pyexn OCRResult :=
  match document_text with
  | Raise e => Raise e
  | Ok response =>
      let raw :=
        match full_text_annotation response with
        | Some annotation =>
            match annotation_text annotation with
            | _ :: _ => annotation_text annotation
            | [] => match text_annotations response with
                    | description :: _ => description
                    | [] => []
                    end
            end
        | None => match text_annotations response with
                  | description :: _ => description
                  | [] => []
                  end
        end in
      match _extract_tokens_from_vision response with
      | Raise e => Raise e
      | Ok (tokens, confidences) =>
          match _build_masked_text is_word raw tokens (map ConfInt confidences) threshold with
          | Raise e => Raise e
          | Ok (masked, masked_count) =>
              Ok (mkOCRResult raw masked
                    (mkOCRStats "google-vision" (length tokens) masked_count)
                    [("raw"%string, raw); ("masked"%string, masked)])
          end
      end
  end.

End Extraction.

(** ** The completion client ([clients/xai_client.py]) *)

(** [s.strip(chars)] for a set of characters given as a test. *)
Fixpoint lstrip_by (p : char -> bool) (s : pystr) : pystr :=
  match s with
  | [] => []
  | c :: s' => if p c then lstrip_by p s' else s
  end.

Definition strip_by (p : char -> bool) (s : pystr) : pystr :=
  rev (lstrip_by p (rev (lstrip_by p s))).

(** [content.strip("\n")] *)
Definition strip_newlines (s : pystr) : pystr := strip_by (N.eqb newline) s.

(** What a request can raise inside the [try]. *)
Inductive request_error :=
| HTTPStatusError (status : Z)   (* [response.raise_for_status()] *)
| MissingChoices                 (* [ValueError]: no choices *)
| MissingContent                 (* [ValueError]: no content *)
| OtherError (tag : nat).        (* raised by [post], [json] or a look-up *)

(** What [XAIClient.restore] can raise: the error of the last attempt,
    or the final [RuntimeError ... from last_error]. *)
Inductive xai_exn :=
| RequestError (e : request_error)
| CleanupFailed (cause : option request_error).

(** The [Retry-After] header: absent or empty, not a number, or a
    number of seconds. *)
Inductive retry_after_header :=
| NoRetryAfter
| BadRetryAfter
| RetryAfter (seconds : pyfloat).

(** What the code finds in the JSON body of a response. *)
Inductive body_outcome :=
| BodyContent (content : pystr)
| BodyNoChoices
| BodyNoContent
| BodyRaises (tag : nat).

Record http_response := mkHttpResponse {
  status_code : Z;
  retry_after : retry_after_header;
  body : body_outcome
}.

Inductive post_outcome :=
| PostRaises (tag : nat)
| PostResponse (response : http_response).

(** The base of a retry delay: [2 ** attempt] or the server's hint. *)
Inductive delay_base :=
| Backoff (attempt : nat)
| ServerHint (seconds : pyfloat).

(** What the client does to the outside world: the POSTs and the
    sleeps, the latter with the operands of the delay (the base and,
    after a retryable status, the jitter added to it). *)
Inductive http_event :=
| Post (text : pystr) (temperature : Q)
| Sleep (base : delay_base) (jitter : option Q).

Definition is_post (ev : http_event) : bool :=
  match ev with Post _ _ => true | Sleep _ _ => false end.

Definition posts (log : list http_event) : nat := length (filter (fun ev => is_post ev = true) log).

Definition retryable (status : Z) : bool :=
  ((status =? 429) || (status =? 500) || (status =? 502) || (status =? 503) || (status =? 504))%Z.

(** The state of the world as the client sees it: how many requests
    the server has answered, how many random numbers were drawn, and
    the events so far. *)
Record xai_state := mkXaiState {
  answered : nat;
  drawn : nat;
  http_log : list http_event
}.

Section XAIClient.

(** The server: its answer to the n-th request.  The random source:
    the n-th value of [random.uniform(0, 1)].  [httpx]: for which
    status codes [raise_for_status] raises. *)
Variable server : nat -> pystr -> Q -> post_outcome.
Variable uniform : nat -> Q.
Variable raises_for_status : Z -> bool.

Definition log_event (ev : http_event) (st : xai_state) : xai_state :=
  mkXaiState (answered st) (drawn st) (http_log st ++ [ev]).

(** How one iteration of the [while] loop ends. *)
Inductive iteration :=
| Return (content : pystr)
| Reraise (e : request_error)
| Continue (last_error : option request_error).

(** The [except Exception] handler: [last_error = exc]; re-raise on
    the last attempt, else sleep [2 ** attempt] and go on. *)
Definition on_exception (attempt max_attempts : nat) (e : request_error) (st : xai_state)
    : xai_state * iteration :=
  if max_attempts <=? attempt then (st, Reraise e)
  else (log_event (Sleep (Backoff attempt) None) st, Continue (Some e)).

(** [_handle_retry], called inside the [try]: the delay is computed
    and the jitter drawn before the last attempt is told apart. *)
Definition _handle_retry (response : http_response) (attempt max_attempts : nat)
    (last_error : option request_error) (st : xai_state) : xai_state * iteration :=
  let base := match retry_after response with
              | RetryAfter seconds => ServerHint seconds
              | BadRetryAfter | NoRetryAfter => Backoff attempt
              end in
  let jitter := uniform (drawn st) in
  let st := mkXaiState (answered st) (S (drawn st)) (http_log st) in
  if (max_attempts <=? attempt) && raises_for_status (status_code response)
  then on_exception attempt max_attempts (HTTPStatusError (status_code response)) st
  else (log_event (Sleep base (Some jitter)) st, Continue last_error).

(** The body of the [while] loop, after [attempt += 1]. *)
Definition attempt_once (masked_text : pystr) (temperature : Q)
    (attempt max_attempts : nat) (last_error : option request_error) (st : xai_state)
    : xai_state * iteration :=
  let outcome := server (answered st) masked_text temperature in
  let st := mkXaiState (S (answered st)) (drawn st)
              (http_log st ++ [Post masked_text temperature]) in
  match outcome with
  | PostRaises tag => on_exception attempt max_attempts (OtherError tag) st
  | PostResponse response =>
      if retryable (status_code response)
      then _handle_retry response attempt max_attempts last_error st
      else if raises_for_status (status_code response)
      then on_exception attempt max_attempts (HTTPStatusError (status_code response)) st
      else match body response with
           | BodyContent content => (st, Return (strip_newlines content))
           | BodyNoChoices => on_exception attempt max_attempts MissingChoices st
           | BodyNoContent => on_exception attempt max_attempts MissingContent st
           | BodyRaises tag => on_exception attempt max_attempts (OtherError tag) st
           end
  end.

(** The content of an answer that ends the retries: a status that is
    neither retryable nor an error, and a body with a content. *)
Definition good (outcome : post_outcome) : option pystr :=
  match outcome with
  | PostRaises _ => None
  | PostResponse response =>
      if retryable (status_code response) || raises_for_status (status_code response)
      then None
      else match body response with
           | BodyContent content => Some content
           | _ => None
           end
  end.

(** [while attempt < max_attempts]: [remaining] is
    [max_attempts - attempt]; after the loop comes the final
    [raise RuntimeError(...) from last_error]. *)
Fixpoint xai_loop (remaining : nat) (masked_text : pystr) (temperature : Q)
    (attempt max_attempts : nat) (last_error : option request_error) (st : xai_state)
    : xai_state * result xai_exn pystr :=
  match remaining with
  | O => (st, Raise (CleanupFailed last_error))
  | S remaining' =>
      let attempt := attempt + 1 in
      match attempt_once masked_text temperature attempt max_attempts last_error st with
      | (st', Return content) => (st', Ok content)
      | (st', Reraise e) => (st', Raise (RequestError e))
      | (st', Continue last_error') =>
          xai_loop remaining' masked_text temperature attempt max_attempts last_error' st'
      end
  end.

(** [XAIClient.restore(masked_text, temperature=..., max_attempts=...)] *)
Definition xai_restore (max_attempts : nat) (st : xai_state)
    (masked_text : pystr) (temperature : Q) : xai_state * result xai_exn pystr :=
  xai_loop max_attempts masked_text temperature 0 max_attempts None st.

End XAIClient.

(** ** Environment lists ([config.py]) *)

(** [os.getenv]: the value of a variable, if set. *)
Definition environ := string -> option pystr.

(** [s.split(sep)] for a separator of one character. *)
Fixpoint split_on (sep : char) (s : pystr) : list pystr :=
  match s with
  | [] => [[]]
  | c :: s' =>
      if N.eqb c sep then [] :: split_on sep s' else push_char c (split_on sep s')
  end.

(** [sep.join(parts)] *)
Fixpoint join (sep : pystr) (parts : list pystr) : pystr :=
  match parts with
  | [] => []
  | [part] => part
  | part :: parts' => part ++ sep ++ join sep parts'
  end.

Definition comma : char := 44%N.

Definition _env_list (env : environ) (name : string) : list pystr :=
  match env name with
  | None | Some [] => []
  | Some value => filter (fun part => part <> []) (map strip (split_on comma value))
  end.

(** ** Decimal numbers in names *)

(** [str(n)] for a natural number. *)
Fixpoint uint_chars (d : Decimal.uint) : pystr :=
  match d with
  | Decimal.Nil => []
  | Decimal.D0 d => 48%N :: uint_chars d
  | Decimal.D1 d => 49%N :: uint_chars d
  | Decimal.D2 d => 50%N :: uint_chars d
  | Decimal.D3 d => 51%N :: uint_chars d
  | Decimal.D4 d => 52%N :: uint_chars d
  | Decimal.D5 d => 53%N :: uint_chars d
  | Decimal.D6 d => 54%N :: uint_chars d
  | Decimal.D7 d => 55%N :: uint_chars d
  | Decimal.D8 d => 56%N :: uint_chars d
  | Decimal.D9 d => 57%N :: uint_chars d
  end.

Definition decimal (n : nat) : pystr := uint_chars (Nat.to_uint n).

(** The format [{n:0Wd}] for a natural number: zeros on the left up
    to the width. *)
Definition zero_padded (width n : nat) : pystr :=
  replicate (width - length (decimal n)) 48%N ++ decimal n.

(** Reading digits back; anything else ends the number. *)
Fixpoint chars_uint (s : pystr) : Decimal.uint :=
  match s with
  | [] => Decimal.Nil
  | c :: s' =>
      if (c =? 48)%N then Decimal.D0 (chars_uint s')
      else if (c =? 49)%N then Decimal.D1 (chars_uint s')
      else if (c =? 50)%N then Decimal.D2 (chars_uint s')
      else if (c =? 51)%N then Decimal.D3 (chars_uint s')
      else if (c =? 52)%N then Decimal.D4 (chars_uint s')
      else if (c =? 53)%N then Decimal.D5 (chars_uint s')
      else if (c =? 54)%N then Decimal.D6 (chars_uint s')
      else if (c =? 55)%N then Decimal.D7 (chars_uint s')
      else if (c =? 56)%N then Decimal.D8 (chars_uint s')
      else if (c =? 57)%N then Decimal.D9 (chars_uint s')
      else Decimal.Nil
  end.

(** ** Fallback names ([naming.py]) *)

Definition _fallback_name (fallback : option pystr) (page_index : nat) : pystr :=
  match fallback with
  | Some (c :: f) => (c :: f) ++ str "_" ++ zero_padded 2 (page_index + 1)
  | Some [] | None => str "unnamed_" ++ zero_padded 2 (page_index + 1)
  end.

(** ** Output files ([export.py]) *)

Section UniquePath.

(** Whether [base_dir / name] exists, for a fixed [base_dir]. *)
Variable path_exists : pystr -> bool.

(** The [while candidate.exists()] loop; [fuel] bounds the number of
    tests, and [None] means that it ran out. *)
Fixpoint unique_loop (fuel : nat) (stem : pystr) (counter : nat) (candidate : pystr)
    : option pystr :=
  match fuel with
  | O => None
  | S fuel' =>
      if path_exists candidate then
        let counter := counter + 1 in
        unique_loop fuel' stem counter (stem ++ str "_" ++ decimal counter ++ str ".pdf")
      else Some candidate
  end.

Definition _ensure_unique_path (fuel : nat) (stem : pystr) : option pystr :=
  unique_loop fuel stem 1 (stem ++ str ".pdf").

(** The name tried when the counter is [n]. *)
Definition candidate_name (stem : pystr) (n : nat) : pystr :=
  match n with
  | 1 => stem ++ str ".pdf"
  | _ => stem ++ str "_" ++ decimal n ++ str ".pdf"
  end.

End UniquePath.

(** ** Pages of the output file ([export.py]) *)

(** reportlab's [inch] (72 points) and [letter] (8.5 by 11 inches).
    Every coordinate that [write_pdf] computes from them is a whole
    number of points ([0.75 * inch] is 54.0, [leading * 1.5] is 18.0,
    and the steps are of 12), which floats hold exactly: coordinates
    are integers here. *)
Definition inch : Z := 72.
Definition letter : Z * Z := (612, 792)%Z.

(** The calls made on the canvas, in order. *)
Inductive canvas_op :=
| SetFont (psfontname : string) (size : Z)
| DrawString (x y : Z) (text : pystr)
| ShowPage
| Save.

Definition bullet : char := 8226%N.

(** [str(n)] for an integer. *)
Definition int_str (z : Z) : pystr :=
  if (z <? 0)%Z then str "-" ++ decimal (Z.abs_nat z) else decimal (Z.abs_nat z).

Definition left_margin : Z := 3 * inch / 4.
Definition top_margin : Z := letter.2 - 3 * inch / 4.
Definition leading : Z := 12.

(** [pdf.setFont("Courier", 8); pdf.drawString(left_margin, top_margin, header_text)] *)
Definition draw_header (header_text : pystr) : list canvas_op :=
  [SetFont "Courier" 8; DrawString left_margin top_margin header_text].

(** One turn of the loop over the wrapped lines; the state is [text_y]
    and the calls made so far. *)
Definition draw_line (header : bool) (header_text : pystr)
    (st : Z * list canvas_op) (line : pystr) : Z * list canvas_op :=
  let '(text_y, pdf) := st in
  let '(text_y, pdf) :=
    if (text_y <? 3 * inch / 4)%Z then
      let pdf := pdf ++ [ShowPage] in
      let '(text_y, pdf) :=
        if header then ((top_margin - leading * 3 / 2)%Z, pdf ++ draw_header header_text)
        else (top_margin, pdf) in
      (text_y, pdf ++ [SetFont "Courier" 11])
    else (text_y, pdf) in
  ((text_y - leading)%Z, pdf ++ [DrawString left_margin text_y line]).

Section WritePdf.

(** [str.splitlines] and [textwrap.wrap(line, width=width,
    replace_whitespace=False, drop_whitespace=False)], and whether
    [base_dir / name] exists. *)
Variable splitlines : pystr -> list pystr.
Variable textwrap_wrap : pystr -> nat -> list pystr.
Variable path_exists : pystr -> bool.

Definition _wrap_text (text : pystr) (width : nat) : list pystr :=
  fold_left
    (fun wrapped_lines line =>
       match line with
       | [] => wrapped_lines ++ [[]]
       | _ =>
           match textwrap_wrap line width with
           | [] => wrapped_lines ++ [[]]
           | wrapped => wrapped_lines ++ wrapped
           end
       end)
    (match splitlines text with [] => [[]] | lines => lines end)
    [].

(** [write_pdf]: the path written and the calls made on its canvas.
    [None] when the search for a free name ran out of [fuel]. *)
Definition write_pdf (fuel : nat) (text filename_stem timestamp : pystr)
    (page_number : Z) (header : bool) : option (pystr * list canvas_op) :=
  match _ensure_unique_path path_exists fuel filename_stem with
  | None => None
  | Some target_path =>
      let content := match text with [] => str "[No OCR text detected]" | _ => text end in
      let header_text :=
        str "Restored page " ++ [bullet] ++ str " " ++ timestamp ++ str " " ++ [bullet]
        ++ str " source page " ++ int_str page_number in
      let '(text_y, pdf) :=
        if header then ((top_margin - leading * 3 / 2)%Z, draw_header header_text)
        else (top_margin, []) in
      let pdf := pdf ++ [SetFont "Courier" 11] in
      let '(_, pdf) :=
        fold_left (draw_line header header_text) (_wrap_text content 85) (text_y, pdf) in
      Some (target_path, pdf ++ [Save])
  end.

End WritePdf.

(** The page layout, for the statements: the lines cut into pages of
    [n], and the lines of one page drawn from [y] downwards. *)
Fixpoint chunks_go (fuel n : nat) (l : list pystr) : list (list pystr) :=
  match fuel, l with
  | S fuel', _ :: _ => take n l :: chunks_go fuel' n (drop n l)
  | _, _ => []
  end.

Definition chunks (n : nat) (l : list pystr) : list (list pystr) :=
  chunks_go (length l) n l.

Fixpoint rows (y : Z) (lines : list pystr) : list canvas_op :=
  match lines with
  | [] => []
  | line :: lines => DrawString left_margin y line :: rows (y - leading) lines
  end.

(** Where the first line of a page is drawn and how many lines a page
    holds, with and without the header; the calls of one page. *)
Definition first_y (header : bool) : Z := if header then 720%Z else 738%Z.
Definition per_page (header : bool) : nat := if header then 56 else 58.

Definition page_ops (header : bool) (header_text : pystr) (page : list pystr)
    : list canvas_op :=
  (if header then draw_header header_text else [])
  ++ [SetFont "Courier" 11] ++ rows (first_y header) page.

(** ** Settings and command-line options ([config.py], [cli.py]) *)

Record XAIConfig := mkXAIConfig {
  api_key : option pystr;
  model : pystr;
  base_url : pystr
}.

(** Paths are kept as the strings they are built from. *)
Record GoogleVisionConfig := mkGoogleVisionConfig {
  credentials_path : pystr;
  language_hints : list pystr;
  mime_type : pystr
}.

Record Settings := mkSettings {
  unk_threshold : Z;
  max_concurrency : Z;
  dry_run : bool;
  verbose : bool;
  keep_images : bool;
  name_fallback : option pystr;
  output_dir : pystr;
  xai : XAIConfig;
  google : GoogleVisionConfig
}.

(** [typer.BadParameter(message)] *)
Inductive bad_parameter := BadParameter (message : pystr).

(** The options of [main] as typer hands them over. *)
Record cli_options := mkCliOptions {
  opt_input : pystr;
  opt_outdir : option pystr;
  opt_unk_threshold : option Z;
  opt_max_concurrency : option Z;
  opt_dry_run : option pystr;
  opt_verbose : bool;
  opt_quiet : bool;
  opt_keep_images : option pystr;
  opt_name_fallback : option pystr
}.

(** What [main] has resolved when it starts the run. *)
Record run_options := mkRunOptions {
  resolved_threshold : Z;
  resolved_outdir : pystr;
  resolved_concurrency : Z;
  resolved_dry_run : bool;
  resolved_verbose : bool;
  resolved_keep_images : bool;
  resolved_fallback : option pystr;
  input_path : pystr
}.

(** [value or default], for [os.getenv(name) or default] and for
    [option or setting] with an integer or a string. *)
Definition str_or (value : option pystr) (default : pystr) : pystr :=
  match value with
  | Some (c :: s) => c :: s
  | Some [] | None => default
  end.

Definition str_or_none (value : option pystr) (default : option pystr) : option pystr :=
  match value with
  | Some (c :: s) => Some (c :: s)
  | Some [] | None => default
  end.

Definition int_or (value : option Z) (default : Z) : Z :=
  match value with
  | Some n => if (n =? 0)%Z then default else n
  | None => default
  end.

(** The two sets of spellings. *)
Definition true_spellings : list pystr :=
  [str "true"; str "1"; str "yes"; str "y"; str "on"].
Definition false_spellings : list pystr :=
  [str "false"; str "0"; str "no"; str "n"; str "off"].

Definition _resolve_bool (value : option bool) (default : bool) : bool :=
  match value with
  | None => default
  | Some value => value
  end.

Section Options.

(** [str.lower], [int(value)] ([None] for ValueError), the directory of
    the package, [Path /], [Path.resolve], [Path.expanduser] and
    [Path.exists]. *)
Variable lower : pystr -> pystr.
Variable py_int : pystr -> option Z.
Variable BASE_DIR : pystr.
Variable joinpath : pystr -> pystr -> pystr.
Variable resolve : pystr -> pystr.
Variable expanduser : pystr -> pystr.
Variable path_exists : pystr -> bool.

Definition _env_bool (env : environ) (name : string) (default : bool) : bool :=
  match env name with
  | None => default
  | Some value =>
      let normalized := lower (strip value) in
      if bool_decide (normalized ∈ true_spellings) then true
      else if bool_decide (normalized ∈ false_spellings) then false
      else default
  end.

Definition _env_int (env : environ) (name : string) (default : Z) : Z :=
  match env name with
  | None => default
  | Some value =>
      match strip value with
      | [] => default
      | _ =>
          match py_int value with
          | Some n => n
          | None => default
          end
      end
  end.

Definition _build_settings (env : environ) : Settings :=
  {| unk_threshold := _env_int env "UNK_THRESHOLD" 65;
     max_concurrency := _env_int env "MAX_CONCURRENCY" 3;
     dry_run := _env_bool env "DRY_RUN" false;
     verbose := _env_bool env "VERBOSE" false;
     keep_images := _env_bool env "KEEP_IMAGES" false;
     name_fallback := str_or_none (env "NAME_FALLBACK"%string) None;
     output_dir := str_or (env "OUTPUT_DIR"%string) (str "out");
     xai :=
       {| api_key := str_or_none (env "XAI_API_KEY"%string) None;
          model := str_or (env "XAI_CLEANUP_MODEL"%string) (str "grok-4-fast-reasoning");
          base_url := str_or (env "XAI_BASE_URL"%string) (str "https://api.x.ai/v1") |};
     google :=
       {| credentials_path :=
            str_or (env "GOOGLE_APPLICATION_CREDENTIALS"%string)
              (joinpath BASE_DIR (str "gen-lang-client.json"));
          language_hints := _env_list env "VISION_LANGUAGE_HINTS";
          mime_type := str_or (env "VISION_MIME_TYPE"%string) (str "image/jpeg") |} |}.

Definition _parse_bool_option (name : pystr) (value : option pystr)
    : result bad_parameter (option bool) :=
  match value with
  | None => Ok None
  | Some value =>
      let normalized := lower (strip value) in
      if bool_decide (normalized ∈ true_spellings) then Ok (Some true)
      else if bool_decide (normalized ∈ false_spellings) then Ok (Some false)
      else Raise (BadParameter
                    (name ++ str " must be one of: true, false, yes, no, on, off, 1, 0"))
  end.

Definition _validate_dependencies (credentials_path : pystr) (xai_key : option pystr)
    : result bad_parameter unit :=
  if negb (path_exists credentials_path) then
    Raise (BadParameter (str "Google credentials file not found: " ++ credentials_path))
  else
    match xai_key with
    | Some (_ :: _) => Ok tt
    | Some [] | None => Raise (BadParameter (str "XAI_API_KEY is required for cleanup."))
    end.

(** [main] up to the start of the run: the options resolved against
    the settings, or the first BadParameter. *)
Definition main_options (settings : Settings) (o : cli_options)
    : result bad_parameter run_options :=
  let resolved_threshold := int_or (opt_unk_threshold o) (unk_threshold settings) in
  let resolved_outdir :=
    resolve (match opt_outdir o with Some p => p | None => output_dir settings end) in
  let resolved_concurrency := int_or (opt_max_concurrency o) (max_concurrency settings) in
  match _parse_bool_option (str "dry-run") (opt_dry_run o) with
  | Raise e => Raise e
  | Ok dry_run_bool =>
      match _parse_bool_option (str "keep-images") (opt_keep_images o) with
      | Raise e => Raise e
      | Ok keep_images_bool =>
          if opt_verbose o && opt_quiet o then
            Raise (BadParameter (str "Cannot use --verbose and --quiet together."))
          else
            let resolved_dry_run := _resolve_bool dry_run_bool (dry_run settings) in
            let resolved_verbose :=
              if opt_verbose o then true
              else if opt_quiet o then false
              else verbose settings in
            let resolved_keep_images :=
              _resolve_bool keep_images_bool (keep_images settings) in
            let resolved_fallback :=
              str_or_none (opt_name_fallback o) (name_fallback settings) in
            if (resolved_concurrency <? 1)%Z then
              Raise (BadParameter (str "max_concurrency must be >= 1"))
            else
              let input_path := resolve (expanduser (opt_input o)) in
              if negb (path_exists input_path) then
                Raise (BadParameter (str "Input PDF not found: " ++ input_path))
              else
                match _validate_dependencies (credentials_path (google settings))
                        (api_key (xai settings)) with
                | Raise e => Raise e
                | Ok _ =>
                    Ok {| resolved_threshold := resolved_threshold;
                          resolved_outdir := resolved_outdir;
                          resolved_concurrency := resolved_concurrency;
                          resolved_dry_run := resolved_dry_run;
                          resolved_verbose := resolved_verbose;
                          resolved_keep_images := resolved_keep_images;
                          resolved_fallback := resolved_fallback;
                          input_path := input_path |}
                end
      end
  end.

End Options.

(** ** One page of the batch ([cli.py]) *)

Record NameResult := mkNameResult {
  display_name : pystr;
  filename_stem : pystr
}.

(** The dictionary that [worker] returns, by its ["status"]. *)
Inductive page_result :=
| PageSuccess (page : nat) (output name : pystr) (triggered violated : bool)
| PageFailed (page : nat) (error : pystr).

(** The log lines of [worker]. *)
Inductive page_log_entry :=
| Processing (page : nat)
| Processed (page masked total : nat) (name output : pystr)
| ReviewManually (page : nat)
| Failure (page : nat) (error : pystr).

(** What a worker leaves behind: the client, the calls and warnings of
    [restore], its own log lines, [generated_files], the artifact
    files written (path and content) and whether it removed the page
    image. *)
Record page_effects (client : Type) := mkPageEffects {
  client_after : client;
  restore_log : list event;
  page_log : list page_log_entry;
  generated_files : list pystr;
  files_written : list (pystr * pystr);
  image_removed : bool
}.
Arguments mkPageEffects {client}.
Arguments client_after {client}.
Arguments restore_log {client}.
Arguments page_log {client}.
Arguments generated_files {client}.
Arguments files_written {client}.
Arguments image_removed {client}.

(** The dictionary built in the [except] clause. *)
Definition failure_artifacts (ocr_result : option OCRResult)
    (cleanup_result : option CleanupResult) : pydict pystr :=
  let collected : pydict pystr := [] in
  let collected :=
    match ocr_result with
    | Some ocr_result => dict_update collected (artifacts ocr_result)
    | None => collected
    end in
  match cleanup_result with
  | Some cleanup_result => dict_set collected "restored" (restored_text cleanup_result)
  | None => dict_setdefault collected "restored" []
  end.

Section Worker.

Variable client : Type.
Variable exn : Type.
Variable client_restore : client -> pystr -> Q -> client * result exn pystr.

(** [str(exc)], [Path /], [naming.extract_first_name], and what
    [write_pdf(text, base_dir, filename_stem, timestamp, page_number)]
    comes to: the path written, or an exception. *)
Variable exn_str : exn -> pystr.
Variable joinpath : pystr -> pystr -> pystr.
Variable extract_first_name : pystr -> option pystr -> nat -> NameResult.
Variable write_pdf_outcome : pystr -> pystr -> pystr -> pystr -> nat -> result exn pystr.

Definition artifact_path (artifacts_dir : pystr) (page_index : nat) (name : string) : pystr :=
  joinpath artifacts_dir
    (str "page_" ++ zero_padded 3 (page_index + 1) ++ str "_" ++ str name ++ str ".txt").

(** The files that [_write_artifacts] writes, in order. *)
Definition _write_artifacts (artifacts_dir : pystr) (page_index : nat)
    (artifacts : pydict pystr) : list (pystr * pystr) :=
  map (fun item => (artifact_path artifacts_dir page_index item.1, item.2)) artifacts.

(** [worker(page_index, image_path)] for the outcome [ocr_outcome] of
    [ocr.ocr_google_vision] on the image; [image_exists] is
    [image_path.exists()] in the [finally] clause. *)
Definition worker (run_dir timestamp : pystr) (dry_run keep_images : bool)
    (fallback : option pystr) (ocr_outcome : result exn OCRResult) (image_exists : bool)
    (page_index : nat) (cl : client) (generated : list pystr)
    : page_effects client * page_result :=
  let page_label := page_index + 1 in
  let artifacts_dir := joinpath run_dir (str "artifacts") in
  let removed := negb keep_images && image_exists in
  let failed cl log ocr_result cleanup_result exc :=
    (mkPageEffects cl log [Processing page_label; Failure page_label (exn_str exc)] generated
       (_write_artifacts artifacts_dir page_index
          (failure_artifacts ocr_result cleanup_result))
       removed,
     PageFailed page_label (exn_str exc)) in
  match ocr_outcome with
  | Raise exc => failed cl [] None None exc
  | Ok ocr_result =>
      match restore client_restore (ocr_masked_text ocr_result) cl true with
      | (cl, log, Raise exc) => failed cl log (Some ocr_result) None exc
      | (cl, log, Ok cleanup_result) =>
          let text := restored_text cleanup_result in
          let name_result := extract_first_name text fallback page_index in
          let succeeded generated output_path :=
            (mkPageEffects cl log
               ([Processing page_label;
                 Processed page_label (masked_tokens (stats ocr_result))
                   (total_tokens (stats ocr_result)) (display_name name_result) output_path]
                ++ (if guardrail_violated cleanup_result
                    then [ReviewManually page_label] else []))
               generated [] removed,
             PageSuccess page_label output_path (display_name name_result)
               (guardrail_triggered cleanup_result) (guardrail_violated cleanup_result)) in
          if dry_run then
            succeeded generated (joinpath run_dir (filename_stem name_result ++ str ".pdf"))
          else
            match write_pdf_outcome text run_dir (filename_stem name_result) timestamp
                    page_label with
            | Raise exc => failed cl log (Some ocr_result) (Some cleanup_result) exc
            | Ok output_path => succeeded (generated ++ [output_path]) output_path
            end
      end
  end.

End Worker.
Arguments worker {client exn} client_restore.

(** ** Instances for the worked examples *)

(** The two float parameters of the extraction in exact arithmetic:
    [int(round(x * 100))] with ties to even, and the mean of finite
    values. *)
Definition round_half_even (q : Q) : Z :=
  let f := (Qnum q / Z.pos (Qden q))%Z in
  match Qcompare (q - inject_Z f) (1 # 2) with
  | Lt => f
  | Gt => (f + 1)%Z
  | Eq => if Z.even f then f else (f + 1)%Z
  end.

Definition percent_exact (v : pyfloat) : result pyexn Z :=
  match v with
  | FFinite q => Ok (round_half_even (q * 100))
  | FNan => Raise ValueError
  | FPosInf | FNegInf => Raise OverflowError
  end.

Definition float_sum (a b : pyfloat) : pyfloat :=
  match a, b with
  | FNan, _ | _, FNan => FNan
  | FPosInf, FNegInf | FNegInf, FPosInf => FNan
  | FPosInf, _ | _, FPosInf => FPosInf
  | FNegInf, _ | _, FNegInf => FNegInf
  | FFinite x, FFinite y => FFinite (x + y)
  end.

Definition mean_exact (vs : list pyfloat) : pyfloat :=
  match fold_left float_sum vs (FFinite 0) with
  | FFinite total => FFinite (total / inject_Z (Z.of_nat (length vs)))
  | total => total
  end.

(** A word spelled by symbols that all have the given confidence. *)
Definition spelled (text : string) (symbol_conf : Q) (conf : option pyfloat) : Word :=
  mkWord (map (fun c => mkSymbol [c] (FFinite symbol_conf)) (str text)) conf.

Definition sample_response : AnnotateImageResponse :=
  mkResponse
    (Some (mkTextAnnotation
             [[[[spelled "Hello" 0.9 (Some (FFinite 0.9));
                 spelled " " 0.1 (Some (FFinite 0.1));
                 spelled "Sam" 0.4 None;
                 spelled "world" 0.95 (Some (FFinite 0))]]]]
             (str "Hello Sam world")))
    [].

(** A server that answers from a script, then fails; [httpx] raising
    for every status outside 200 to 299; no jitter. *)
Definition scripted_server (script : list post_outcome) : nat -> pystr -> Q -> post_outcome :=
  fun n _ _ => nth n script (PostRaises 0).

Definition httpx_raises (status : Z) : bool :=
  negb ((200 <=? status) && (status <=? 299))%Z.

Definition no_jitter : nat -> Q := fun _ => 0%Q.

Definition answer (status : Z) (content : string) : post_outcome :=
  PostResponse (mkHttpResponse status NoRetryAfter (BodyContent (str content))).

Definition fresh : xai_state := mkXaiState 0 0 [].

(** For the examples: lines cut at each newline, as [splitlines] cuts
    a text that has no other line break and does not end with one,
    and lines short enough not to be wrapped. *)
Definition lines_at_newlines (text : pystr) : list pystr := split_on newline text.
Definition unwrapped (line : pystr) (width : nat) : list pystr := [line].

(** Lower case for the letters A to Z, as [str.lower] has it on ASCII
    text. *)
Definition ascii_lower (s : pystr) : pystr :=
  map (fun c => if ((65 <=? c) && (c <=? 90))%N then (c + 32)%N else c) s.

(** For the examples: [int] on a run of ASCII digits; signs, blanks and
    underscores, which [int] reads too, are not. *)
Definition digits_int (s : pystr) : option Z :=
  match s with
  | [] => None
  | _ =>
      if forallb (fun c => (48 <=? c) && (c <=? 57))%N s
      then Some (Z.of_nat (Nat.of_uint (chars_uint s)))
      else None
  end.

(** An environment with the API key and a threshold, and the options
    of a run with [--dry-run " Yes "]. *)
Definition sample_environ : environ :=
  fun name =>
    if String.eqb name "XAI_API_KEY" then Some (str "secret")
    else if String.eqb name "UNK_THRESHOLD" then Some (str "70")
    else if String.eqb name "MAX_CONCURRENCY" then Some (str "many")
    else None.

Definition sample_options : cli_options :=
  mkCliOptions (str "scan.pdf") None (Some 0%Z) None (Some (str " Yes ")) false true None
    (Some []).

(** A page of the examples: the sample response read at threshold 65,
    paths joined with a slash, the fallback name for every text, a
    [write_pdf] that succeeds, and one message for every exception. *)
Definition sample_ocr : result pyexn OCRResult :=
  ocr_google_vision percent_exact mean_exact ascii_word (Ok sample_response) 65.

Definition slash_join (a b : pystr) : pystr := a ++ str "/" ++ b.

Definition fallback_only (text : pystr) (fallback : option pystr) (page_index : nat)
    : NameResult :=
  mkNameResult (_fallback_name fallback page_index) (_fallback_name fallback page_index).

Definition pdf_written (text base_dir filename_stem timestamp : pystr) (page_number : nat)
    : result pyexn pystr :=
  Ok (slash_join base_dir (filename_stem ++ str ".pdf")).

Definition one_message (e : pyexn) : pystr := str "failed".

Definition sample_worker (responses : list pystr) (dry_run : bool)
    : page_effects DummyClient * page_result :=
  worker dummy_restore one_message slash_join fallback_only pdf_written
    (str "out") (str "2024") dry_run false None sample_ocr true 6
    (mkDummyClient responses 0) [].

(** * Properties *)

(** ** Worked examples *)

Example split_scenario :
  split (str "Hello [[UNK]] world") = [str "Hello "; UNK; str " world"].
Proof. reflexivity. Qed.

Example split_adjacent :
  split (str "[[UNK]][[UNK]]x") = [[]; UNK; []; UNK; str "x"].
Proof. reflexivity. Qed.

Example verify_scenario_2 :
  _guardrail_ok (str "Hello [[UNK]] world") (str "Hello friend world") = true.
Proof. vm_compute. reflexivity. Qed.

Example verify_scenario_3 :
  _guardrail_ok (str "Hello [[UNK]] world") (str "Hi friend world") = false.
Proof. vm_compute. reflexivity. Qed.

Example mask_scenario_1 :
  _build_masked_text ascii_word (str "Hello Sam world")
    [str "Hello"; str "Sam"; str "world"] [ConfInt 90; ConfInt 40; ConfInt 95] 65
  = Ok (str "Hello [[UNK]] world", 1).
Proof. vm_compute. reflexivity. Qed.

Example mask_island :
  _build_masked_text ascii_word (str "Island I am") [str "I"] [ConfInt 10] 65
  = Ok (str "Island [[UNK]] am", 1).
Proof. vm_compute. reflexivity. Qed.

Example mask_junction :
  _build_masked_text ascii_word (str "-ab c") [str "-a"; str "b"] [ConfInt 10; ConfInt 10] 65
  = Ok (str "[[UNK]][[UNK]] c", 2).
Proof. vm_compute. reflexivity. Qed.

Example mask_overflow :
  _build_masked_text ascii_word (str "x") [str "x"] [ConfInt (10 ^ 400)] 65
  = Raise OverflowError.
Proof. vm_compute. reflexivity. Qed.

Example restore_scenario_first :
  run_dummy (str "Hello [[UNK]] world") [str "Hello friend world"]
  = Ok (mkCleanupResult (str "Hello friend world") 1 false false).
Proof. vm_compute. reflexivity. Qed.

Example restore_scenario_4 :
  run_dummy (str "Hello [[UNK]] world") [str "Hi friend world"; str "Hello pal world"]
  = Ok (mkCleanupResult (str "Hello pal world") 2 true false).
Proof. vm_compute. reflexivity. Qed.

Example restore_scenario_5 :
  run_dummy (str "Hello [[UNK]] world") [str "Hi friend world"; str "Greetings pal world"]
  = Ok (mkCleanupResult (str "Greetings pal world") 2 true true).
Proof. vm_compute. reflexivity. Qed.

Example restore_client_failure :
  run_dummy (str "Hello [[UNK]] world") [str "Hi friend world"] = Raise RuntimeError.
Proof. vm_compute. reflexivity. Qed.

(** ** The restoration orchestrator *)

Section RestoreProperties.

Context {client exn : Type}.
Variable client_restore : client -> pystr -> Q -> client * result exn pystr.

(** The two iterations of the attempt loop written out: the five ways a
    run of [restore] can go. *)
Lemma restore_cases masked cl logger :
  restore client_restore masked cl logger =
  match client_restore cl masked 0.2%Q with
  | (cl1, Raise e) => (cl1, [Call masked 0.2%Q], Raise e)
  | (cl1, Ok c1) =>
      if _guardrail_ok masked c1
      then (cl1, [Call masked 0.2%Q], Ok (mkCleanupResult c1 1 false false))
      else
        let log1 := warn logger retry_warning [Call masked 0.2%Q] ++ [Call masked 0.0%Q] in
        match client_restore cl1 masked 0.0%Q with
        | (cl2, Raise e) => (cl2, log1, Raise e)
        | (cl2, Ok c2) =>
            if _guardrail_ok masked c2
            then (cl2, log1, Ok (mkCleanupResult c2 2 true false))
            else (cl2, warn logger persist_warning (warn logger retry_warning log1),
                  Ok (mkCleanupResult c2 2 true true))
        end
  end.
Proof.
  unfold restore, temps. cbn [attempt_loop app].
  destruct (client_restore cl masked 0.2%Q) as [cl1 [c1|e]]; [|reflexivity].
  destruct (_guardrail_ok masked c1) eqn:Hok1; [reflexivity|].
  cbn zeta.
  destruct (client_restore cl1 masked 0.0%Q) as [cl2 [c2|e]]; [|reflexivity].
  destruct (_guardrail_ok masked c2) eqn:Hok2; [reflexivity|].
  cbn [negb]. reflexivity.
Qed.

(** C4. Orchestrator escalation law: when the first candidate passes
    verification, [restore] returns it at once (a single call), with
    [attempts = 1] and both flags false; when the first candidate fails
    and the second passes, [restore] returns the second candidate with
    [attempts = 2], [guardrail_triggered = true] and
    [guardrail_violated = false]. *)
Theorem restore_escalation masked cl logger :
  (forall cl1 c1,
      client_restore cl masked 0.2%Q = (cl1, Ok c1) ->
      _guardrail_ok masked c1 = true ->
      restore client_restore masked cl logger
      = (cl1, [Call masked 0.2%Q], Ok (mkCleanupResult c1 1 false false)))
  /\ (forall cl1 c1 cl2 c2,
      client_restore cl masked 0.2%Q = (cl1, Ok c1) ->
      _guardrail_ok masked c1 = false ->
      client_restore cl1 masked 0.0%Q = (cl2, Ok c2) ->
      _guardrail_ok masked c2 = true ->
      (restore client_restore masked cl logger).2
      = Ok (mkCleanupResult c2 2 true false)).
Proof.
  split.
  - intros cl1 c1 H1 Hok1. rewrite restore_cases, H1, Hok1. reflexivity.
  - intros cl1 c1 cl2 c2 H1 Hok1 H2 Hok2.
    rewrite restore_cases, H1, Hok1. cbn zeta. rewrite H2, Hok2. reflexivity.
Qed.

(** C5. Orchestrator exhaustion law: when both candidates fail
    verification, [restore] still returns a result, whose text is the
    second candidate, with [attempts = 2] and both flags true. *)
Theorem restore_exhaustion masked cl logger cl1 c1 cl2 c2 :
  client_restore cl masked 0.2%Q = (cl1, Ok c1) ->
  _guardrail_ok masked c1 = false ->
  client_restore cl1 masked 0.0%Q = (cl2, Ok c2) ->
  _guardrail_ok masked c2 = false ->
  exists r,
    (restore client_restore masked cl logger).2 = Ok r
    /\ restored_text r = c2 /\ attempts r = 2
    /\ guardrail_triggered r = true /\ guardrail_violated r = true.
Proof.
  intros H1 Hok1 H2 Hok2.
  rewrite restore_cases, H1, Hok1. cbn zeta. rewrite H2, Hok2.
  eexists. repeat split.
Qed.

(** C8. Orchestrator schedule law: [restore] calls the client once or
    twice, first at temperature 0.2 (non-zero) and then at 0.0; the
    second call is made exactly when the first call returned a
    candidate that fails verification, and it comes after the warning
    that records that failure; an exception of either call ends
    [restore] with that exception, that call being the last one. *)
Theorem restore_schedule masked cl logger :
  let log := (restore client_restore masked cl logger).1.2 in
  let out := (restore client_restore masked cl logger).2 in
  let first := client_restore cl masked 0.2%Q in
  (calls log = [Call masked 0.2%Q]
   \/ calls log = [Call masked 0.2%Q; Call masked 0.0%Q])
  /\ ~ (0.2 == 0)%Q /\ (0.0 == 0)%Q
  /\ (length (calls log) = 2
      <-> exists c1, first.2 = Ok c1 /\ _guardrail_ok masked c1 = false)
  /\ (length (calls log) = 2 ->
      exists tail, log = warn logger retry_warning [Call masked 0.2%Q]
                           ++ Call masked 0.0%Q :: tail)
  /\ (forall e, first.2 = Raise e -> out = Raise e /\ log = [Call masked 0.2%Q])
  /\ (forall c1 e,
        first.2 = Ok c1 -> _guardrail_ok masked c1 = false ->
        (client_restore first.1 masked 0.0%Q).2 = Raise e ->
        out = Raise e
        /\ log = warn logger retry_warning [Call masked 0.2%Q] ++ [Call masked 0.0%Q]).
Proof.
  cbn zeta. rewrite restore_cases.
  destruct (client_restore cl masked 0.2%Q) as [cl1 [c1|e1]] eqn:H1; cbn [fst snd].
  2:{ repeat split; try (left; reflexivity); try discriminate.
      all: try (intros; simplify_eq; fail).
      all: try (intros (c & Hc & _); discriminate).
      all: intros; congruence. }
  destruct (_guardrail_ok masked c1) eqn:Hok1; cbn [fst snd].
  { repeat split; try (left; reflexivity); try discriminate.
    all: try (intros (c & Hc & Hf); congruence).
    all: intros; congruence. }
  cbn zeta.
  destruct (client_restore cl1 masked 0.0%Q) as [cl2 [c2|e2]] eqn:H2;
    [destruct (_guardrail_ok masked c2) eqn:Hok2|];
    destruct logger; cbn.
  all: repeat split; try (right; reflexivity); try discriminate.
  all: try (intros _; exists c1; split; [reflexivity|assumption]).
  all: try (intros _; eexists; reflexivity).
  all: try (intros; congruence).
Qed.

(** C10. Restoration result invariant: a result returned by [restore]
    has [attempts] 1 or 2; [guardrail_violated] implies
    [guardrail_triggered] and [attempts = 2]; [attempts = 1] implies
    that both flags are false. *)
Theorem restore_result_invariant masked cl logger r :
  (restore client_restore masked cl logger).2 = Ok r ->
  (attempts r = 1 \/ attempts r = 2)
  /\ (guardrail_violated r = true -> guardrail_triggered r = true)
  /\ (guardrail_violated r = true -> attempts r = 2)
  /\ (attempts r = 1 ->
      guardrail_triggered r = false /\ guardrail_violated r = false).
Proof.
  rewrite restore_cases.
  destruct (client_restore cl masked 0.2%Q) as [cl1 [c1|e1]]; [|discriminate].
  destruct (_guardrail_ok masked c1).
  { intros [= <-]. cbn. intuition discriminate. }
  cbn zeta.
  destruct (client_restore cl1 masked 0.0%Q) as [cl2 [c2|e2]]; [|discriminate].
  destruct (_guardrail_ok masked c2); intros [= <-]; cbn; intuition discriminate.
Qed.

End RestoreProperties.

Lemma restore_escalation_witness :
  restore dummy_restore (str "Hello [[UNK]] world")
    (mkDummyClient [str "Hello friend world"] 0) false
  = (mkDummyClient [str "Hello friend world"] 1,
     [Call (str "Hello [[UNK]] world") 0.2%Q],
     Ok (mkCleanupResult (str "Hello friend world") 1 false false))
  /\ (restore dummy_restore (str "Hello [[UNK]] world")
        (mkDummyClient [str "Hi friend world"; str "Hello pal world"] 0) false).2
     = Ok (mkCleanupResult (str "Hello pal world") 2 true false).
Proof.
  split.
  - apply (proj1 (restore_escalation dummy_restore (str "Hello [[UNK]] world")
                    (mkDummyClient [str "Hello friend world"] 0) false)).
    + reflexivity.
    + vm_compute. reflexivity.
  - apply (proj2 (restore_escalation dummy_restore (str "Hello [[UNK]] world")
                    (mkDummyClient [str "Hi friend world"; str "Hello pal world"] 0) false)
             (mkDummyClient [str "Hi friend world"; str "Hello pal world"] 1)
             (str "Hi friend world")
             (mkDummyClient [str "Hi friend world"; str "Hello pal world"] 2)).
    + reflexivity.
    + vm_compute. reflexivity.
    + reflexivity.
    + vm_compute. reflexivity.
Defined.

Lemma restore_exhaustion_witness :
  exists r,
    (restore dummy_restore (str "Hello [[UNK]] world")
       (mkDummyClient [str "Hi friend world"; str "Greetings pal world"] 0) true).2 = Ok r
    /\ restored_text r = str "Greetings pal world" /\ attempts r = 2
    /\ guardrail_triggered r = true /\ guardrail_violated r = true.
Proof.
  apply (restore_exhaustion dummy_restore (str "Hello [[UNK]] world")
           (mkDummyClient [str "Hi friend world"; str "Greetings pal world"] 0) true
           (mkDummyClient [str "Hi friend world"; str "Greetings pal world"] 1)
           (str "Hi friend world")
           (mkDummyClient [str "Hi friend world"; str "Greetings pal world"] 2)).
  - reflexivity.
  - vm_compute. reflexivity.
  - reflexivity.
  - vm_compute. reflexivity.
Defined.

Lemma restore_schedule_witness :
  calls (restore dummy_restore (str "Hello [[UNK]] world")
           (mkDummyClient [str "Hi friend world"] 0) true).1.2
  = [Call (str "Hello [[UNK]] world") 0.2%Q; Call (str "Hello [[UNK]] world") 0.0%Q]
  /\ (restore dummy_restore (str "Hello [[UNK]] world")
        (mkDummyClient [str "Hi friend world"] 0) true).2 = Raise RuntimeError.
Proof.
  pose proof (restore_schedule dummy_restore (str "Hello [[UNK]] world")
                (mkDummyClient [str "Hi friend world"] 0) true) as H.
  cbn zeta in H.
  destruct H as (_ & _ & _ & Hiff & _ & _ & Hraise).
  specialize (Hraise (str "Hi friend world") RuntimeError).
  destruct Hraise as [Hout Hlog].
  - reflexivity.
  - vm_compute. reflexivity.
  - reflexivity.
  - split; [|exact Hout]. rewrite Hlog. reflexivity.
Defined.

Lemma restore_result_invariant_witness :
  let r := mkCleanupResult (str "Greetings pal world") 2 true true in
  (attempts r = 1 \/ attempts r = 2)
  /\ (guardrail_violated r = true -> guardrail_triggered r = true)
  /\ (guardrail_violated r = true -> attempts r = 2)
  /\ (attempts r = 1 ->
      guardrail_triggered r = false /\ guardrail_violated r = false).
Proof.
  apply (restore_result_invariant dummy_restore (str "Hello [[UNK]] world")
           (mkDummyClient [str "Hi friend world"; str "Greetings pal world"] 0) false).
  vm_compute. reflexivity.
Defined.

(** ** Text primitives *)

Lemma str_eqb_true a b : str_eqb a b = true <-> a = b.
Proof. unfold str_eqb. apply bool_decide_eq_true. Qed.

Lemma str_eqb_false a b : str_eqb a b = false <-> a <> b.
Proof. unfold str_eqb. apply bool_decide_eq_false. Qed.

Lemma str_eqb_refl a : str_eqb a a = true.
Proof. by apply str_eqb_true. Qed.

Lemma starts_with_spec sub s :
  starts_with sub s = true <-> exists t, s = sub ++ t.
Proof.
  revert s. induction sub as [|a sub IH]; intros s; cbn.
  - split; [intros _; by exists s | done].
  - destruct s as [|b s].
    + split; [done | intros [t Ht]; discriminate].
    + rewrite andb_true_iff, N.eqb_eq, IH. split.
      * intros [-> [t ->]]. by exists t.
      * intros [t [= -> ->]]. eauto.
Qed.

Lemma starts_with_app sub t : starts_with sub (sub ++ t) = true.
Proof. apply starts_with_spec. by exists t. Qed.

Lemma starts_with_length sub s : starts_with sub s = true -> length sub <= length s.
Proof.
  intros [t ->]%starts_with_spec. rewrite length_app. lia.
Qed.

Lemma starts_with_take sub s :
  starts_with sub s = true <-> take (length sub) s = sub /\ length sub <= length s.
Proof.
  rewrite starts_with_spec. split.
  - intros [t ->]. rewrite take_app_length, length_app. split; [done | lia].
  - intros [Ht Hl]. exists (drop (length sub) s).
    rewrite <- Ht at 1. by rewrite take_drop.
Qed.

(** Extending the text on the right does not change whether a pattern
    that fits starts it. *)
Lemma starts_with_extend sub s1 s2 :
  length sub <= length s1 ->
  starts_with sub (s1 ++ s2) = starts_with sub s1.
Proof.
  revert s1. induction sub as [|a sub IH]; intros s1 Hl; [done|].
  destruct s1 as [|b s1]; cbn in Hl; [lia|].
  cbn. rewrite IH by lia. done.
Qed.

Lemma slice_eq_starts part s position :
  part <> [] ->
  slice s position (position + length part) = part <->
  starts_with part (drop position s) = true.
Proof.
  intros Hne. unfold slice.
  replace (position + length part - position) with (length part) by lia.
  rewrite starts_with_take. split; [|by intros [? _]].
  intros Ht. split; [done|].
  rewrite <- Ht at 1. rewrite length_take. lia.
Qed.

(** [find_in] returns the first index of an occurrence. *)
Lemma find_in_Some sub s i p :
  find_in sub s i = Some p ->
  exists k, p = i + k /\ k <= length s
            /\ starts_with sub (drop k s) = true
            /\ forall j, j < k -> starts_with sub (drop j s) = false.
Proof.
  revert i. induction s as [|c s IH]; intros i; cbn [find_in].
  - destruct (starts_with sub []) eqn:Hs; [|done].
    intros [= <-]. exists 0. cbn. repeat split; [lia | lia | done | lia].
  - destruct (starts_with sub (c :: s)) eqn:Hs.
    + intros [= <-]. exists 0. cbn. repeat split; [lia | lia | done | lia].
    + intros (k & -> & Hk & Hat & Hbefore)%IH.
      exists (S k). cbn. repeat split; [lia | lia | done |].
      intros [|j] Hj; [done|]. cbn. apply Hbefore. lia.
Qed.

Lemma find_in_None sub s i :
  find_in sub s i = None -> forall j, j <= length s -> starts_with sub (drop j s) = false.
Proof.
  revert i. induction s as [|c s IH]; intros i; cbn [find_in].
  - destruct (starts_with sub []) eqn:Hs; [done|].
    intros _ j Hj. by destruct j.
  - destruct (starts_with sub (c :: s)) eqn:Hs; [done|].
    intros Hn [|j] Hj; [done|]. cbn. eapply IH; [done|]. cbn in Hj. lia.
Qed.

Lemma find_Some s sub start p :
  find s sub start = Some p ->
  start <= p <= length s
  /\ starts_with sub (drop p s) = true
  /\ forall j, start <= j < p -> starts_with sub (drop j s) = false.
Proof.
  unfold find. destruct (Nat.ltb_spec (length s) start) as [|Hle]; [done|].
  intros (k & -> & Hk & Hat & Hbefore)%find_in_Some.
  rewrite length_drop in Hk. rewrite drop_drop in Hat.
  repeat split; [lia | lia | done |].
  intros j Hj. specialize (Hbefore (j - start)).
  rewrite drop_drop in Hbefore. replace (start + (j - start)) with j in Hbefore by lia.
  apply Hbefore. lia.
Qed.

(** An occurrence at or after [start] makes [find] succeed, at or
    before that occurrence. *)
Lemma find_occurrence s sub start t :
  start <= t <= length s ->
  starts_with sub (drop t s) = true ->
  exists p, find s sub start = Some p /\ p <= t.
Proof.
  intros Ht Hocc. destruct (find s sub start) as [p|] eqn:Hf.
  - exists p. split; [done|].
    apply find_Some in Hf as (_ & _ & Hbefore).
    destruct (Nat.le_gt_cases p t) as [|Hlt]; [done|].
    rewrite Hbefore in Hocc by lia. done.
  - unfold find in Hf. destruct (Nat.ltb_spec (length s) start) as [|Hle]; [lia|].
    eapply find_in_None with (j := t - start) in Hf.
    + rewrite drop_drop in Hf. replace (start + (t - start)) with t in Hf by lia.
      congruence.
    + rewrite length_drop. lia.
Qed.

(** [find] gives the same answer on a text extended to the right. *)
Lemma find_extend s sub start p extra :
  find s sub start = Some p -> find (s ++ extra) sub start = Some p.
Proof.
  intros Hf. pose proof Hf as (Hp & Hat & Hbefore)%find_Some.
  destruct (find_occurrence (s ++ extra) sub start p) as (p' & Hf' & Hle).
  - rewrite length_app. lia.
  - rewrite drop_app_le by lia. apply starts_with_spec in Hat as [t ->].
    rewrite <- app_assoc. apply starts_with_app.
  - rewrite Hf'. f_equal.
    apply find_Some in Hf' as (Hp' & Hat' & _).
    destruct (decide (p' = p)) as [|Hne]; [done|].
    assert (Hlt : p' < p) by lia.
    specialize (Hbefore p' ltac:(lia)).
    rewrite drop_app_le in Hat' by lia.
    rewrite starts_with_extend in Hat'; [congruence|].
    apply starts_with_length in Hat. rewrite !length_drop in *. lia.
Qed.

(** ** The guardrail verifier *)

(** Splitting loses nothing: the segments concatenate to the text. *)
Lemma concat_push_char c parts : concat (push_char c parts) = c :: concat parts.
Proof. by destruct parts. Qed.

Lemma split_go_concat s : forall skip, concat (split_go skip s) = drop skip s.
Proof.
  induction s as [|c s IH]; intros skip; [by destruct skip|].
  destruct skip as [|k]; cbn [split_go drop]; [|apply IH].
  destruct (starts_with UNK (c :: s)) eqn:Hs.
  - cbn [concat app]. rewrite IH.
    apply starts_with_spec in Hs as [t Ht].
    unfold UNK in *. cbn in Ht. injection Ht as -> ->. reflexivity.
  - rewrite concat_push_char, IH. reflexivity.
Qed.

Lemma split_concat masked : concat (split masked) = masked.
Proof. unfold split. by rewrite split_go_concat. Qed.

(** Filling every placeholder with the marker itself gives the text
    back. *)
Lemma substitute_markers parts n :
  placeholders parts <= n -> substitute parts (replicate n UNK) = concat parts.
Proof.
  revert n. induction parts as [|part rest IH]; intros n Hn; [done|].
  cbn [substitute concat]. unfold placeholders in *.
  destruct (str_eqb part UNK) eqn:He.
  - apply str_eqb_true in He as ->.
    rewrite filter_cons_True in Hn by done. cbn in Hn.
    destruct n as [|n]; [lia|]. cbn [replicate]. rewrite IH by lia. done.
  - apply str_eqb_false in He.
    rewrite filter_cons_False in Hn by done. by rewrite IH.
Qed.

(** [walk] only accepts a candidate in which the segments appear in
    order from [position] on: the literal ones verbatim, the
    placeholders as some filler. *)
Lemma walk_sound parts restored_text : forall position,
  position <= length restored_text ->
  walk parts restored_text position = true ->
  exists fillers suffix,
    length fillers = placeholders parts
    /\ drop position restored_text = substitute parts fillers ++ suffix.
Proof.
  induction parts as [|part rest IH]; intros position Hpos Hw.
  - exists [], (drop position restored_text). done.
  - cbn [walk substitute] in *. unfold placeholders in *.
    destruct (str_eqb part UNK) eqn:He.
    + apply str_eqb_true in He as ->. rewrite filter_cons_True by done. cbn [length].
      destruct (next_literal rest) as [|c nl] eqn:Hnl.
      * apply IH in Hw as (fillers & suffix & Hlen & Hd); [|lia].
        rewrite drop_all in Hd.
        exists (drop position restored_text :: fillers), suffix.
        split; [cbn; lia|]. by rewrite <- app_assoc, <- Hd, app_nil_r.
      * destruct (find restored_text (c :: nl) position) as [p|] eqn:Hf; [|done].
        apply find_Some in Hf as (Hp & _ & _).
        apply IH in Hw as (fillers & suffix & Hlen & Hd); [|lia].
        exists (take (p - position) (drop position restored_text) :: fillers), suffix.
        split; [cbn; lia|].
        rewrite <- app_assoc, <- Hd.
        rewrite <- (take_drop (p - position) (drop position restored_text)) at 1.
        rewrite drop_drop. do 2 f_equal. lia.
    + apply str_eqb_false in He. rewrite filter_cons_False by done.
      destruct part as [|c part].
      * apply IH in Hw as (fillers & suffix & Hlen & Hd); [|lia]. by exists fillers, suffix.
      * destruct (str_eqb (slice restored_text position (position + length (c :: part)))
                    (c :: part)) eqn:Hs; [|done].
        cbn [negb] in Hw. apply str_eqb_true in Hs.
        apply slice_eq_starts in Hs; [|done].
        pose proof (starts_with_length _ _ Hs) as Hl. rewrite length_drop in Hl.
        apply starts_with_spec in Hs as [t Ht].
        apply IH in Hw as (fillers & suffix & Hlen & Hd); [|lia].
        exists fillers, suffix. split; [done|].
        rewrite <- app_assoc, <- Hd, Ht.
        f_equal. rewrite <- drop_drop, Ht. by rewrite drop_app_length.
Qed.

(** At the end of the candidate only segments that need no text can
    still be accepted, and those are accepted anywhere. *)
Lemma walk_at_end parts restored_text :
  walk parts restored_text (length restored_text) = true ->
  forall other position, walk parts other position = true.
Proof.
  induction parts as [|part rest IH]; intros Hw other position; [done|].
  cbn [walk] in *.
  destruct (str_eqb part UNK).
  - destruct (next_literal rest) as [|c nl]; [by apply IH|].
    destruct (find restored_text (c :: nl) (length restored_text)) as [p|] eqn:Hf; [|done].
    apply find_Some in Hf as (Hp & Hat & _).
    assert (p = length restored_text) as -> by lia.
    rewrite drop_all in Hat. discriminate Hat.
  - destruct part as [|c part]; [by apply IH|].
    destruct (str_eqb _ _) eqn:Hs in Hw; [|done].
    apply str_eqb_true in Hs. unfold slice in Hs.
    rewrite drop_all, take_nil in Hs. discriminate Hs.
Qed.

(** What [walk] accepts, it accepts with any text appended to the
    candidate. *)
Lemma walk_extend parts restored_text extra : forall position,
  position <= length restored_text ->
  walk parts restored_text position = true ->
  walk parts (restored_text ++ extra) position = true.
Proof.
  induction parts as [|part rest IH]; intros position Hpos Hw; [done|].
  cbn [walk] in *.
  destruct (str_eqb part UNK).
  - destruct (next_literal rest) as [|c nl]; [by eapply walk_at_end|].
    destruct (find restored_text (c :: nl) position) as [p|] eqn:Hf; [|done].
    rewrite (find_extend _ _ _ _ extra Hf).
    apply find_Some in Hf as (Hp & _ & _). apply IH; [lia | done].
  - destruct part as [|c part]; [by apply IH|].
    destruct (str_eqb _ _) eqn:Hs in Hw; [|done].
    cbn [negb] in Hw. apply str_eqb_true in Hs.
    pose proof Hs as Hst. apply slice_eq_starts in Hst; [|done].
    pose proof (starts_with_length _ _ Hst) as Hl. rewrite length_drop in Hl.
    assert (Hs' : slice (restored_text ++ extra) position (position + length (c :: part))
                  = c :: part).
    { rewrite <- Hs at 2. unfold slice.
      rewrite drop_app_le by lia. rewrite take_app_le; [done|].
      rewrite length_drop. lia. }
    rewrite Hs', str_eqb_refl. cbn [negb]. apply IH; [lia | done].
Qed.

(** [split] yields a literal segment, then placeholders and literal
    segments in turn; no literal segment is the marker. *)
Lemma split_go_shape s : forall skip,
  exists first rest,
    split_go skip s = first :: rest /\ first <> UNK /\ alternating rest.
Proof.
  induction s as [|c s IH]; intros skip.
  - exists [], []. destruct skip; repeat split; try done; constructor.
  - destruct skip as [|k]; cbn [split_go]; [|apply IH].
    destruct (starts_with UNK (c :: s)) eqn:Hs.
    + destruct (IH (length UNK - 1)) as (first & rest & -> & Hne & Halt).
      exists [], (UNK :: first :: rest). repeat split; [done|].
      by constructor.
    + destruct (IH 0) as (first & rest & Heq & Hne & Halt).
      exists (c :: first), rest. rewrite Heq. repeat split; [|done].
      intros Hunk.
      pose proof (split_go_concat s 0) as Hc. rewrite Heq in Hc.
      cbn [concat drop] in Hc.
      assert (starts_with UNK (c :: s) = true); [|congruence].
      apply starts_with_spec. exists (concat rest).
      rewrite <- Hunk. cbn [app]. f_equal. symmetry. exact Hc.
Qed.

(** After a literal segment matched at or before its true place, the
    greedy walk accepts the rest of a substituted candidate, provided
    no two placeholders are adjacent. *)
Lemma walk_complete rest :
  alternating rest -> separated rest = true ->
  forall fillers suffix restored_text position t,
    position <= t <= length restored_text ->
    drop t restored_text = substitute rest fillers ++ suffix ->
    walk rest restored_text position = true.
Proof.
  induction 1 as [|literal rest Hne Halt IH]; intros Hsep; [done|].
  intros fillers suffix restored_text position t Hpos Hd.
  cbn [separated] in Hsep. rewrite str_eqb_refl in Hsep.
  apply str_eqb_false in Hne as Hneb. rewrite Hneb in Hsep.
  cbn [walk next_literal substitute] in *. rewrite str_eqb_refl, Hneb in *.
  cbn [negb].
  assert (exists t', t <= t' <= length restored_text
                     /\ exists fs, drop t' restored_text
                                   = literal ++ substitute rest fs ++ suffix)
    as (t' & Ht' & fs & Hd').
  { destruct fillers as [|f fs].
    - exists t. split; [lia|]. exists []. by rewrite Hd, <- app_assoc.
    - assert (length f <= length (drop t restored_text)) as Hl.
      { rewrite Hd, !length_app. lia. }
      rewrite length_drop in Hl.
      exists (t + length f). split; [lia|]. exists fs.
      rewrite <- drop_drop, Hd, <- !app_assoc. by rewrite drop_app_length. }
  destruct literal as [|c literal].
  - destruct rest as [|r rest]; [|by destruct r].
    cbn. done.
  - destruct (find_occurrence restored_text (c :: literal) position t')
      as (p & Hf & Hp); [lia | rewrite Hd'; apply starts_with_app |].
    rewrite Hf. apply find_Some in Hf as (Hp' & Hat & _).
    apply slice_eq_starts in Hat as Hs; [|done]. rewrite Hs, str_eqb_refl. cbn [negb].
    apply starts_with_length in Hat as Hl. rewrite length_drop in Hl.
    apply andb_true_iff in Hsep as [_ Hsep]. cbn [andb] in Hsep.
    apply (IH Hsep fs suffix _ _ (t' + length (c :: literal))).
    + assert (length (c :: literal) <= length (drop t' restored_text)) as Hl'.
      { rewrite Hd', length_app. lia. }
      rewrite length_drop in Hl'. lia.
    + rewrite <- drop_drop, Hd'. by rewrite drop_app_length.
Qed.

(** Containment for masked texts without adjacent placeholders:
    whatever fills the placeholders, and whatever follows the last
    segment, the substituted candidate is accepted. *)
Lemma guardrail_containment_separated masked fillers suffix :
  separated (split masked) = true ->
  _guardrail_ok masked (substitute (split masked) fillers ++ suffix) = true.
Proof.
  intros Hsep. unfold _guardrail_ok.
  destruct (str_eqb masked _); [done|].
  unfold split in *.
  destruct (split_go_shape masked 0) as (first & rest & Heq & Hne & Halt).
  rewrite Heq in *. cbn [separated] in Hsep.
  apply str_eqb_false in Hne as Hneb.
  rewrite Hneb in Hsep. cbn [andb] in Hsep.
  cbn [walk substitute]. rewrite Hneb.
  destruct first as [|c first].
  - apply (walk_complete rest Halt Hsep fillers suffix _ 0 0); [lia | done].
  - set (C := ((c :: first) ++ substitute rest fillers) ++ suffix).
    assert (Hs : slice C 0 (0 + length (c :: first)) = c :: first).
    { apply slice_eq_starts; [done|]. unfold C. rewrite <- app_assoc.
      apply starts_with_app. }
    rewrite Hs, str_eqb_refl. cbn [negb].
    apply (walk_complete rest Halt Hsep fillers suffix _ _ (length (c :: first))).
    + unfold C. rewrite !length_app. lia.
    + unfold C. rewrite <- app_assoc. by rewrite drop_app_length.
Qed.

(** C1. Guardrail containment law, at a masked text with two adjacent
    placeholders: filling the placeholders of ["[[UNK]][[UNK]]x"] with
    the non-empty fillers ["a"] and ["b"] leaves the literal segment
    ["x"] intact, yet [_guardrail_ok] rejects the candidate ["abx"]: the
    look-ahead of the first placeholder stops at the empty segment
    between the two placeholders and moves the cursor to the end. *)
Theorem guardrail_containment_adjacent :
  let masked := str "[[UNK]][[UNK]]x" in
  let fillers := [str "a"; str "b"] in
  split masked = [[]; UNK; []; UNK; str "x"]
  /\ length fillers = placeholders (split masked)
  /\ Forall (fun f => f <> []) fillers
  /\ substitute (split masked) fillers = str "abx"
  /\ next_literal [[]; UNK; str "x"] = []
  /\ _guardrail_ok masked (str "abx") = false.
Proof.
  cbn zeta. repeat split. repeat constructor; discriminate.
Qed.

(** C2, the claim as stated fails: text appended after the final
    literal segment is text outside every placeholder region (no
    filler makes the candidate a fill-in of the masked text), and the
    candidate is accepted. *)
Lemma guardrail_tamper_appended_accepted :
  let masked := str "Hello [[UNK]] world" in
  let restored := str "Hello friend world and more" in
  restored = substitute (split masked) [str "friend"] ++ str " and more"
  /\ (forall filler, substitute (split masked) [filler] <> restored)
  /\ _guardrail_ok masked restored = true.
Proof.
  cbn zeta. split; [reflexivity|]. split; [|vm_compute; reflexivity].
  intros filler Heq.
  apply (f_equal (fun l => head (rev l))) in Heq.
  change (substitute (split (str "Hello [[UNK]] world")) [filler])
    with (str "Hello " ++ filler ++ str " world") in Heq.
  rewrite !rev_app_distr in Heq. discriminate Heq.
Qed.

(** C2. Guardrail tamper law, as the code has it: a candidate is
    accepted only if it consists of the segments of the masked text in
    their order, the literal ones verbatim and each placeholder
    replaced by some (possibly empty) filler, followed by arbitrary
    text; a candidate in which a literal segment is altered, missing
    or out of order in that sense is rejected.  The end of the
    candidate is not checked: an accepted candidate other than the
    masked text itself stays accepted with any text appended to it. *)
Theorem guardrail_tamper masked restored :
  _guardrail_ok masked restored = true ->
  (exists fillers suffix,
      length fillers = placeholders (split masked)
      /\ restored = substitute (split masked) fillers ++ suffix)
  /\ (masked <> restored ->
      forall extra, _guardrail_ok masked (restored ++ extra) = true).
Proof.
  unfold _guardrail_ok. destruct (str_eqb masked restored) eqn:He.
  - intros _. apply str_eqb_true in He as <-. split; [|intros Hne; by destruct Hne].
    exists (replicate (placeholders (split masked)) UNK), [].
    rewrite length_replicate, substitute_markers, split_concat, app_nil_r by done.
    done.
  - intros Hw. split.
    + apply walk_sound in Hw; [done | lia].
    + intros _ extra. destruct (str_eqb masked (restored ++ extra)); [done|].
      apply walk_extend; [lia | done].
Qed.

Lemma guardrail_tamper_witness :
  (exists fillers suffix,
      length fillers = placeholders (split (str "Hello [[UNK]] world"))
      /\ str "Hello friend world"
         = substitute (split (str "Hello [[UNK]] world")) fillers ++ suffix)
  /\ (str "Hello [[UNK]] world" <> str "Hello friend world" ->
      forall extra,
        _guardrail_ok (str "Hello [[UNK]] world") (str "Hello friend world" ++ extra) = true).
Proof.
  apply (guardrail_tamper (str "Hello [[UNK]] world") (str "Hello friend world")).
  vm_compute. reflexivity.
Defined.

(** C9. Verifier suffix monotonicity, at a masked text with two
    adjacent placeholders before a literal segment: ["[[UNK]][[UNK]]x"]
    is accepted as its own restoration by the equality test alone,
    the walk over its segments rejecting it (the look-ahead of the
    first placeholder stops at the empty segment between the two and
    moves the cursor to the end, where ["x"] is not found); so the
    same text with ["s"] appended is rejected. *)
Theorem guardrail_suffix_rejected :
  let x := str "[[UNK]][[UNK]]x" in
  split x = [[]; UNK; []; UNK; str "x"]
  /\ next_literal [[]; UNK; str "x"] = []
  /\ walk (split x) x 0 = false
  /\ _guardrail_ok x x = true
  /\ _guardrail_ok x (x ++ str "s") = false.
Proof. cbn zeta. repeat split; vm_compute; reflexivity. Qed.

(** Suffix monotonicity where it holds: a candidate other than the
    masked text itself that is accepted stays accepted when text is
    appended, the end of the candidate not being checked; so does the
    masked text itself when the walk accepts it, as it does when no
    placeholder is directly followed by another. *)
Lemma guardrail_suffix_monotone masked restored extra :
  (masked <> restored ->
   _guardrail_ok masked restored = true ->
   _guardrail_ok masked (restored ++ extra) = true)
  /\ (separated (split masked) = true ->
      _guardrail_ok masked (masked ++ extra) = true).
Proof.
  split.
  - intros Hne. unfold _guardrail_ok.
    apply str_eqb_false in Hne as ->. intros Hw.
    destruct (str_eqb masked (restored ++ extra)); [done|].
    apply walk_extend; [lia | done].
  - intros Hsep.
    rewrite <- (split_concat masked) at 2.
    rewrite <- (substitute_markers _ (placeholders (split masked))) by done.
    by apply guardrail_containment_separated.
Qed.

Lemma guardrail_suffix_self masked extra :
  walk (split masked) masked 0 = true ->
  _guardrail_ok masked (masked ++ extra) = true.
Proof.
  intros Hw. unfold _guardrail_ok.
  destruct (str_eqb masked (masked ++ extra)); [done|].
  apply walk_extend; [lia | done].
Qed.

(** Two adjacent placeholders at the very end do no harm: the jump to
    the end is then the right move. *)
Example guardrail_suffix_trailing_adjacent :
  walk (split (str "a[[UNK]][[UNK]]")) (str "a[[UNK]][[UNK]]") 0 = true
  /\ separated (split (str "a[[UNK]][[UNK]]")) = false
  /\ _guardrail_ok (str "a[[UNK]][[UNK]]") (str "a[[UNK]][[UNK]]" ++ str "s") = true.
Proof. repeat split; vm_compute; reflexivity. Qed.

Example guardrail_suffix_monotone_sample :
  _guardrail_ok (str "Hello [[UNK]] world") (str "Hello friend world" ++ str "!!") = true
  /\ _guardrail_ok (str "Hello [[UNK]] world") (str "Hello [[UNK]] world" ++ str "!!") = true.
Proof.
  split.
  - apply (proj1 (guardrail_suffix_monotone (str "Hello [[UNK]] world")
                    (str "Hello friend world") (str "!!"))).
    + discriminate.
    + vm_compute. reflexivity.
  - apply (proj2 (guardrail_suffix_monotone (str "Hello [[UNK]] world")
                    (str "Hello friend world") (str "!!"))).
    vm_compute. reflexivity.
Qed.

(** ** The token masker *)

(** Trimming leaves no whitespace at either end. *)
Lemma lstrip_head s c : head (lstrip s) = Some c -> is_space c = false.
Proof.
  induction s as [|d s IH]; [done|]. cbn.
  destruct (is_space d) eqn:Hd; [done|]. cbn. congruence.
Qed.

Lemma strip_last s c : last (strip s) = Some c -> is_space c = false.
Proof.
  unfold strip. destruct (lstrip (rev (lstrip s))) as [|d l] eqn:Hl; [done|].
  cbn [rev]. rewrite last_snoc. intros [= ->].
  apply (lstrip_head (rev (lstrip s))). by rewrite Hl.
Qed.

Section MaskerProperties.

Variable is_word : char -> bool.


(** On a token that does not end in a newline, [^\w+$] asks for word
    characters throughout. *)
Lemma word_run_forallb token :
  token <> [] -> last token <> Some newline ->
  word_run is_word token = forallb is_word token.
Proof.
  induction token as [|c token IH]; [done|]. intros _ Hlast.
  destruct token as [|d rest].
  - cbn. by rewrite andb_true_r.
  - change (word_run is_word (c :: d :: rest))
      with (is_word c && (word_run is_word (d :: rest)
                          || match rest with [] => N.eqb d newline | _ => false end)).
    change (forallb is_word (c :: d :: rest))
      with (is_word c && forallb is_word (d :: rest)).
    rewrite <- IH; [|done|done]. f_equal.
    destruct rest as [|e rest]; [|by rewrite orb_false_r].
    destruct (N.eqb_spec d newline) as [->|]; [done | by rewrite orb_false_r].
Qed.

Lemma is_word_token_strip token :
  strip token <> [] ->
  is_word_token is_word (strip token) = forallb is_word (strip token).
Proof.
  intros Hne. apply word_run_forallb; [done|].
  intros Hl%strip_last. done.
Qed.

(** [search] returns the first index from [pos] on where the pattern
    matches. *)
Lemma search_from_Some is_w token text : forall n p q,
  search_from is_word is_w token text p n = Some q ->
  p <= q < p + n
  /\ matches_at is_word is_w token text q = true
  /\ forall j, p <= j < q -> matches_at is_word is_w token text j = false.
Proof.
  induction n as [|n IH]; intros p q; cbn [search_from]; [done|].
  destruct (matches_at is_word is_w token text p) eqn:Hm.
  - intros [= <-]. repeat split; [lia | lia | done | lia].
  - intros (Hq & Hat & Hbefore)%IH. repeat split; [lia | lia | done |].
    intros j Hj. destruct (decide (j = p)) as [->|]; [done|]. apply Hbefore. lia.
Qed.

Lemma search_Some is_w token text pos q :
  search is_word is_w token text pos = Some q ->
  pos <= q <= length text
  /\ matches_at is_word is_w token text q = true
  /\ forall j, pos <= j < q -> matches_at is_word is_w token text j = false.
Proof.
  unfold search. intros (Hq & Hat & Hbefore)%search_from_Some.
  repeat split; [lia | lia | done | done].
Qed.

(** A word boundary depends on the two characters around it only. *)
Lemma boundary_shift (a b s : pystr) j :
  0 < j ->
  boundary is_word (a ++ s) (length a + j) = boundary is_word (b ++ s) (length b + j).
Proof.
  intros Hj. destruct j as [|j]; [lia|].
  unfold boundary, word_before, word_after.
  rewrite !Nat.add_succ_r.
  rewrite !(lookup_app_r _ s) by lia.
  by replace (length a + j - length a) with (length b + j - length b) by lia;
     replace (S (length a + j) - length a) with (S (length b + j) - length b) by lia.
Qed.

Lemma source_prefix_snoc occs gap token :
  source_prefix (occs ++ [(gap, token)]) = source_prefix occs ++ gap ++ token.
Proof.
  unfold source_prefix. rewrite map_app, concat_app. cbn. by rewrite app_nil_r.
Qed.

Lemma masked_prefix_snoc occs gap token :
  masked_prefix (occs ++ [(gap, token)]) = masked_prefix occs ++ gap ++ UNK.
Proof.
  unfold masked_prefix. rewrite map_app, concat_app. cbn. by rewrite app_nil_r.
Qed.

(** Appending one more occurrence to a placed sequence. *)
Lemma placed_snoc raw gap token : forall occs offset first,
  placed is_word raw offset first occs ->
  (let start := offset + length (source_prefix occs) + length gap in
   let stop := start + length token in
   if forallb is_word token
   then boundary is_word raw stop = true
        /\ (first = true /\ occs = [] \/ gap <> [] -> boundary is_word raw start = true)
   else find raw token (offset + length (source_prefix occs)) = Some start) ->
  placed is_word raw offset first (occs ++ [(gap, token)]).
Proof.
  induction occs as [|[g0 t0] occs IH]; intros offset first Hp Hnew; cbn zeta in Hnew.
  - cbn [app placed]. cbn [source_prefix map concat length] in Hnew.
    rewrite !Nat.add_0_r in Hnew. split; [|done].
    destruct (forallb is_word token); [|done].
    destruct Hnew as [Hstop Hstart]. split; [done|].
    intros [->|Hg]; apply Hstart; auto.
  - cbn [app placed] in *. destruct Hp as [H0 Hp]. split; [done|].
    apply IH; [done|]. cbn zeta.
    match type of Hnew with
    | context [find raw token ?a] =>
        assert (Hl : a = offset + length g0 + length t0 + length (source_prefix occs))
    end.
    { unfold source_prefix. cbn. rewrite !length_app. lia. }
    rewrite Hl in Hnew.
    destruct (forallb is_word token); [|done].
    destruct Hnew as [Hstop Hstart]. split; [done|].
    intros [[? _]|Hg]; [done|]. apply Hstart. by right.
Qed.

(** One iteration either leaves the state as it is, or replaces one
    occurrence of the trimmed token, found in the untouched part of the
    transcript. *)
Lemma mask_step_inv raw threshold st (token : pystr) conf st'
    (occs : list occurrence) (rest : pystr) :
  mask_inv is_word raw st occs rest ->
  mask_step is_word threshold st token conf = Ok st' ->
  st' = st
  \/ (low_confidence threshold conf = true /\ strip token <> []
      /\ exists (gap rest' : pystr),
           mask_inv is_word raw st' (occs ++ [(gap, strip token)]) rest').
Proof.
  intros (Hraw & Htext & Hcount & Hcursor & Hne & Hplaced).
  unfold mask_step, low_confidence.
  pose proof (is_word_token_strip token) as Hwt.
  destruct (strip token) as [|c t0] eqn:Hstrip; [intros [= <-]; by left|].
  specialize (Hwt ltac:(done)).
  set (t := c :: t0) in *.
  destruct (py_float conf) as [v|e]; [|destruct e; try done; intros [= <-]; by left].
  destruct (float_lt_int v threshold && float_ge_zero v); [|intros [= <-]; by left].
  destruct (search is_word (is_word_token is_word t) t (masked_text st) (search_start st))
    as [p|] eqn:Hsearch; [|intros [= <-]; by left].
  intros Hst'.
  assert (st' = {| masked_text := take p (masked_text st) ++ UNK
                                    ++ drop (p + length t) (masked_text st);
                   masked_count := masked_count st + 1;
                   search_start := p + length UNK |}) as -> by congruence.
  clear Hst'.
  right. split; [done|]. split; [done|].
  apply search_Some in Hsearch as (Hp & Hat & Hmin).
  set (mp := masked_prefix occs) in *. set (sp := source_prefix occs) in *.
  rewrite Htext, Hcursor in *.
  assert (exists k, p = length mp + k) as [k ->] by (exists (p - length mp); lia).
  unfold matches_at in Hat. apply andb_true_iff in Hat as [Hocc Hbound].
  rewrite drop_app_add in Hocc.
  pose proof (starts_with_length _ _ Hocc) as Hlen. rewrite length_drop in Hlen.
  assert (0 < length t) as Htpos by (cbn; lia).
  apply starts_with_spec in Hocc as [rest' Hrest'].
  assert (Hrest : rest = take k rest ++ t ++ rest').
  { by rewrite <- Hrest', take_drop. }
  assert (Hgap : length (take k rest) = k) by (rewrite length_take; lia).
  exists (take k rest), rest'. repeat split.
  - rewrite source_prefix_snoc, <- !app_assoc. fold sp. by rewrite <- Hrest.
  - cbn [masked_text]. rewrite masked_prefix_snoc. fold mp.
    rewrite take_app_add, <- !app_assoc. do 3 f_equal.
    rewrite <- Nat.add_assoc, drop_app_add.
    rewrite <- drop_drop, Hrest'. by rewrite drop_app_length.
  - cbn [masked_count]. rewrite length_app. cbn. lia.
  - cbn [search_start]. rewrite masked_prefix_snoc. fold mp.
    rewrite !length_app, Hgap. lia.
  - apply Forall_app. split; [done|]. by repeat constructor.
  - apply placed_snoc; [done|]. cbn zeta. fold sp.
    rewrite Hgap, Nat.add_0_l. rewrite <- Hwt.
    assert (Hsame : forall j, drop (length sp + j) raw = drop (length mp + j) (mp ++ rest)).
    { intros j. by rewrite Hraw, !drop_app_add. }
    destruct (is_word_token is_word t) eqn:Hw.
    + cbn [negb orb] in Hbound. apply andb_true_iff in Hbound as [Hstart Hstop].
      split.
      * rewrite <- Hstop, Hraw, <- !Nat.add_assoc. apply boundary_shift. lia.
      * intros [[_ ->]|Hg].
        -- subst mp sp. cbn in *. by rewrite <- Hstart, Hraw.
        -- rewrite <- Hstart, Hraw. apply boundary_shift.
           destruct k; [|lia]. by rewrite take_0 in Hg.
    + destruct (find_occurrence raw t (length sp) (length sp + k)) as (p' & Hf & Hle).
      * rewrite Hraw, length_app. lia.
      * rewrite Hsame, drop_app_add, Hrest'. apply starts_with_app.
      * rewrite Hf. f_equal.
        apply find_Some in Hf as (Hp' & Hat' & _).
        destruct (decide (p' = length sp + k)) as [|Hneq]; [done|]. exfalso.
        specialize (Hmin (length mp + (p' - length sp)) ltac:(lia)).
        unfold matches_at in Hmin. cbn [negb orb] in Hmin. rewrite andb_true_r in Hmin.
        rewrite <- Hsame in Hmin.
        replace (length sp + (p' - length sp)) with p' in Hmin by lia. congruence.
Qed.

Lemma candidates_cons threshold (token : pystr) conf pairs :
  candidates threshold ((token, conf) :: pairs)
  = if low_confidence threshold conf
    then match strip token with
         | [] => candidates threshold pairs
         | c :: t => (c :: t) :: candidates threshold pairs
         end
    else candidates threshold pairs.
Proof.
  unfold candidates. cbn -[strip low_confidence].
  destruct (low_confidence threshold conf); [|reflexivity].
  destruct (strip token); reflexivity.
Qed.

(** The whole loop: the replacements it adds are occurrences of the
    trimmed low-confidence tokens, in the order supplied. *)
Lemma mask_loop_inv raw threshold : forall pairs st st' (occs : list occurrence) (rest : pystr),
  mask_inv is_word raw st occs rest ->
  mask_loop is_word threshold st pairs = Ok st' ->
  exists (occs' : list occurrence) (rest' : pystr),
    mask_inv is_word raw st' (occs ++ occs') rest'
    /\ sublist (map snd occs') (candidates threshold pairs).
Proof.
  induction pairs as [|[token conf] pairs IH]; intros st st' occs rest Hinv; cbn [mask_loop].
  - intros [= <-]. exists [], rest. rewrite app_nil_r. split; [done | constructor].
  - destruct (mask_step is_word threshold st token conf) as [st1|e] eqn:Hstep; [|done].
    intros Hloop.
    destruct (mask_step_inv _ _ _ _ _ _ _ _ Hinv Hstep)
      as [->|(Hlow & Hne & gap & rest1 & Hinv1)].
    + destruct (IH _ _ _ _ Hinv Hloop) as (occs' & rest' & Hinv' & Hsub).
      exists occs', rest'. split; [done|].
      rewrite candidates_cons.
      destruct (low_confidence threshold conf); [destruct (strip token)|];
        try done; by apply sublist_cons.
    + destruct (IH _ _ _ _ Hinv1 Hloop) as (occs' & rest' & Hinv' & Hsub).
      exists ((gap, strip token) :: occs'), rest'.
      rewrite <- app_assoc in Hinv'. split; [done|].
      rewrite candidates_cons, Hlow.
      destruct (strip token) as [|c t] eqn:Hs; [done|].
      cbn [map snd]. by apply sublist_skip.
Qed.

Lemma mask_inv_init raw :
  mask_inv is_word raw {| masked_text := raw; masked_count := 0; search_start := 0 |} [] raw.
Proof. repeat split. constructor. Qed.

Lemma build_masked_text_inv raw tokens confs threshold masked count :
  _build_masked_text is_word raw tokens confs threshold = Ok (masked, count) ->
  exists (occs : list occurrence) (rest : pystr),
    mask_inv is_word raw
      {| masked_text := masked; masked_count := count;
         search_start := length (masked_prefix occs) |} occs rest
    /\ sublist (map snd occs) (candidates threshold (zip tokens confs)).
Proof.
  unfold _build_masked_text.
  destruct (mask_loop _ _ _ _) as [st|e] eqn:Hloop; [|done].
  intros [= <- <-].
  destruct (mask_loop_inv _ _ _ _ _ _ _ (mask_inv_init raw) Hloop)
    as (occs & rest & Hinv & Hsub).
  exists occs, rest. split; [|done].
  destruct Hinv as (? & ? & ? & ? & ? & ?). repeat split; done.
Qed.


(** [search] finds nothing only where the pattern matches nowhere. *)
Lemma search_from_None is_w token text : forall n p,
  search_from is_word is_w token text p n = None ->
  forall j, p <= j < p + n -> matches_at is_word is_w token text j = false.
Proof.
  induction n as [|n IH]; intros p; cbn [search_from]; [intros _ j Hj; lia|].
  destruct (matches_at is_word is_w token text p) eqn:Hm; [done|].
  intros Hnone j Hj. destruct (decide (j = p)) as [->|]; [done|].
  apply (IH (S p)); [done | lia].
Qed.

Lemma search_None is_w (token : pystr) text pos :
  token <> [] ->
  search is_word is_w token text pos = None ->
  forall j, pos <= j -> matches_at is_word is_w token text j = false.
Proof.
  intros Hne Hnone j Hj.
  destruct (decide (j <= length text)) as [Hin|Hout].
  - apply (search_from_None _ _ _ _ _ Hnone). lia.
  - unfold matches_at. rewrite drop_ge by lia.
    destruct token; [done|]. reflexivity.
Qed.

(** After a replacement the text before the cursor ends with the
    ["]"] of the placeholder. *)
Lemma masked_prefix_last (occs : list occurrence) :
  occs <> [] -> exists m : pystr, masked_prefix occs = m ++ [93%N].
Proof.
  destruct occs as [|o occs _] using rev_ind; [done|]. intros _.
  destruct o as [gap token]. rewrite masked_prefix_snoc.
  exists (masked_prefix occs ++ gap ++ take 6 UNK).
  rewrite <- !app_assoc. do 2 f_equal.
Qed.

(** The pattern in the partly masked text, [k] characters after the
    cursor, is the pattern read in the source transcript. *)
Lemma matches_at_source raw st (occs : list occurrence) (rest t : pystr) k :
  mask_inv is_word raw st occs rest ->
  t <> [] ->
  matches_at is_word (forallb is_word t) t (masked_text st) (search_start st + k)
  = matches_in_source is_word raw (length (source_prefix occs))
      (match occs with [] => true | _ => false end) t (length (source_prefix occs) + k).
Proof.
  intros (Hraw & Htext & _ & Hcursor & _ & _) Hne.
  set (mp := masked_prefix occs) in *. set (sp := source_prefix occs) in *.
  unfold matches_at, matches_in_source.
  rewrite Htext, Hcursor, Hraw, !drop_app_add. f_equal. f_equal.
  assert (0 < length t) as Htpos by (destruct t; [done | cbn; lia]).
  f_equal.
  - unfold boundary_at_cursor. destruct k as [|k].
    + rewrite !Nat.add_0_r, Nat.eqb_refl. cbn [andb].
      destruct occs as [|o occs'] eqn:Hoccs.
      * subst mp sp. reflexivity.
      * cbn [negb].
        destruct (masked_prefix_last (o :: occs') ltac:(done)) as [m Hm].
        fold mp in Hm. rewrite Hm.
        unfold boundary, word_before, word_after. f_equal.
        -- rewrite length_app. cbn [length]. rewrite Nat.add_1_r. cbv beta iota.
           rewrite <- app_assoc. cbn [app].
           transitivity (from_option is_word false (Some 93%N)); [|done].
           f_equal. by apply list_lookup_middle.
        -- f_equal.
           etrans; [apply lookup_app_r; lia|].
           symmetry. etrans; [apply lookup_app_r; lia|].
           by rewrite !Nat.sub_diag.
    + replace (length sp + S k =? length sp) with false by (symmetry; apply Nat.eqb_neq; lia).
      cbn [andb]. apply boundary_shift. lia.
  - rewrite <- !Nat.add_assoc. apply boundary_shift. lia.
Qed.

(** One iteration on a trimmed, non-empty, low-confidence token: it is
    passed over only if its pattern matches nowhere from the cursor
    on, and is otherwise replaced at the first match. *)
Lemma mask_step_scan raw threshold st (token : pystr) conf st'
    (occs : list occurrence) (rest : pystr) :
  mask_inv is_word raw st occs rest ->
  mask_step is_word threshold st token conf = Ok st' ->
  let offset := length (source_prefix occs) in
  let first := match occs with [] => true | _ => false end in
  match strip token with
  | [] => st' = st
  | c :: t0 =>
      if low_confidence threshold conf then
        (st' = st
         /\ forall p, offset <= p ->
                      matches_in_source is_word raw offset first (c :: t0) p = false)
        \/ (exists (gap rest' : pystr),
              mask_inv is_word raw st' (occs ++ [(gap, c :: t0)]) rest'
              /\ matches_in_source is_word raw offset first (c :: t0) (offset + length gap)
                 = true
              /\ forall p, offset <= p < offset + length gap ->
                           matches_in_source is_word raw offset first (c :: t0) p = false)
      else st' = st
  end.
Proof.
  intros Hinv Hstep. cbn zeta.
  pose proof (mask_step_inv _ _ _ _ _ _ _ _ Hinv Hstep) as Hcase.
  pose proof (fun k t Hne => matches_at_source raw st occs rest t k Hinv Hne) as Hbridge.
  destruct Hinv as (Hraw & Htext & Hcount & Hcursor & Hne & Hplaced).
  unfold mask_step in Hstep. unfold low_confidence.
  pose proof (is_word_token_strip token) as Hwt.
  destruct (strip token) as [|c t0] eqn:Hstrip; [congruence|].
  specialize (Hwt ltac:(done)).
  set (t := c :: t0) in *.
  destruct (py_float conf) as [v|e]; [|destruct e; try done; congruence].
  destruct (float_lt_int v threshold && float_ge_zero v); [|congruence].
  rewrite Hwt in Hstep.
  destruct (search is_word (forallb is_word t) t (masked_text st) (search_start st))
    as [q|] eqn:Hsearch.
  - right.
    assert (st' = {| masked_text := take q (masked_text st) ++ UNK
                                      ++ drop (q + length t) (masked_text st);
                     masked_count := masked_count st + 1;
                     search_start := q + length UNK |}) as Hst' by congruence.
    destruct Hcase as [Hsame|(_ & _ & gap & rest' & Hinv1)].
    { exfalso. rewrite Hsame in Hst'. apply (f_equal masked_count) in Hst'.
      cbn [masked_count] in Hst'. lia. }
    exists gap, rest'. split; [done|].
    destruct Hinv1 as (_ & _ & _ & Hcursor1 & _ & _).
    rewrite Hst' in Hcursor1. cbn [search_start] in Hcursor1.
    rewrite masked_prefix_snoc, !length_app in Hcursor1.
    apply search_Some in Hsearch as (Hq & Hat & Hmin).
    assert (q = search_start st + length gap) as -> by (rewrite Hcursor; lia).
    split.
    + rewrite <- Hbridge by done. exact Hat.
    + intros p Hp.
      replace p with (length (source_prefix occs) + (p - length (source_prefix occs)))
        by lia.
      rewrite <- Hbridge by done. apply Hmin. lia.
  - left. split; [congruence|].
    intros p Hp.
    replace p with (length (source_prefix occs) + (p - length (source_prefix occs)))
      by lia.
    rewrite <- Hbridge by done.
    apply (search_None (forallb is_word t) t (masked_text st) (search_start st));
      [done | done | lia].
Qed.

(** The whole loop, token by token. *)
Lemma mask_loop_scanned raw threshold :
  forall pairs st st' (occs : list occurrence) (rest : pystr),
  mask_inv is_word raw st occs rest ->
  mask_loop is_word threshold st pairs = Ok st' ->
  exists (occs' : list occurrence) (rest' : pystr),
    mask_inv is_word raw st' (occs ++ occs') rest'
    /\ scanned is_word raw (length (source_prefix occs))
         (match occs with [] => true | _ => false end)
         (candidates threshold pairs) occs'.
Proof.
  induction pairs as [|[token conf] pairs IH]; intros st st' occs rest Hinv; cbn [mask_loop].
  - intros Hst. assert (st' = st) as -> by congruence.
    exists [], rest. rewrite app_nil_r. by split.
  - destruct (mask_step is_word threshold st token conf) as [st1|e] eqn:Hstep; [|done].
    intros Hloop.
    pose proof (mask_step_scan _ _ _ _ _ _ _ _ Hinv Hstep) as Hscan. cbn zeta in Hscan.
    rewrite candidates_cons.
    destruct (strip token) as [|c t0] eqn:Hstrip.
    { subst st1. destruct (IH _ _ _ _ Hinv Hloop) as (occs' & rest' & Hinv' & Hsc).
      exists occs', rest'. split; [done|]. by destruct (low_confidence threshold conf). }
    destruct (low_confidence threshold conf).
    2:{ subst st1. destruct (IH _ _ _ _ Hinv Hloop) as (occs' & rest' & Hinv' & Hsc).
        by exists occs', rest'. }
    destruct Hscan as [[-> Hnone]|(gap & rest1 & Hinv1 & Hhit & Hmin)].
    + destruct (IH _ _ _ _ Hinv Hloop) as (occs' & rest' & Hinv' & Hsc).
      exists occs', rest'. split; [done|]. cbn [scanned]. left. by split.
    + destruct (IH _ _ _ _ Hinv1 Hloop) as (occs' & rest' & Hinv' & Hsc).
      exists ((gap, c :: t0) :: occs'), rest'.
      rewrite <- app_assoc in Hinv'. split; [done|].
      cbn [scanned]. right. exists gap, occs'. split; [done|]. split; [done|].
      split; [done|].
      rewrite source_prefix_snoc, !length_app in Hsc.
      rewrite !Nat.add_assoc in Hsc.
      by destruct occs.
Qed.

(** C6. Masking boundary law, as the code has it: the replaced
    occurrence of a token made of word characters ends at a word
    boundary of the source transcript, and starts at one unless it
    starts exactly where the previous replaced occurrence ended (the
    pattern is matched against the partly masked text, in which a
    placeholder stands there); a token with a non-word character is
    replaced at its first literal occurrence at or after the end of
    the previous replaced occurrence, wherever that is.  No match is
    left out: each trimmed low-confidence token, in the order
    supplied, is replaced at the first index from the end of the
    previous replaced occurrence on where its pattern matches, and is
    passed over only when it matches nowhere from there on. *)
Theorem mask_boundary raw tokens confs threshold masked count :
  _build_masked_text is_word raw tokens confs threshold = Ok (masked, count) ->
  exists (occs : list occurrence) (rest : pystr),
    raw = source_prefix occs ++ rest
    /\ masked = masked_prefix occs ++ rest
    /\ placed is_word raw 0 true occs
    /\ scanned is_word raw 0 true (candidates threshold (zip tokens confs)) occs.
Proof.
  unfold _build_masked_text.
  destruct (mask_loop _ _ _ _) as [st|e] eqn:Hloop; [|done].
  intros Hres. assert (masked = masked_text st /\ count = masked_count st) as [-> ->].
  { split; congruence. }
  destruct (mask_loop_scanned _ _ _ _ _ _ _ (mask_inv_init raw) Hloop)
    as (occs & rest & Hinv & Hsc).
  destruct Hinv as (? & ? & ? & ? & ? & ?). by exists occs, rest.
Qed.

(** [float] of a positive [int] is positive. *)
Lemma round_to_double_pos a : (0 < a)%Z -> (0 < round_to_double a)%Z.
Proof.
  intros Ha. unfold round_to_double.
  destruct (Z.ltb_spec (Z.log2 a) 53) as [|Hn]; [done|].
  set (sh := (Z.log2 a - 52)%Z).
  assert (0 < 2 ^ sh)%Z as Hpow by (apply Z.pow_pos_nonneg; lia).
  assert (2 ^ sh <= a)%Z as Hle.
  { transitivity (2 ^ Z.log2 a)%Z.
    - apply Z.pow_le_mono_r; lia.
    - by apply Z.log2_spec. }
  assert (0 < a / 2 ^ sh)%Z as Hq by (apply Z.div_str_pos; lia).
  destruct (_ || _); nia.
Qed.

(** Below zero, [float] either overflows or gives a value that fails
    [confidence_val >= 0]. *)
Lemma negative_not_ge_zero conf :
  negative conf ->
  py_float conf = Raise OverflowError
  \/ exists v, py_float conf = Ok v /\ float_ge_zero v = false.
Proof.
  destruct conf as [z|[q| | |]|]; cbn [negative]; try done.
  - intros Hz. unfold py_float.
    destruct (_ <=? _)%Z; [by left|]. right. eexists. split; [done|].
    cbn [float_ge_zero]. apply not_true_is_false. intros Hle%Qle_bool_iff.
    pose proof (round_to_double_pos (Z.abs z) ltac:(lia)) as Hm.
    unfold Qle in Hle. cbn in Hle.
    rewrite Z.sgn_neg in Hle by done. lia.
  - intros Hq. right. exists (FFinite q). split; [done|].
    cbn. apply not_true_is_false. intros Hle%Qle_bool_iff.
    by apply Qlt_not_le in Hq.
  - intros _. right. by exists FNegInf.
Qed.

Lemma py_float_raises conf e :
  py_float conf = Raise e -> e = ValueError \/ e = OverflowError.
Proof.
  destruct conf as [z|v|]; cbn [py_float].
  - destruct (_ <=? _)%Z; [|done]. intros [= <-]. by right.
  - done.
  - intros [= <-]. by left.
Qed.

(** Without an overflow in [float], an iteration does not raise. *)
Lemma mask_step_total threshold st (token : pystr) conf :
  py_float conf <> Raise OverflowError ->
  exists st', mask_step is_word threshold st token conf = Ok st'.
Proof.
  intros Hno. unfold mask_step.
  destruct (strip token) as [|c t]; [by eexists|].
  destruct (py_float conf) as [v|e] eqn:Hf.
  - destruct (_ && _); [|by eexists].
    destruct (search _ _ _ _ _); by eexists.
  - apply py_float_raises in Hf as Hcases. destruct Hcases as [->| ->]; [by eexists | done].
Qed.

Lemma mask_loop_total threshold : forall pairs st,
  Forall (fun p : pystr * confidence => py_float p.2 <> Raise OverflowError) pairs ->
  exists st', mask_loop is_word threshold st pairs = Ok st'.
Proof.
  induction pairs as [|[token conf] pairs IH]; intros st Hall; cbn [mask_loop].
  - by eexists.
  - apply Forall_cons in Hall as [Hconf Hall].
    destruct (mask_step_total threshold st token conf Hconf) as [st1 ->].
    by apply IH.
Qed.

(** C7. Masker graceful-skip law, as the code has it: provided no
    [float(confidence)] overflows (it returns a float or raises
    [ValueError]), the masker returns a result; a pair whose trimmed
    token is empty, whose confidence [float] rejects with [ValueError],
    or whose confidence is negative without overflowing, leaves
    transcript, count and cursor as they are; so does a token for which
    the search from the cursor on finds no match. *)
Theorem mask_graceful_skip threshold :
  (forall raw tokens confs,
      Forall (fun c => py_float c <> Raise OverflowError) confs ->
      exists masked count,
        _build_masked_text is_word raw tokens confs threshold = Ok (masked, count))
  /\ (forall st (token : pystr) conf,
        strip token = []
        \/ py_float conf = Raise ValueError
        \/ (negative conf /\ py_float conf <> Raise OverflowError) ->
        mask_step is_word threshold st token conf = Ok st)
  /\ (forall st (token : pystr) conf,
        py_float conf <> Raise OverflowError ->
        search is_word (is_word_token is_word (strip token)) (strip token)
          (masked_text st) (search_start st) = None ->
        mask_step is_word threshold st token conf = Ok st).
Proof.
  split; [|split].
  - intros raw tokens confs Hall. unfold _build_masked_text.
    destruct (mask_loop_total threshold (zip tokens confs)
                {| masked_text := raw; masked_count := 0; search_start := 0 |})
      as [st' ->]; [|by eexists _, _].
    apply Forall_forall. intros [token conf] Hin.
    apply elem_of_zip_r in Hin. cbn.
    by apply (proj1 (Forall_forall _ _) Hall).
  - intros st token conf Hskip. unfold mask_step.
    destruct (strip token) as [|c t]; [done|].
    destruct Hskip as [?|[->|[Hneg Hno]]]; [done|done|].
    apply negative_not_ge_zero in Hneg as [?|(v & -> & ->)]; [done|].
    by rewrite andb_false_r.
  - intros st token conf Hno Hnone. unfold mask_step.
    destruct (strip token) as [|c t]; [done|].
    destruct (py_float conf) as [v|e] eqn:Hf.
    + rewrite Hnone. by destruct (_ && _).
    + apply py_float_raises in Hf as Hcases. by destruct Hcases as [->| ->].
Qed.

End MaskerProperties.


(** C6, the claim as stated fails: once ["-a"] has been replaced, the
    pattern for the word token ["b"] is matched right after the
    placeholder, and the ["b"] that ends the word ["ab"] of the
    transcript is replaced although no word boundary precedes it
    there. *)
Lemma mask_boundary_junction :
  let raw := str "-ab c" in
  _build_masked_text ascii_word raw [str "-a"; str "b"] [ConfInt 10; ConfInt 10] 65
  = Ok (str "[[UNK]][[UNK]] c", 2)
  /\ forallb ascii_word (str "b") = true
  /\ raw = source_prefix [(str "", str "-a"); (str "", str "b")] ++ str " c"
  /\ str "[[UNK]][[UNK]] c"
     = masked_prefix [(str "", str "-a"); (str "", str "b")] ++ str " c"
  /\ word_before ascii_word raw 2 = true
  /\ boundary ascii_word raw 2 = false.
Proof. cbn zeta. repeat split; vm_compute; reflexivity. Qed.

Lemma mask_boundary_witness :
  exists (occs : list occurrence) (rest : pystr),
    str "Hi, I am in Island" = source_prefix occs ++ rest
    /\ str "Hi[[UNK]] [[UNK]] am in Island" = masked_prefix occs ++ rest
    /\ placed ascii_word (str "Hi, I am in Island") 0 true occs
    /\ scanned ascii_word (str "Hi, I am in Island") 0 true
         (candidates 65 (zip [str "Hi"; str ","; str "I"; str "am"; str "Island"; str "?"]
                             [ConfInt 90; ConfInt 10; ConfInt 10; ConfInt 95; ConfInt 99;
                              ConfInt 10])) occs.
Proof.
  apply (mask_boundary ascii_word (str "Hi, I am in Island")
           [str "Hi"; str ","; str "I"; str "am"; str "Island"; str "?"]
           [ConfInt 90; ConfInt 10; ConfInt 10; ConfInt 95; ConfInt 99; ConfInt 10] 65
           (str "Hi[[UNK]] [[UNK]] am in Island") 2).
  vm_compute. reflexivity.
Defined.

(** C7, the claim as stated fails: [float] of an [int] beyond the
    range of a double raises [OverflowError], which the masker does not
    catch; a negative confidence of that size is not skipped either. *)
Lemma mask_overflow_raises :
  _build_masked_text ascii_word (str "x") [str "x"] [ConfInt (10 ^ 400)] 65
  = Raise OverflowError
  /\ negative (ConfInt (- 10 ^ 400))
  /\ mask_step ascii_word 65
       {| masked_text := str "x"; masked_count := 0; search_start := 0 |}
       (str "x") (ConfInt (- 10 ^ 400))
     = Raise OverflowError.
Proof. repeat split; vm_compute; reflexivity. Qed.

Lemma mask_graceful_skip_witness :
  let st := {| masked_text := str "Hello Sam world"; masked_count := 0; search_start := 0 |} in
  (exists masked count,
      _build_masked_text ascii_word (str "Hello Sam world")
        [str "Hello"; str "Sam"; str "world"]
        [ConfUnparsable; ConfInt 40; ConfInt (-5)] 65 = Ok (masked, count))
  /\ mask_step ascii_word 65 st (str "  ") (ConfInt 10) = Ok st
  /\ mask_step ascii_word 65 st (str "Hello") ConfUnparsable = Ok st
  /\ mask_step ascii_word 65 st (str "Hello") (ConfInt (-5)) = Ok st
  /\ mask_step ascii_word 65 st (str "Hell") (ConfInt 10) = Ok st.
Proof.
  cbn zeta. destruct (mask_graceful_skip ascii_word 65) as (Htotal & Hskip & Hmiss).
  split; [|split; [|split; [|split]]].
  - apply Htotal. repeat (constructor; [vm_compute; discriminate|]). constructor.
  - apply Hskip. left. reflexivity.
  - apply Hskip. right. left. reflexivity.
  - apply Hskip. right. right. split; [reflexivity | vm_compute; discriminate].
  - apply Hmiss; [vm_compute; discriminate | vm_compute; reflexivity].
Defined.

(** * Further properties

    ** The guardrail verifier, continued *)

(** A marker occurrence cannot begin in the last six characters before
    another one: the marker has no border. *)
Lemma marker_no_straddle (a b : pystr) :
  0 < length a < length UNK -> starts_with UNK (a ++ UNK ++ b) = false.
Proof.
  intros Hl.
  destruct a as [|c1 [|c2 [|c3 [|c4 [|c5 [|c6 [|c7 a]]]]]]]; cbn in Hl; try lia;
    cbn; by rewrite !andb_false_r.
Qed.

Lemma push_char_app c (p1 p2 : list pystr) :
  p1 <> [] -> push_char c (p1 ++ p2) = push_char c p1 ++ p2.
Proof. by destruct p1. Qed.

Lemma split_go_nonempty s skip : split_go skip s <> [].
Proof. destruct (split_go_shape s skip) as (f & r & -> & _). done. Qed.

(** Splitting a text around a marker occurrence: the marker is found
    where it stands, whatever surrounds it. *)
Lemma split_go_app_marker (tail : pystr) : forall (g : pystr) skip,
  skip <= length g ->
  split_go skip (g ++ UNK ++ tail) = split_go skip g ++ UNK :: split_go 0 tail.
Proof.
  induction g as [|c g IH]; intros skip Hskip.
  - destruct skip; [|cbn in Hskip; lia]. reflexivity.
  - destruct skip as [|k]; [|cbn in *; apply IH; lia].
    cbn [app split_go].
    change (c :: g ++ UNK ++ tail) with ((c :: g) ++ UNK ++ tail).
    destruct (decide (length UNK <= length (c :: g))) as [Hlong|Hshort].
    + rewrite starts_with_extend by done.
      destruct (starts_with UNK (c :: g)) eqn:Hs.
      * rewrite IH; [done|]. cbn in Hlong |- *. lia.
      * rewrite IH by lia. apply push_char_app, split_go_nonempty.
    + rewrite marker_no_straddle by (cbn in *; lia).
      assert (starts_with UNK (c :: g) = false) as ->.
      { apply not_true_is_false. intros Hl%starts_with_length. lia. }
      rewrite IH by lia. apply push_char_app, split_go_nonempty.
Qed.

Lemma split_app_marker (g tail : pystr) :
  split (g ++ UNK ++ tail) = split g ++ UNK :: split tail.
Proof. unfold split. apply split_go_app_marker. lia. Qed.

Lemma placeholders_app (p1 p2 : list pystr) :
  placeholders (p1 ++ p2) = placeholders p1 + placeholders p2.
Proof. unfold placeholders. by rewrite filter_app, length_app. Qed.

Lemma substitute_app (p2 : list pystr) (f2 : list pystr) : forall (p1 f1 : list pystr),
  length f1 = placeholders p1 ->
  substitute (p1 ++ p2) (f1 ++ f2) = substitute p1 f1 ++ substitute p2 f2.
Proof.
  induction p1 as [|part p1 IH]; intros f1 Hl.
  - destruct f1; [done | discriminate].
  - cbn [app substitute]. unfold placeholders in Hl.
    destruct (str_eqb part UNK) eqn:He.
    + apply str_eqb_true in He as ->. rewrite filter_cons_True in Hl by done.
      destruct f1 as [|f f1]; [discriminate|]. cbn in Hl.
      cbn [app]. rewrite IH by (unfold placeholders; lia). by rewrite app_assoc.
    + apply str_eqb_false in He. rewrite filter_cons_False in Hl by done.
      rewrite IH by done. by rewrite app_assoc.
Qed.

(** Segments that are not separated come from two markers in a row. *)
Lemma not_separated_adjacent (rest : list pystr) :
  alternating rest -> separated rest = false ->
  exists (a b : pystr), concat rest = a ++ UNK ++ UNK ++ b.
Proof.
  induction 1 as [|literal rest Hne Halt IH]; [done|].
  cbn [separated]. rewrite str_eqb_refl.
  apply str_eqb_false in Hne as Hneb. rewrite Hneb. cbn [andb].
  destruct literal as [|c literal].
  - destruct Halt as [|lit2 rest2 Hne2 Halt2].
    + done.
    + intros _. exists [], (lit2 ++ concat rest2). cbn [concat app]. done.
  - intros Hs. destruct (IH Hs) as (a & b & Heq).
    exists (UNK ++ (c :: literal) ++ a), b. cbn [concat]. rewrite Heq.
    by rewrite <- !app_assoc.
Qed.

Lemma no_adjacent_separated (masked : pystr) :
  find masked (UNK ++ UNK) 0 = None -> separated (split masked) = true.
Proof.
  intros Hf. apply not_false_iff_true. intros Hsep.
  unfold split in Hsep.
  destruct (split_go_shape masked 0) as (first & rest & Heq & Hne & Halt).
  pose proof (split_go_concat masked 0) as Hc.
  rewrite Heq in Hsep, Hc. cbn [separated] in Hsep.
  apply str_eqb_false in Hne as Hneb. rewrite Hneb in Hsep. cbn [andb] in Hsep.
  destruct (not_separated_adjacent rest Halt Hsep) as (a & b & Hab).
  assert (Hm : masked = first ++ a ++ UNK ++ UNK ++ b).
  { rewrite <- Hab. symmetry. exact Hc. }
  destruct (find_occurrence masked (UNK ++ UNK) 0 (length (first ++ a))) as (p & Hp & _).
  - rewrite Hm, !length_app. lia.
  - rewrite Hm at 1. rewrite (app_assoc first a), drop_app_length.
    rewrite (app_assoc UNK UNK b). apply starts_with_app.
  - congruence.
Qed.

(** X1. A candidate made of the segments of the masked text, with any
    filler (even empty) in place of each placeholder and any text after
    the last segment, is accepted whenever the masked text has no two
    markers in a row. *)
Theorem guardrail_fill_in_accepted (masked : pystr) (fillers : list pystr) (suffix : pystr) :
  find masked (UNK ++ UNK) 0 = None ->
  _guardrail_ok masked (substitute (split masked) fillers ++ suffix) = true.
Proof.
  intros Hf. apply guardrail_containment_separated. by apply no_adjacent_separated.
Qed.

(** A text without marker is a single literal segment. *)
Lemma split_go_no_marker (s : pystr) :
  (forall j, j <= length s -> starts_with UNK (drop j s) = false) ->
  split_go 0 s = [s].
Proof.
  induction s as [|c s IH]; intros Hno; [done|].
  cbn [split_go]. pose proof (Hno 0 ltac:(lia)) as H0. cbn [drop] in H0. rewrite H0.
  rewrite IH; [done|]. intros j Hj. apply (Hno (S j)). cbn. lia.
Qed.

(** X2. For a masked text without marker, the verifier is a prefix
    test: a candidate is accepted exactly when it starts with the
    masked text. *)
Theorem guardrail_no_placeholder (masked restored : pystr) :
  find masked UNK 0 = None ->
  _guardrail_ok masked restored = starts_with masked restored.
Proof.
  intros Hf. unfold _guardrail_ok.
  destruct (str_eqb masked restored) eqn:He.
  - apply str_eqb_true in He as <-. symmetry.
    rewrite <- (app_nil_r masked) at 2. apply starts_with_app.
  - unfold split. rewrite split_go_no_marker.
    2:{ unfold find in Hf. cbn [length Nat.ltb Nat.leb drop] in Hf.
        intros j Hj. by eapply find_in_None. }
    cbn [walk].
    assert (str_eqb masked UNK = false) as ->.
    { apply str_eqb_false. intros ->. vm_compute in Hf. discriminate. }
    destruct masked as [|c masked]; [done|].
    destruct (starts_with (c :: masked) restored) eqn:Hs.
    + change restored with (drop 0 restored) in Hs.
      apply (slice_eq_starts (c :: masked) restored 0) in Hs; [|done].
      by rewrite Hs, str_eqb_refl.
    + destruct (str_eqb (slice restored 0 (0 + length (c :: masked))) (c :: masked))
        eqn:Hsl; [|reflexivity].
      apply str_eqb_true, slice_eq_starts in Hsl; [|done].
      change (drop 0 restored) with restored in Hsl. congruence.
Qed.

(** Past two markers in a row that come before a literal segment, the
    walk fails. *)
Lemma walk_adjacent_rejects (literal : pystr) (rest : list pystr) (restored : pystr) :
  literal <> [] -> literal <> UNK ->
  forall (pre : list pystr) position,
    walk (pre ++ UNK :: [] :: UNK :: literal :: rest) restored position = false.
Proof.
  intros Hne Hunk. apply str_eqb_false in Hunk as Hub.
  assert (Hbase : forall position,
             walk (UNK :: [] :: UNK :: literal :: rest) restored position = false).
  { intros position.
    change (walk (UNK :: [] :: UNK :: literal :: rest) restored position)
      with (walk (UNK :: literal :: rest) restored (length restored)).
    cbn [walk next_literal]. rewrite str_eqb_refl, Hub. cbn [negb].
    destruct literal as [|c literal]; [done|].
    destruct (find restored (c :: literal) (length restored)) as [p|] eqn:Hf; [|done].
    apply find_Some in Hf as (Hp & Hat & _).
    assert (p = length restored) as -> by lia.
    rewrite drop_all in Hat. discriminate. }
  induction pre as [|part pre IH]; intros position; [apply Hbase|].
  cbn [app walk].
  destruct (str_eqb part UNK).
  - destruct (next_literal _); [apply IH|].
    destruct (find _ _ _); [apply IH | done].
  - destruct part; [apply IH|].
    destruct (negb _); [done | apply IH].
Qed.

(** X3. When the masked text has two markers in a row followed by
    literal text, every candidate other than the masked text itself is
    rejected. *)
Theorem guardrail_adjacent_rejects_all (a b masked restored : pystr) :
  masked = a ++ UNK ++ UNK ++ b ->
  b <> [] -> starts_with UNK b = false ->
  restored <> masked ->
  _guardrail_ok masked restored = false.
Proof.
  intros -> Hb Hs Hne. unfold _guardrail_ok.
  assert (str_eqb (a ++ UNK ++ UNK ++ b) restored = false) as ->.
  { apply str_eqb_false. congruence. }
  rewrite split_app_marker.
  change (UNK ++ b) with ([] ++ UNK ++ b). rewrite split_app_marker.
  change (split []) with [[] : pystr]. cbn [app].
  unfold split.
  destruct (split_go_shape b 0) as (literal & rest & Heq & Hunk & _).
  rewrite Heq. apply walk_adjacent_rejects; [|done].
  destruct b as [|c b]; [done|]. cbn [split_go] in Heq. rewrite Hs in Heq.
  destruct (split_go 0 b) as [|l r]; cbn in Heq; injection Heq as <- _; done.
Qed.

Lemma guardrail_fill_in_accepted_witness :
  _guardrail_ok (str "Hello [[UNK]] world")
    (substitute (split (str "Hello [[UNK]] world")) [str "dear friend"] ++ str "!") = true.
Proof.
  apply (guardrail_fill_in_accepted (str "Hello [[UNK]] world") [str "dear friend"] (str "!")).
  vm_compute. reflexivity.
Defined.

Lemma guardrail_no_placeholder_witness :
  _guardrail_ok (str "Hello") (str "Help") = starts_with (str "Hello") (str "Help").
Proof.
  apply (guardrail_no_placeholder (str "Hello") (str "Help")).
  vm_compute. reflexivity.
Defined.

Lemma guardrail_adjacent_rejects_all_witness :
  _guardrail_ok (str "a [[UNK]][[UNK]] b") (str "a big cat b") = false.
Proof.
  apply (guardrail_adjacent_rejects_all (str "a ") (str " b")).
  - reflexivity.
  - discriminate.
  - reflexivity.
  - discriminate.
Defined.

(** ** The restoration orchestrator, continued *)

Section RestoreMore.

Context {client exn : Type}.
Variable client_restore : client -> pystr -> Q -> client * result exn pystr.

(** X4. The result of [restore] is consistent with the verifier: the
    returned text is the text the client returned to the last call,
    [guardrail_violated] tells exactly that this text fails
    verification, and [guardrail_triggered] tells exactly that a second
    attempt was made. *)
Theorem restore_flags_sound masked cl logger r :
  (restore client_restore masked cl logger).2 = Ok r ->
  guardrail_violated r = negb (_guardrail_ok masked (restored_text r))
  /\ (guardrail_triggered r = true <-> attempts r = 2)
  /\ exists cl0 temperature,
       client_restore cl0 masked temperature
       = ((restore client_restore masked cl logger).1.1, Ok (restored_text r)).
Proof.
  rewrite restore_cases.
  destruct (client_restore cl masked 0.2%Q) as [cl1 [c1|e1]] eqn:H1; [|discriminate].
  destruct (_guardrail_ok masked c1) eqn:Hok1.
  { intros [= <-]. cbn. rewrite Hok1. repeat split; try discriminate. eauto. }
  cbn zeta.
  destruct (client_restore cl1 masked 0.0%Q) as [cl2 [c2|e2]] eqn:H2; [|discriminate].
  destruct (_guardrail_ok masked c2) eqn:Hok2; intros [= <-]; cbn; rewrite Hok2;
    repeat split; eauto.
Qed.

(** X5. The logger only receives warnings: with or without one,
    [restore] makes the same calls, leaves the client in the same state
    and returns the same result. *)
Theorem restore_logger_independent masked cl :
  (restore client_restore masked cl true).2 = (restore client_restore masked cl false).2
  /\ (restore client_restore masked cl true).1.1
     = (restore client_restore masked cl false).1.1
  /\ calls (restore client_restore masked cl true).1.2
     = calls (restore client_restore masked cl false).1.2
  /\ (restore client_restore masked cl false).1.2
     = calls (restore client_restore masked cl false).1.2.
Proof.
  rewrite !restore_cases.
  destruct (client_restore cl masked 0.2%Q) as [cl1 [c1|e1]]; [|done].
  destruct (_guardrail_ok masked c1); [done|]. cbn zeta.
  destruct (client_restore cl1 masked 0.0%Q) as [cl2 [c2|e2]]; [|done].
  destruct (_guardrail_ok masked c2); done.
Qed.

End RestoreMore.

Lemma restore_flags_sound_witness :
  let r := mkCleanupResult (str "Greetings pal world") 2 true true in
  guardrail_violated r = negb (_guardrail_ok (str "Hello [[UNK]] world") (restored_text r))
  /\ (guardrail_triggered r = true <-> attempts r = 2)
  /\ exists cl0 temperature,
       dummy_restore cl0 (str "Hello [[UNK]] world") temperature
       = (mkDummyClient [str "Hi friend world"; str "Greetings pal world"] 2,
          Ok (restored_text r)).
Proof.
  apply (restore_flags_sound dummy_restore (str "Hello [[UNK]] world")
           (mkDummyClient [str "Hi friend world"; str "Greetings pal world"] 0) false).
  vm_compute. reflexivity.
Defined.

(** ** The token masker, continued *)

Lemma candidates_length threshold (pairs : list (pystr * confidence)) :
  length (candidates threshold pairs) <= length pairs.
Proof.
  induction pairs as [|[token conf] pairs IH]; [done|].
  rewrite candidates_cons. cbn [length].
  destruct (low_confidence threshold conf); [destruct (strip token)|]; cbn [length]; lia.
Qed.

(** A confidence is never both below a threshold that is not positive
    and at least zero. *)
Lemma low_confidence_nonpositive threshold conf :
  (threshold <= 0)%Z -> low_confidence threshold conf = false.
Proof.
  intros Hth. unfold low_confidence. destruct (py_float conf) as [[q| | |]|e]; try done.
  cbn. destruct (Qle_bool 0 q) eqn:Hq; [|by rewrite andb_false_r].
  rewrite andb_true_r. apply negb_false_iff, Qle_bool_iff.
  apply Qle_bool_iff in Hq. apply Qle_trans with 0%Q; [|done].
  unfold Qle. cbn. lia.
Qed.

(** The original transcript is a filling of its masked transcript. *)
Lemma mask_fill_in (rest : pystr) : forall occs : list occurrence,
  exists fillers : list pystr,
    length fillers = placeholders (split (masked_prefix occs ++ rest))
    /\ source_prefix occs ++ rest
       = substitute (split (masked_prefix occs ++ rest)) fillers.
Proof.
  induction occs as [|[gap token] occs (fillers & Hlen & IH)].
  - exists (replicate (placeholders (split rest)) UNK). cbn [app].
    change (masked_prefix []) with ([] : pystr). change (source_prefix []) with ([] : pystr).
    cbn [app]. by rewrite length_replicate, substitute_markers, split_concat.
  - unfold masked_prefix, source_prefix in *. cbn [map concat fst snd].
    rewrite <- !app_assoc, split_app_marker.
    exists (replicate (placeholders (split gap)) UNK ++ token :: fillers). split.
    + rewrite length_app, length_replicate, placeholders_app. cbn [length].
      unfold placeholders at 3. rewrite filter_cons_True by done. cbn [length].
      unfold placeholders in Hlen. lia.
    + rewrite substitute_app by apply length_replicate.
      rewrite substitute_markers, split_concat by done.
      cbn [substitute]. rewrite str_eqb_refl. by rewrite <- IH.
Qed.

Section MaskerMore.

Variable is_word : char -> bool.

(** X6. The count never exceeds the number of pairs: it is at most the
    number of trimmed low-confidence tokens, hence at most the number of
    tokens and of confidences; and a count of zero means that the
    transcript is returned as it was. *)
Theorem mask_count_bound raw tokens confs threshold masked count :
  _build_masked_text is_word raw tokens confs threshold = Ok (masked, count) ->
  count <= length (candidates threshold (zip tokens confs))
  /\ count <= length tokens /\ count <= length confs
  /\ (count = 0 -> masked = raw).
Proof.
  intros (occs & rest & Hinv & Hsub)%build_masked_text_inv.
  destruct Hinv as (Hraw & Hmasked & Hcount & _). cbn in Hmasked, Hcount.
  apply sublist_length in Hsub. rewrite length_map in Hsub.
  pose proof (candidates_length threshold (zip tokens confs)) as Hc.
  rewrite length_zip in Hc. subst count.
  pose proof (Nat.le_trans _ _ _ Hsub Hc) as Hmin.
  repeat split; [exact Hsub | | |].
  - apply (Nat.le_trans _ _ _ Hmin). lia.
  - apply (Nat.le_trans _ _ _ Hmin). lia.
  - intros Hzero. destruct occs; [|discriminate]. by rewrite Hraw, Hmasked.
Qed.

(** X7. When no confidence is both below the threshold and at least
    zero, in particular when the threshold is zero or negative, the
    masker returns the transcript untouched with a count of zero
    (provided no [float(confidence)] overflows). *)
Theorem mask_nothing_below_threshold raw tokens confs threshold :
  Forall (fun c => py_float c <> Raise OverflowError) confs ->
  (threshold <= 0)%Z \/ Forall (fun c => low_confidence threshold c = false) confs ->
  _build_masked_text is_word raw tokens confs threshold = Ok (raw, 0).
Proof.
  intros Hno Hhigh.
  assert (Hall : Forall (fun p : pystr * confidence =>
                           py_float p.2 <> Raise OverflowError
                           /\ low_confidence threshold p.2 = false)
                   (zip tokens confs)).
  { apply Forall_forall. intros [token conf] Hin%elem_of_zip_r. cbn. split.
    - by apply (proj1 (Forall_forall _ _) Hno).
    - destruct Hhigh as [Hth|Hall]; [by apply low_confidence_nonpositive|].
      by apply (proj1 (Forall_forall _ _) Hall). }
  unfold _build_masked_text.
  assert (Hloop : forall st, mask_loop is_word threshold st (zip tokens confs) = Ok st).
  { induction Hall as [|[token conf] pairs [Hnoo Hlow] _ IH]; intros st; [done|].
    cbn [mask_loop]. cbn in Hnoo, Hlow.
    assert (mask_step is_word threshold st token conf = Ok st) as ->; [|apply IH].
    unfold mask_step, low_confidence in *.
    destruct (strip token); [done|].
    destruct (py_float conf) as [v|e] eqn:Hf.
    - by rewrite Hlow.
    - apply py_float_raises in Hf as Hcases. by destruct Hcases as [->| ->]. }
  by rewrite Hloop.
Qed.

(** X8. Masking and verification fit together: when the masked
    transcript has no two markers in a row, the original transcript,
    followed by any text, passes the verifier as a restoration of it. *)
Theorem mask_then_verify raw tokens confs threshold masked count (suffix : pystr) :
  _build_masked_text is_word raw tokens confs threshold = Ok (masked, count) ->
  find masked (UNK ++ UNK) 0 = None ->
  _guardrail_ok masked (raw ++ suffix) = true.
Proof.
  intros (occs & rest & Hinv & _)%build_masked_text_inv Hadj.
  destruct Hinv as (Hraw & Hmasked & _). cbn in Hmasked.
  destruct (mask_fill_in rest occs) as (fillers & _ & Hfill).
  rewrite Hraw, Hfill, <- Hmasked.
  apply guardrail_containment_separated. by apply no_adjacent_separated.
Qed.

End MaskerMore.

Lemma mask_count_bound_witness :
  1 <= length (candidates 65 (zip [str "Hello"; str "Sam"; str "world"]
                                  [ConfInt 90; ConfInt 40; ConfInt 95]))
  /\ 1 <= length [str "Hello"; str "Sam"; str "world"]
  /\ 1 <= length [ConfInt 90; ConfInt 40; ConfInt 95]
  /\ (1 = 0 -> str "Hello [[UNK]] world" = str "Hello Sam world").
Proof.
  apply (mask_count_bound ascii_word (str "Hello Sam world")
           [str "Hello"; str "Sam"; str "world"] [ConfInt 90; ConfInt 40; ConfInt 95] 65
           (str "Hello [[UNK]] world") 1).
  vm_compute. reflexivity.
Defined.

Lemma mask_nothing_below_threshold_witness :
  _build_masked_text ascii_word (str "Hello Sam world")
    [str "Hello"; str "Sam"] [ConfInt 10; ConfUnparsable] 0
  = Ok (str "Hello Sam world", 0).
Proof.
  apply mask_nothing_below_threshold.
  - repeat (constructor; [vm_compute; discriminate|]). constructor.
  - left. lia.
Defined.

Lemma mask_then_verify_witness :
  _guardrail_ok (str "Hello [[UNK]] world") (str "Hello Sam world" ++ str "") = true.
Proof.
  apply (mask_then_verify ascii_word (str "Hello Sam world")
           [str "Hello"; str "Sam"; str "world"] [ConfInt 90; ConfInt 40; ConfInt 95] 65
           (str "Hello [[UNK]] world") 1 (str "")).
  - vm_compute. reflexivity.
  - vm_compute. reflexivity.
Defined.

(** ** Token extraction and the OCR step *)

Section ExtractionProperties.

Variable to_percent : pyfloat -> result pyexn Z.
Variable mean : list pyfloat -> pyfloat.

(** A word whose text is not blank has a symbol. *)
Lemma nonblank_word_has_symbols (word : Word) :
  strip (word_text word) <> [] -> word_symbols word <> [].
Proof.
  intros Hne Hs. apply Hne. unfold word_text. by rewrite Hs.
Qed.

Lemma extract_words_spec : forall (words : list Word) tokens confidences tokens' confidences',
  extract_words to_percent mean words tokens confidences = Ok (tokens', confidences') ->
  exists kept : list (Word * Z),
    tokens' = tokens ++ map (fun p => word_text p.1) kept
    /\ confidences' = confidences ++ map snd kept
    /\ map fst kept = filter (fun w => strip (word_text w) <> []) words
    /\ Forall (fun p : Word * Z => word_percent to_percent mean p.1 = Ok p.2) kept.
Proof.
  induction words as [|word words IH]; intros tokens confidences tokens' confidences'.
  - intros [= <- <-]. exists []. by rewrite !app_nil_r.
  - cbn [extract_words]. unfold extract_word.
    destruct (strip (word_text word)) as [|c t] eqn:Hs.
    + intros (kept & -> & -> & Hk & Hp)%IH. exists kept. repeat split; [|done].
      by rewrite filter_cons_False by (by rewrite Hs; intros []).
    + destruct (word_percent to_percent mean word) as [z|e] eqn:Hz; [|done].
      intros (kept & -> & -> & Hk & Hp)%IH. exists ((word, z) :: kept).
      rewrite <- !app_assoc. repeat split.
      * rewrite filter_cons_True by (by rewrite Hs). cbn. by rewrite Hk.
      * by constructor.
Qed.

(** X9. What token extraction returns: tokens and confidences have the
    same length; the tokens are the texts of the words that are not
    blank, in reading order, so no token is empty after trimming; each
    confidence is the percentage computed for its word, which has a
    symbol, so the default of 100 is never used. *)
Theorem extract_tokens_well_formed response tokens confidences :
  _extract_tokens_from_vision to_percent mean response = Ok (tokens, confidences) ->
  let words := match full_text_annotation response with
               | Some annotation => words_of annotation
               | None => []
               end in
  let kept := filter (fun w => strip (word_text w) <> []) words in
  length tokens = length confidences
  /\ tokens = map word_text kept
  /\ Forall (fun t => strip t <> []) tokens
  /\ Forall2 (fun w c => word_symbols w <> []
                         /\ word_percent to_percent mean w = Ok c) kept confidences.
Proof.
  unfold _extract_tokens_from_vision. cbn zeta.
  destruct (full_text_annotation response) as [annotation|].
  2:{ intros [= <- <-]. repeat split; constructor. }
  intros (kept & -> & -> & Hk & Hp)%extract_words_spec. cbn [app].
  rewrite <- Hk, !length_map, <- map_map. repeat split.
  - apply Forall_forall. intros t (w & -> & Hin)%list_elem_of_fmap.
    assert (w ∈ filter (fun w => strip (word_text w) <> []) (words_of annotation)) as Hw.
    { rewrite <- Hk. done. }
    by apply list_elem_of_filter in Hw as [? _].
  - apply Forall2_fmap, Forall2_same_length_lookup. split; [done|].
    intros i [w z] [w' z'] H1 H2. rewrite H1 in H2. injection H2 as <- <-. cbn.
    pose proof (proj1 (Forall_lookup _ _) Hp i _ H1) as Hz. split; [|done].
    apply nonblank_word_has_symbols.
    assert (w ∈ filter (fun w => strip (word_text w) <> []) (words_of annotation)) as Hw.
    { rewrite <- Hk. apply list_elem_of_fmap. exists (w, z). split; [done|].
      by eapply list_elem_of_lookup_2. }
    by apply list_elem_of_filter in Hw as [? _].
Qed.

Variable is_word : char -> bool.

(** X10. The OCR step: an exception of the Vision client is passed on;
    a result never reports more masked tokens than tokens; its
    artifacts hold the raw and the masked transcript under ["raw"] and
    ["masked"]; with no masked token the two transcripts are equal; and
    when the masked transcript has no two markers in a row, the raw
    transcript passes the verifier as a restoration of it. *)
Theorem ocr_result_consistent document_text threshold :
  (forall e, document_text = Raise e ->
             ocr_google_vision to_percent mean is_word document_text threshold = Raise e)
  /\ (forall r,
        ocr_google_vision to_percent mean is_word document_text threshold = Ok r ->
        masked_tokens (stats r) <= total_tokens (stats r)
        /\ dict_get (artifacts r) "raw" = Some (raw_text r)
        /\ dict_get (artifacts r) "masked" = Some (ocr_masked_text r)
        /\ (masked_tokens (stats r) = 0 -> ocr_masked_text r = raw_text r)
        /\ (find (ocr_masked_text r) (UNK ++ UNK) 0 = None ->
            _guardrail_ok (ocr_masked_text r) (raw_text r) = true)).
Proof.
  split; [by intros e ->|].
  intros r. unfold ocr_google_vision.
  destruct document_text as [response|e]; [|done].
  set (raw := match full_text_annotation response with
              | Some _ => _ | None => _ end).
  destruct (_extract_tokens_from_vision to_percent mean response)
    as [[tokens confidences]|e]; [|done].
  destruct (_build_masked_text is_word raw tokens (map ConfInt confidences) threshold)
    as [[masked count]|e] eqn:Hmask; [|done].
  intros [= <-]. cbn [stats artifacts raw_text ocr_masked_text masked_tokens total_tokens].
  apply build_masked_text_inv in Hmask as (occs & rest & Hinv & Hsub).
  destruct Hinv as (Hraw & Hmasked & Hcount & _). cbn in Hmasked, Hcount.
  repeat split.
  - apply sublist_length in Hsub. rewrite length_map in Hsub. subst count.
    apply (Nat.le_trans _ _ _ Hsub).
    apply (Nat.le_trans _ _ _ (candidates_length _ _)).
    rewrite length_zip. lia.
  - intros Hzero. subst count. destruct occs; [|discriminate]. by rewrite Hraw, Hmasked.
  - intros Hadj. destruct (mask_fill_in rest occs) as (fillers & _ & Hfill).
    rewrite <- (app_nil_r raw), Hraw, Hfill, <- Hmasked.
    apply guardrail_containment_separated. by apply no_adjacent_separated.
Qed.

End ExtractionProperties.

(** ** The completion client *)

Lemma lstrip_by_head p s c : head (lstrip_by p s) = Some c -> p c = false.
Proof.
  induction s as [|d s IH]; [done|]. cbn.
  destruct (p d) eqn:Hd; [done|]. cbn. congruence.
Qed.

Lemma lstrip_by_last p s c : last (lstrip_by p s) = Some c -> last s = Some c.
Proof.
  induction s as [|d s IH]; [done|]. cbn [lstrip_by].
  destruct (p d); [|done]. intros Hl. specialize (IH Hl).
  destruct s; [done|]. done.
Qed.

Lemma last_rev (s : pystr) : last (rev s) = head s.
Proof. destruct s as [|c s]; [done|]. cbn [rev]. by rewrite last_snoc. Qed.

Lemma head_rev (s : pystr) : head (rev s) = last s.
Proof. rewrite <- (rev_involutive s) at 2. by rewrite last_rev. Qed.

(** [strip] leaves none of the stripped characters at either end. *)
Lemma strip_by_ends p s :
  (forall c, head (strip_by p s) = Some c -> p c = false)
  /\ (forall c, last (strip_by p s) = Some c -> p c = false).
Proof.
  unfold strip_by. split; intros c.
  - rewrite head_rev. intros Hl%lstrip_by_last.
    rewrite last_rev in Hl. by apply lstrip_by_head in Hl.
  - rewrite last_rev. apply lstrip_by_head.
Qed.

Section XAIClientProperties.

Variable server : nat -> pystr -> Q -> post_outcome.
Variable uniform : nat -> Q.
Variable raises_for_status : Z -> bool.

Lemma posts_app log1 log2 : posts (log1 ++ log2) = posts log1 + posts log2.
Proof. unfold posts. by rewrite filter_app, length_app. Qed.

(** One iteration makes one request, then sleeps at most once. *)
Lemma attempt_once_effects text temperature attempt max_attempts last_error st st' it :
  attempt_once server uniform raises_for_status text temperature attempt max_attempts
    last_error st = (st', it) ->
  answered st' = S (answered st)
  /\ drawn st <= drawn st' <= S (drawn st)
  /\ exists sleeps,
       http_log st' = http_log st ++ Post text temperature :: sleeps
       /\ posts sleeps = 0 /\ length sleeps <= 1.
Proof.
  unfold attempt_once, _handle_retry, on_exception, log_event.
  intros Heq.
  repeat match type of Heq with
         | context [match ?x with _ => _ end] => destruct x
         end;
    injection Heq as <- <-; cbn [answered drawn http_log];
    (split; [done|]; split; [lia|]);
    first [ exists []; repeat split; cbn; lia
          | eexists [_]; rewrite <- app_assoc; repeat split; cbn; lia ].
Qed.

(** An iteration that gets a good answer returns its content,
    trimmed; any other iteration before the last one goes on. *)
Lemma attempt_once_good text temperature attempt max_attempts last_error st content :
  good raises_for_status (server (answered st) text temperature) = Some content ->
  (attempt_once server uniform raises_for_status text temperature attempt max_attempts
     last_error st).2 = Return (strip_newlines content).
Proof.
  unfold good, attempt_once.
  destruct (server _ _ _) as [tag|response]; [done|].
  destruct (retryable _); [done|]. destruct (raises_for_status _); [done|].
  destruct (body response); try done. by intros [= ->].
Qed.

Lemma attempt_once_continue text temperature attempt max_attempts last_error st :
  good raises_for_status (server (answered st) text temperature) = None ->
  attempt < max_attempts ->
  exists last_error',
    (attempt_once server uniform raises_for_status text temperature attempt max_attempts
       last_error st).2 = Continue last_error'.
Proof.
  intros Hgood Hlt. apply Nat.leb_gt in Hlt.
  unfold good in Hgood. unfold attempt_once, _handle_retry, on_exception.
  rewrite Hlt. cbn [andb].
  destruct (server _ _ _) as [tag|response]; [by eexists|].
  destruct (retryable _); [by eexists|].
  destruct (raises_for_status _); [by eexists|].
  destruct (body response); try done; by eexists.
Qed.

Lemma attempt_once_returns text temperature attempt max_attempts last_error st st' content :
  attempt_once server uniform raises_for_status text temperature attempt max_attempts
    last_error st = (st', Return content) ->
  exists answer,
    good raises_for_status (server (answered st) text temperature) = Some answer
    /\ content = strip_newlines answer.
Proof.
  unfold good, attempt_once, _handle_retry, on_exception.
  destruct (server _ _ _) as [tag|response].
  - destruct (_ <=? _); intros [= ]; done.
  - destruct (retryable _).
    + cbn [orb]. destruct (_ && _); [destruct (_ <=? _)|]; intros [= ]; done.
    + destruct (raises_for_status _).
      * destruct (_ <=? _); intros [= ]; done.
      * cbn [orb]. destruct (body response);
          try (destruct (_ <=? _); intros [= ]; done).
        intros [= <- <-]. by eexists.
Qed.

(** The loop: at most [remaining] requests, all with the same text and
    temperature; a returned text is the trimmed content of the last
    answer. *)
Lemma xai_loop_effects text temperature max_attempts :
  forall remaining attempt last_error st st' out,
    xai_loop server uniform raises_for_status remaining text temperature attempt
      max_attempts last_error st = (st', out) ->
    answered st <= answered st' <= answered st + remaining
    /\ drawn st <= drawn st' <= drawn st + (answered st' - answered st)
    /\ (exists events,
          http_log st' = http_log st ++ events
          /\ posts events = answered st' - answered st
          /\ length events <= 2 * (answered st' - answered st)
          /\ Forall (fun ev => is_post ev = true -> ev = Post text temperature) events)
    /\ (forall content, out = Ok content ->
          exists answer,
            good raises_for_status (server (Nat.pred (answered st')) text temperature) = Some answer
            /\ content = strip_newlines answer).
Proof.
  induction remaining as [|remaining IH]; intros attempt last_error st st' out;
    cbn [xai_loop].
  - intros [= <- <-]. repeat split; try lia; [|done].
    exists []. rewrite app_nil_r, Nat.sub_diag. repeat split; [cbn; lia | constructor].
  - destruct (attempt_once _ _ _ _ _ _ _ _ _) as [st1 it] eqn:Hit.
    pose proof (attempt_once_effects _ _ _ _ _ _ _ _ Hit)
      as (Hans & Hdrawn & sleeps & Hlog & Hposts & Hlen).
    assert (Hone : exists events,
               http_log st1 = http_log st ++ events
               /\ posts events = 1 /\ length events <= 2
               /\ Forall (fun ev => is_post ev = true -> ev = Post text temperature) events).
    { exists (Post text temperature :: sleeps). repeat split; [done | | cbn; lia |].
      - change (Post text temperature :: sleeps) with ([Post text temperature] ++ sleeps).
        by rewrite posts_app, Hposts.
      - constructor; [done|]. apply Forall_forall. intros ev Hin Hp.
        unfold posts in Hposts. apply length_zero_iff_nil in Hposts.
        assert (ev ∈ filter (fun ev => is_post ev = true) sleeps) as Hf
            by (by apply list_elem_of_filter).
        rewrite Hposts in Hf. by apply not_elem_of_nil in Hf. }
    destruct it as [content|e|last_error'].
    + intros [= <- <-]. rewrite Hans.
      replace (S (answered st) - answered st) with 1 by lia.
      repeat split; try lia; [done|].
      intros c [= <-]. cbn [Nat.pred]. by eapply attempt_once_returns.
    + intros [= <- <-]. rewrite Hans.
      replace (S (answered st) - answered st) with 1 by lia.
      repeat split; try lia; done.
    + intros (Ha & Hd & (events & Hev & Hp & Hl & Hall) & Hok)%IH.
      destruct Hone as (ev1 & Hlog1 & Hp1 & Hl1 & Hall1).
      repeat split; try lia; [|done].
      exists (ev1 ++ events). rewrite Hev, Hlog1, <- app_assoc, posts_app, length_app.
      repeat split; [lia | lia | by apply Forall_app].
Qed.

Lemma xai_restore_effects max_attempts st text temperature st' out :
  xai_restore server uniform raises_for_status max_attempts st text temperature = (st', out) ->
  answered st <= answered st' <= answered st + max_attempts
  /\ drawn st <= drawn st' <= drawn st + (answered st' - answered st)
  /\ (exists events,
        http_log st' = http_log st ++ events
        /\ posts events = answered st' - answered st
        /\ length events <= 2 * (answered st' - answered st)
        /\ Forall (fun ev => is_post ev = true -> ev = Post text temperature) events)
  /\ (forall content, out = Ok content -> last content <> Some newline).
Proof.
  unfold xai_restore. intros (Ha & Hd & Hev & Hok)%xai_loop_effects.
  repeat split; try lia; [done|].
  intros content Hout Hn. destruct (Hok content Hout) as (answer & _ & ->).
  apply (proj2 (strip_by_ends (N.eqb newline) answer)) in Hn.
  by rewrite N.eqb_refl in Hn.
Qed.

(** X11. The client asks the server at most [max_attempts] times for
    one call, each time with the same text and temperature, sleeps at
    most once per request and draws at most one random number per
    request; with [max_attempts = 0] it raises at once, without any
    request. *)
Theorem xai_restore_bounded max_attempts st text temperature :
  let st' := (xai_restore server uniform raises_for_status max_attempts st text temperature).1 in
  answered st <= answered st' <= answered st + max_attempts
  /\ drawn st' <= drawn st + (answered st' - answered st)
  /\ (exists events,
        http_log st' = http_log st ++ events
        /\ posts events = answered st' - answered st
        /\ length events <= 2 * (answered st' - answered st)
        /\ Forall (fun ev => is_post ev = true -> ev = Post text temperature) events)
  /\ (max_attempts = 0 ->
      xai_restore server uniform raises_for_status max_attempts st text temperature
      = (st, Raise (CleanupFailed None))).
Proof.
  cbn zeta. unfold xai_restore.
  destruct (xai_loop _ _ _ _ _ _ _ _ _ _) as [st' out] eqn:Hloop.
  apply xai_loop_effects in Hloop as Heff.
  destruct Heff as (Ha & Hd & Hev & _). cbn [fst].
  repeat split; try lia; [done|].
  intros ->. cbn in Hloop. by rewrite <- Hloop.
Qed.

Lemma xai_loop_first_good text temperature max_attempts content :
  forall k remaining attempt last_error st,
    k < remaining -> attempt + remaining = max_attempts ->
    (forall i, i < k -> good raises_for_status (server (answered st + i) text temperature) = None) ->
    good raises_for_status (server (answered st + k) text temperature) = Some content ->
    exists st',
      xai_loop server uniform raises_for_status remaining text temperature attempt
        max_attempts last_error st = (st', Ok (strip_newlines content))
      /\ answered st' = answered st + k + 1.
Proof.
  induction k as [|k IH]; intros remaining attempt last_error st Hk Hmax Hbad Hgood;
    (destruct remaining as [|remaining]; [lia|]); cbn [xai_loop].
  - rewrite Nat.add_0_r in Hgood.
    pose proof (attempt_once_good text temperature (attempt + 1) max_attempts
                  last_error st content Hgood) as Hret.
    destruct (attempt_once _ _ _ _ _ _ _ _ _) as [st1 it] eqn:Hit. cbn in Hret. subst it.
    apply attempt_once_effects in Hit as (Hans & _). exists st1. split; [done | lia].
  - pose proof (Hbad 0 ltac:(lia)) as Hbad0. rewrite Nat.add_0_r in Hbad0.
    destruct (attempt_once_continue text temperature (attempt + 1) max_attempts
                last_error st Hbad0 ltac:(lia)) as (last' & Hcont).
    destruct (attempt_once _ _ _ _ _ _ _ _ _) as [st1 it] eqn:Hit. cbn in Hcont. subst it.
    apply attempt_once_effects in Hit as (Hans & _).
    destruct (IH remaining (attempt + 1) last' st1) as (st' & Hloop & Ha).
    + lia.
    + lia.
    + intros i Hi. rewrite Hans. replace (S (answered st) + i) with (answered st + S i) by lia.
      apply Hbad. lia.
    + rewrite Hans. by replace (S (answered st) + k) with (answered st + S k) by lia.
    + exists st'. split; [done | lia].
Qed.

(** X12. Every kind of failure is retried: when the first [k] answers
    are not good and answer [k + 1] is, with [k < max_attempts], the
    client returns the content of that answer with the newlines at its
    ends removed, after exactly [k + 1] requests. *)
Theorem xai_restore_first_good max_attempts st text temperature k content :
  k < max_attempts ->
  (forall i, i < k -> good raises_for_status (server (answered st + i) text temperature) = None) ->
  good raises_for_status (server (answered st + k) text temperature) = Some content ->
  (xai_restore server uniform raises_for_status max_attempts st text temperature).2
  = Ok (strip_newlines content)
  /\ answered (xai_restore server uniform raises_for_status max_attempts st text
                 temperature).1
     = answered st + k + 1.
Proof.
  intros Hk Hbad Hgood. unfold xai_restore.
  destruct (xai_loop_first_good text temperature max_attempts content k max_attempts 0
              None st Hk ltac:(lia) Hbad Hgood) as (st' & -> & Ha).
  done.
Qed.

(** X13. A text that the client returns is the content of the last
    answer, which was good, with the newlines at its ends removed: it
    neither starts nor ends with a newline. *)
Theorem xai_restore_returns max_attempts st text temperature content :
  (xai_restore server uniform raises_for_status max_attempts st text temperature).2
  = Ok content ->
  let st' := (xai_restore server uniform raises_for_status max_attempts st text temperature).1 in
  (exists answer,
      good raises_for_status (server (Nat.pred (answered st')) text temperature) = Some answer
      /\ content = strip_newlines answer)
  /\ head content <> Some newline /\ last content <> Some newline.
Proof.
  cbn zeta. unfold xai_restore.
  destruct (xai_loop _ _ _ _ _ _ _ _ _ _) as [st' out] eqn:Hloop. cbn [fst snd].
  intros ->. apply xai_loop_effects in Hloop as (_ & _ & _ & Hok).
  destruct (Hok content eq_refl) as (answer & Hgood & ->).
  split; [by exists answer|].
  destruct (strip_by_ends (N.eqb newline) answer) as [Hhead Hlast].
  split; intros Hn.
  - apply Hhead in Hn. by rewrite N.eqb_refl in Hn.
  - apply Hlast in Hn. by rewrite N.eqb_refl in Hn.
Qed.

Lemma attempt_once_not_good text temperature attempt max_attempts last_error st :
  good raises_for_status (server (answered st) text temperature) = None ->
  forall content,
    (attempt_once server uniform raises_for_status text temperature attempt max_attempts
       last_error st).2 <> Return content.
Proof.
  intros Hgood content Hret.
  destruct (attempt_once _ _ _ _ _ _ _ _ _) as [st1 it] eqn:Hit. cbn in Hret. subst it.
  apply attempt_once_returns in Hit as (answer & Hg & _). congruence.
Qed.

Lemma xai_loop_exhausted text temperature max_attempts :
  forall remaining attempt last_error st st' out,
    (forall i, i < remaining ->
               good raises_for_status (server (answered st + i) text temperature) = None) ->
    attempt + remaining = max_attempts ->
    xai_loop server uniform raises_for_status remaining text temperature attempt
      max_attempts last_error st = (st', out) ->
    (exists e, out = Raise e) /\ answered st' = answered st + remaining.
Proof.
  induction remaining as [|remaining IH]; intros attempt last_error st st' out Hbad Hmax;
    cbn [xai_loop].
  - intros [= <- <-]. split; [by eexists | lia].
  - pose proof (Hbad 0 ltac:(lia)) as Hbad0. rewrite Nat.add_0_r in Hbad0.
    pose proof (attempt_once_not_good text temperature (attempt + 1) max_attempts
                  last_error st Hbad0) as Hnot.
    destruct (attempt_once _ _ _ _ _ _ _ _ _) as [st1 it] eqn:Hit.
    pose proof (attempt_once_effects _ _ _ _ _ _ _ _ Hit) as (Hans & _).
    destruct it as [content|e|last'].
    + by destruct (Hnot content).
    + intros [= <- <-]. split; [by eexists|].
      destruct remaining as [|remaining]; [lia|].
      destruct (attempt_once_continue text temperature (attempt + 1) max_attempts
                  last_error st Hbad0 ltac:(lia)) as (l & Hcont).
      rewrite Hit in Hcont. discriminate.
    + intros Hloop. apply IH in Hloop as [He Ha]; [split; [done | lia] | | lia].
      intros i Hi. rewrite Hans. replace (S (answered st) + i) with (answered st + S i) by lia.
      apply Hbad. lia.
Qed.

(** X14. When none of the first [max_attempts] answers is good, the
    client raises, after exactly [max_attempts] requests; the error of
    an attempt is re-raised only by the last one. *)
Theorem xai_restore_exhausted max_attempts st text temperature :
  (forall i, i < max_attempts ->
             good raises_for_status (server (answered st + i) text temperature) = None) ->
  (exists e,
      (xai_restore server uniform raises_for_status max_attempts st text temperature).2
      = Raise e)
  /\ answered (xai_restore server uniform raises_for_status max_attempts st text
                 temperature).1
     = answered st + max_attempts.
Proof.
  intros Hbad. unfold xai_restore.
  destruct (xai_loop _ _ _ _ _ _ _ _ _ _) as [st' out] eqn:Hloop.
  by apply xai_loop_exhausted in Hloop.
Qed.

(** A substituted candidate ends as the text it was split from does,
    unless that text ends with a marker. *)
Lemma substitute_last (x : char) (rest : list pystr) :
  alternating rest -> x <> 93%N ->
  forall first : pystr, first <> UNK ->
    last (concat (first :: rest)) = Some x ->
    forall fillers, last (substitute (first :: rest) fillers) = Some x.
Proof.
  intros Halt Hx. induction Halt as [|literal rest Hne Halt IH]; intros first Hfirst.
  - cbn [concat substitute]. apply str_eqb_false in Hfirst as ->. done.
  - intros Hlast fillers. cbn [concat] in Hlast.
    change (literal ++ concat rest) with (concat (literal :: rest)) in Hlast.
    assert (Htail : last (concat (literal :: rest)) = Some x).
    { rewrite !last_app in Hlast.
      destruct (last (concat (literal :: rest))) as [y|]; [done|].
      change (last UNK) with (Some 93%N) in Hlast. cbn in Hlast. congruence. }
    change (substitute (first :: UNK :: literal :: rest) fillers)
      with (if str_eqb first UNK
            then match fillers with
                 | f :: fs => f ++ substitute (UNK :: literal :: rest) fs
                 | [] => substitute (UNK :: literal :: rest) []
                 end
            else first ++ substitute (UNK :: literal :: rest) fillers).
    apply str_eqb_false in Hfirst as ->.
    change (substitute (UNK :: literal :: rest) fillers)
      with (match fillers with
            | f :: fs => f ++ substitute (literal :: rest) fs
            | [] => substitute (literal :: rest) []
            end).
    destruct fillers as [|f fs]; rewrite !last_app, (IH literal Hne Htail); done.
Qed.

(** X15. The trimming of the client and the verifier do not fit: when
    the masked text ends with a newline, a text returned by the client
    is never an exact filling of its placeholders, and the verifier
    accepts it only with extra text after the last literal segment. *)
Theorem xai_restore_never_exact max_attempts st masked temperature content :
  (xai_restore server uniform raises_for_status max_attempts st masked temperature).2
  = Ok content ->
  last masked = Some newline ->
  (forall fillers, content <> substitute (split masked) fillers)
  /\ content <> masked
  /\ (_guardrail_ok masked content = true ->
      exists fillers suffix,
        content = substitute (split masked) fillers ++ suffix /\ suffix <> []).
Proof.
  destruct (xai_restore _ _ _ _ _ _ _) as [st' out] eqn:Hrun. cbn [snd]. intros ->.
  apply xai_restore_effects in Hrun as (_ & _ & _ & Hlast).
  specialize (Hlast content eq_refl). intros Hnl.
  assert (Hexact : forall fillers, content <> substitute (split masked) fillers).
  { intros fillers ->. apply Hlast. unfold split.
    destruct (split_go_shape masked 0) as (first & rest & Heq & Hfirst & Halt).
    rewrite Heq. apply substitute_last; [done | done | done |].
    rewrite <- Heq, split_go_concat. done. }
  split; [done|]. split; [by intros ->|].
  intros Hok. unfold _guardrail_ok in Hok.
  destruct (str_eqb masked content) eqn:He.
  { apply str_eqb_true in He as <-. congruence. }
  apply walk_sound in Hok as (fillers & suffix & _ & Hd); [|lia].
  exists fillers, suffix. split; [done|].
  intros ->. rewrite app_nil_r in Hd. by apply (Hexact fillers).
Qed.

(** X16. The orchestrator over this client: restoring one page costs
    at most [2 * max_attempts] requests, each carrying the masked text
    at temperature 0.2 or 0.0. *)
Theorem restore_request_budget max_attempts masked st logger :
  let st' := (restore (xai_restore server uniform raises_for_status max_attempts)
                masked st logger).1.1 in
  answered st <= answered st' <= answered st + 2 * max_attempts
  /\ exists events,
       http_log st' = http_log st ++ events
       /\ posts events = answered st' - answered st
       /\ Forall (fun ev => is_post ev = true ->
                            ev = Post masked 0.2%Q \/ ev = Post masked 0.0%Q) events.
Proof.
  cbn zeta. rewrite restore_cases.
  destruct (xai_restore _ _ _ _ st masked 0.2%Q) as [st1 out1] eqn:H1.
  apply xai_restore_effects in H1 as (Ha1 & _ & (ev1 & Hlog1 & Hp1 & _ & Hall1) & _).
  assert (Hfirst : answered st <= answered st1 <= answered st + 2 * max_attempts
                   /\ exists events,
                        http_log st1 = http_log st ++ events
                        /\ posts events = answered st1 - answered st
                        /\ Forall (fun ev => is_post ev = true ->
                                             ev = Post masked 0.2%Q \/ ev = Post masked 0.0%Q)
                             events).
  { split; [lia|]. exists ev1. repeat split; [done | done |].
    eapply Forall_impl; [exact Hall1|]. cbn. auto. }
  destruct out1 as [c1|e1]; [|exact Hfirst].
  destruct (_guardrail_ok masked c1); [exact Hfirst|]. cbn zeta.
  destruct (xai_restore _ _ _ _ st1 masked 0.0%Q) as [st2 out2] eqn:H2.
  apply xai_restore_effects in H2 as (Ha2 & _ & (ev2 & Hlog2 & Hp2 & _ & Hall2) & _).
  assert (Hsecond : answered st <= answered st2 <= answered st + 2 * max_attempts
                    /\ exists events,
                         http_log st2 = http_log st ++ events
                         /\ posts events = answered st2 - answered st
                         /\ Forall (fun ev => is_post ev = true ->
                                              ev = Post masked 0.2%Q \/ ev = Post masked 0.0%Q)
                              events).
  { split; [lia|]. exists (ev1 ++ ev2).
    rewrite Hlog2, Hlog1, <- app_assoc, posts_app. repeat split; [lia|].
    apply Forall_app. split; (eapply Forall_impl; [eassumption|]); cbn; auto. }
  destruct out2 as [c2|e2]; [|exact Hsecond].
  destruct (_guardrail_ok masked c2); exact Hsecond.
Qed.

End XAIClientProperties.

(** *** Worked examples for the extraction and the client *)

Example extract_sample :
  _extract_tokens_from_vision percent_exact mean_exact sample_response
  = Ok ([str "Hello"; str "Sam"; str "world"], [90; 40; 95]%Z).
Proof. vm_compute. reflexivity. Qed.

Lemma extract_tokens_well_formed_witness :
  let kept := filter (fun w => strip (word_text w) <> [])
                (match full_text_annotation sample_response with
                 | Some annotation => words_of annotation
                 | None => []
                 end) in
  length [str "Hello"; str "Sam"; str "world"] = length [90; 40; 95]%Z
  /\ [str "Hello"; str "Sam"; str "world"] = map word_text kept
  /\ Forall (fun t => strip t <> []) [str "Hello"; str "Sam"; str "world"]
  /\ Forall2 (fun w c => word_symbols w <> []
                         /\ word_percent percent_exact mean_exact w = Ok c)
       kept [90; 40; 95]%Z.
Proof.
  apply (extract_tokens_well_formed percent_exact mean_exact sample_response).
  vm_compute. reflexivity.
Defined.

Lemma ocr_result_consistent_witness :
  let r := mkOCRResult (str "Hello Sam world") (str "Hello [[UNK]] world")
             (mkOCRStats "google-vision" 3 1)
             [("raw"%string, str "Hello Sam world");
              ("masked"%string, str "Hello [[UNK]] world")] in
  masked_tokens (stats r) <= total_tokens (stats r)
  /\ dict_get (artifacts r) "raw" = Some (raw_text r)
  /\ dict_get (artifacts r) "masked" = Some (ocr_masked_text r)
  /\ (masked_tokens (stats r) = 0 -> ocr_masked_text r = raw_text r)
  /\ (find (ocr_masked_text r) (UNK ++ UNK) 0 = None ->
      _guardrail_ok (ocr_masked_text r) (raw_text r) = true).
Proof.
  apply (proj2 (ocr_result_consistent percent_exact mean_exact ascii_word
                  (Ok sample_response) 65)).
  vm_compute. reflexivity.
Defined.

Example xai_retry_sample :
  xai_restore (scripted_server [answer 503 ""; PostRaises 7; answer 200 "Hello pal world
"]) no_jitter httpx_raises 3 fresh (str "Hello [[UNK]] world") 0.2%Q
  = (mkXaiState 3 1
       [Post (str "Hello [[UNK]] world") 0.2%Q; Sleep (Backoff 1) (Some 0%Q);
        Post (str "Hello [[UNK]] world") 0.2%Q; Sleep (Backoff 2) None;
        Post (str "Hello [[UNK]] world") 0.2%Q],
     Ok (str "Hello pal world")).
Proof. vm_compute. reflexivity. Qed.

Lemma xai_restore_bounded_witness :
  xai_restore (scripted_server []) no_jitter httpx_raises 0 fresh (str "x") 0.2%Q
  = (fresh, Raise (CleanupFailed None)).
Proof.
  apply (xai_restore_bounded (scripted_server []) no_jitter httpx_raises 0 fresh
           (str "x") 0.2%Q).
  reflexivity.
Defined.

Lemma xai_restore_first_good_witness :
  (xai_restore (scripted_server [answer 503 ""; PostRaises 7; answer 200 "Hello pal world
"]) no_jitter httpx_raises 3 fresh (str "Hello [[UNK]] world") 0.2%Q).2
  = Ok (strip_newlines (str "Hello pal world
"))
  /\ answered (xai_restore (scripted_server [answer 503 ""; PostRaises 7;
                                             answer 200 "Hello pal world
"]) no_jitter httpx_raises 3 fresh (str "Hello [[UNK]] world") 0.2%Q).1
     = answered fresh + 2 + 1.
Proof.
  apply xai_restore_first_good.
  - lia.
  - intros [|[|i]] Hi; [reflexivity | reflexivity | lia].
  - reflexivity.
Defined.

Lemma xai_restore_returns_witness :
  (exists answer_,
      good httpx_raises
        (scripted_server [answer 200 "Hi
"] (Nat.pred 1) (str "x") 0.2%Q) = Some answer_
      /\ str "Hi" = strip_newlines answer_)
  /\ head (str "Hi") <> Some newline /\ last (str "Hi") <> Some newline.
Proof.
  apply (xai_restore_returns (scripted_server [answer 200 "Hi
"]) no_jitter httpx_raises 3 fresh (str "x") 0.2%Q (str "Hi")).
  vm_compute. reflexivity.
Defined.

Lemma xai_restore_exhausted_witness :
  (exists e,
      (xai_restore (scripted_server [answer 429 ""; answer 500 ""; answer 401 ""])
         no_jitter httpx_raises 3 fresh (str "x") 0.2%Q).2 = Raise e)
  /\ answered (xai_restore (scripted_server [answer 429 ""; answer 500 ""; answer 401 ""])
                 no_jitter httpx_raises 3 fresh (str "x") 0.2%Q).1
     = answered fresh + 3.
Proof.
  apply xai_restore_exhausted.
  intros [|[|[|i]]] Hi; [reflexivity | reflexivity | reflexivity | lia].
Defined.

Lemma xai_restore_never_exact_witness :
  let masked := str "Hello [[UNK]]
" in
  (forall fillers, str "Hello friend" <> substitute (split masked) fillers)
  /\ str "Hello friend" <> masked
  /\ (_guardrail_ok masked (str "Hello friend") = true ->
      exists fillers suffix,
        str "Hello friend" = substitute (split masked) fillers ++ suffix /\ suffix <> []).
Proof.
  apply (xai_restore_never_exact (scripted_server [answer 200 "Hello friend
"]) no_jitter httpx_raises 3 fresh (str "Hello [[UNK]]
") 0.2%Q (str "Hello friend")).
  - vm_compute. reflexivity.
  - reflexivity.
Defined.

Example never_exact_rejected :
  _guardrail_ok (str "Hello [[UNK]]
") (str "Hello friend") = false.
Proof. vm_compute. reflexivity. Qed.

(** ** Environment lists *)

Lemma lstrip_id s : (forall c, head s = Some c -> is_space c = false) -> lstrip s = s.
Proof.
  destruct s as [|c s]; [done|]. intros Hh. cbn. by rewrite (Hh c eq_refl).
Qed.

Lemma lstrip_last s c : last (lstrip s) = Some c -> last s = Some c.
Proof.
  induction s as [|d s IH]; [done|]. cbn [lstrip].
  destruct (is_space d); [|done]. intros Hl. specialize (IH Hl). by destruct s.
Qed.

Lemma lstrip_elem s c : c ∈ lstrip s -> c ∈ s.
Proof.
  induction s as [|d s IH]; [done|]. cbn [lstrip].
  destruct (is_space d); [|done]. intros Hin. right. by apply IH.
Qed.

Lemma elem_of_rev (s : pystr) c : c ∈ rev s <-> c ∈ s.
Proof. rewrite !list_elem_of_In. symmetry. apply in_rev. Qed.

Lemma strip_elem s c : c ∈ strip s -> c ∈ s.
Proof.
  unfold strip. intros Hin. apply (proj1 (elem_of_rev _ _)) in Hin.
  apply lstrip_elem in Hin. apply (proj1 (elem_of_rev _ _)) in Hin.
  by apply lstrip_elem in Hin.
Qed.

Lemma strip_head s c : head (strip s) = Some c -> is_space c = false.
Proof.
  unfold strip. rewrite head_rev. intros Hl%lstrip_last.
  rewrite last_rev in Hl. by apply lstrip_head in Hl.
Qed.

(** Trimming twice is trimming once. *)
Lemma strip_idempotent s : strip (strip s) = strip s.
Proof.
  assert (Hfix : forall t,
             (forall c, head t = Some c -> is_space c = false) ->
             (forall c, last t = Some c -> is_space c = false) -> strip t = t).
  { intros t Hh Hl. unfold strip. rewrite (lstrip_id t Hh).
    rewrite lstrip_id; [apply rev_involutive|].
    intros c. rewrite head_rev. apply Hl. }
  apply Hfix; [apply strip_head | apply strip_last].
Qed.

Lemma split_on_nonempty sep s : split_on sep s <> [].
Proof. destruct s as [|c s]; [done|]. cbn. destruct (N.eqb c sep); [done|]. by destruct (split_on sep s). Qed.

Lemma split_on_free sep s part : part ∈ split_on sep s -> sep ∉ part.
Proof.
  revert part. induction s as [|c s IH]; intros part; cbn [split_on].
  - intros ->%list_elem_of_singleton. apply not_elem_of_nil.
  - destruct (N.eqb_spec c sep) as [->|Hne].
    + intros [->|Hin]%elem_of_cons; [apply not_elem_of_nil | by apply IH].
    + destruct (split_on sep s) as [|p ps] eqn:Hs; [by destruct (split_on_nonempty sep s)|].
      cbn [push_char]. intros [->|Hin]%elem_of_cons.
      * intros [<-|Hin]%elem_of_cons; [done|]. revert Hin. apply IH. by left.
      * apply IH. by right.
Qed.

Lemma split_on_app sep (rest : pystr) : forall part : pystr,
  sep ∉ part -> split_on sep (part ++ sep :: rest) = part :: split_on sep rest.
Proof.
  induction part as [|c part IH]; intros Hfree; cbn [app split_on].
  - by rewrite N.eqb_refl.
  - apply not_elem_of_cons in Hfree as [Hne Hfree].
    destruct (N.eqb_spec c sep) as [->|_]; [done|]. by rewrite IH.
Qed.

Lemma split_on_single sep (part : pystr) : sep ∉ part -> split_on sep part = [part].
Proof.
  induction part as [|c part IH]; intros Hfree; [done|]. cbn [split_on].
  apply not_elem_of_cons in Hfree as [Hne Hfree].
  destruct (N.eqb_spec c sep) as [->|_]; [done|]. by rewrite IH.
Qed.

Lemma split_on_join sep (parts : list pystr) :
  parts <> [] -> Forall (fun part => sep ∉ part) parts ->
  split_on sep (join [sep] parts) = parts.
Proof.
  induction parts as [|part parts IH]; [done|]. intros _ Hall.
  apply Forall_cons in Hall as [Hfree Hall].
  destruct parts as [|part2 parts]; [by apply split_on_single|].
  change (join [sep] (part :: part2 :: parts))
    with (part ++ sep :: join [sep] (part2 :: parts)).
  rewrite split_on_app by done. by rewrite IH.
Qed.

(** X17. Every entry of an environment list is non-empty, has no
    whitespace at its ends and contains no comma; an unset or empty
    variable gives the empty list. *)
Theorem env_list_entries_clean env name :
  Forall (fun part => part <> [] /\ strip part = part /\ comma ∉ part) (_env_list env name)
  /\ (env name = None \/ env name = Some [] -> _env_list env name = []).
Proof.
  unfold _env_list. split.
  - destruct (env name) as [[|c value]|]; [constructor | | constructor].
    apply Forall_forall. intros part [Hne Hin]%list_elem_of_filter.
    apply list_elem_of_fmap in Hin as (raw & -> & Hraw). repeat split; [done | |].
    + apply strip_idempotent.
    + intros Hc%strip_elem. by apply (split_on_free comma _ raw Hraw).
  - by intros [->| ->].
Qed.

(** X18. Writing a list into a variable and reading it back: entries
    that are non-empty, trimmed and free of commas, joined by commas,
    are read as they were. *)
Theorem env_list_round_trip env name (entries : list pystr) :
  env name = Some (join [comma] entries) ->
  Forall (fun part => part <> [] /\ strip part = part /\ comma ∉ part) entries ->
  _env_list env name = entries.
Proof.
  intros Henv Hall. unfold _env_list. rewrite Henv.
  destruct entries as [|entry entries]; [done|].
  destruct (join [comma] (entry :: entries)) as [|c value] eqn:Hj.
  { apply Forall_cons in Hall as [(Hne & _) _].
    destruct entry; [done|]. by destruct entries. }
  rewrite <- Hj, split_on_join; [|done|].
  2:{ eapply Forall_impl; [exact Hall|]. by intros part (_ & _ & ?). }
  clear Hj Henv. induction Hall as [|part parts (Hne & Hstrip & _) _ IH]; [done|].
  cbn [map]. rewrite Hstrip, filter_cons_True by done. f_equal. exact IH.
Qed.

Lemma env_list_entries_clean_witness :
  _env_list (fun _ => None) "VISION_LANGUAGE_HINTS" = [].
Proof.
  apply (proj2 (env_list_entries_clean (fun _ => None) "VISION_LANGUAGE_HINTS")).
  left. reflexivity.
Defined.

Example env_list_sample :
  _env_list (fun _ => Some (str " en, es ,,fr")) "VISION_LANGUAGE_HINTS"
  = [str "en"; str "es"; str "fr"].
Proof. vm_compute. reflexivity. Qed.

Lemma env_list_round_trip_witness :
  _env_list (fun _ => Some (str "en,es")) "VISION_LANGUAGE_HINTS" = [str "en"; str "es"].
Proof.
  apply (env_list_round_trip (fun _ => Some (str "en,es")) "VISION_LANGUAGE_HINTS"
           [str "en"; str "es"]).
  - reflexivity.
  - repeat (apply Forall_cons; split;
            [split; [discriminate | split; [reflexivity |]];
             apply (bool_decide_unpack _); vm_compute; exact I|]).
    apply Forall_nil_2.
Defined.

(** ** Numbers in names *)

Lemma chars_uint_chars d : chars_uint (uint_chars d) = d.
Proof. induction d; cbn; by rewrite ?IHd. Qed.

(** Reading a printed number back gives the number, zeros on the left
    or not. *)
Lemma decimal_value n : Nat.of_uint (chars_uint (decimal n)) = n.
Proof. unfold decimal. rewrite chars_uint_chars. apply DecimalNat.Unsigned.of_to. Qed.

Lemma zero_padded_value width n : Nat.of_uint (chars_uint (zero_padded width n)) = n.
Proof.
  unfold zero_padded. induction (width - length (decimal n)) as [|k IH]; [apply decimal_value|].
  cbn [replicate app]. exact IH.
Qed.

Lemma decimal_inj n m : decimal n = decimal m -> n = m.
Proof. intros H. rewrite <- (decimal_value n), H. apply decimal_value. Qed.

Lemma zero_padded_inj width n m : zero_padded width n = zero_padded width m -> n = m.
Proof. intros H. rewrite <- (zero_padded_value width n), H. apply zero_padded_value. Qed.

(** X19. Fallback names: an absent and an empty fallback both give
    ["unnamed"]; the page number is printed with at least two digits;
    for a given fallback, different pages get different names. *)
Theorem fallback_name_distinct fallback i j :
  _fallback_name None i = _fallback_name (Some []) i
  /\ (exists prefix, _fallback_name fallback i = prefix ++ str "_" ++ zero_padded 2 (i + 1)
                     /\ 2 <= length (zero_padded 2 (i + 1)))
  /\ (_fallback_name fallback i = _fallback_name fallback j -> i = j).
Proof.
  split; [done|]. split.
  - assert (2 <= length (zero_padded 2 (i + 1))) as Hl.
    { unfold zero_padded. destruct (decimal (i + 1)) as [|a [|b s]]; [cbn; lia | cbn; lia |].
      rewrite length_app. cbn [length]. lia. }
    destruct fallback as [[|c f]|]; cbn [_fallback_name].
    + by exists (str "unnamed").
    + by exists (c :: f).
    + by exists (str "unnamed").
  - assert (Hinj : forall prefix : pystr,
               prefix ++ zero_padded 2 (i + 1) = prefix ++ zero_padded 2 (j + 1) -> i = j).
    { intros prefix H%app_inv_head%zero_padded_inj. lia. }
    destruct fallback as [[|c f]|]; cbn [_fallback_name].
    + apply Hinj.
    + rewrite !(app_assoc (c :: f)). apply Hinj.
    + apply Hinj.
Qed.

Example fallback_name_sample :
  _fallback_name (Some (str "Student")) 2 = str "Student_03"
  /\ _fallback_name None 1 = str "unnamed_02"
  /\ _fallback_name None 122 = str "unnamed_123".
Proof. vm_compute. done. Qed.

(** ** Output files *)

Lemma candidate_name_inj (stem : pystr) n m :
  1 <= n -> 1 <= m -> candidate_name stem n = candidate_name stem m -> n = m.
Proof.
  intros Hn Hm. unfold candidate_name.
  destruct n as [|[|n]]; [lia| |]; destruct m as [|[|m]]; try lia.
  - intros H%app_inv_head. discriminate.
  - intros H%app_inv_head. discriminate.
  - intros H%app_inv_head. cbn [str map list_ascii_of_string app] in H.
    injection H as H. apply app_inv_tail in H. by apply decimal_inj in H.
Qed.

Section UniquePathProperties.

Variable path_exists : pystr -> bool.

(** The loop stops at the first free name, if its fuel reaches it. *)
Lemma unique_loop_finds (stem : pystr) : forall fuel counter n,
  1 <= counter <= n -> n < counter + fuel ->
  path_exists (candidate_name stem n) = false ->
  exists m, counter <= m <= n
            /\ unique_loop path_exists fuel stem counter (candidate_name stem counter)
               = Some (candidate_name stem m)
            /\ path_exists (candidate_name stem m) = false
            /\ forall k, counter <= k < m -> path_exists (candidate_name stem k) = true.
Proof.
  induction fuel as [|fuel IH]; intros counter n Hc Hn Hfree; [lia|].
  cbn [unique_loop].
  destruct (path_exists (candidate_name stem counter)) eqn:Hex.
  - assert (n <> counter) by congruence.
    destruct (IH (counter + 1) n) as (m & Hm & Hloop & Hmfree & Hbefore); [lia | lia | done|].
    exists m. split; [lia|]. split; [|split; [done|]].
    + rewrite <- Hloop. f_equal. unfold candidate_name.
      destruct counter as [|[|counter]]; [lia | done | done].
    + intros k Hk. destruct (decide (k = counter)) as [->|]; [done|]. apply Hbefore. lia.
  - exists counter. repeat split; [lia | lia | done | lia].
Qed.

(** X20. The output path is the first free name among [stem.pdf],
    [stem_2.pdf], [stem_3.pdf], ...: it does not exist, every name
    before it does, and it is [stem.pdf] itself when that is free. *)
Theorem ensure_unique_path_first_free fuel (stem : pystr) n :
  1 <= n <= fuel ->
  path_exists (candidate_name stem n) = false ->
  exists m, 1 <= m <= n
            /\ _ensure_unique_path path_exists fuel stem = Some (candidate_name stem m)
            /\ path_exists (candidate_name stem m) = false
            /\ (forall k, 1 <= k < m -> path_exists (candidate_name stem k) = true)
            /\ (path_exists (stem ++ str ".pdf") = false -> m = 1).
Proof.
  intros Hn Hfree.
  destruct (unique_loop_finds stem fuel 1 n) as (m & Hm & Hloop & Hmfree & Hbefore);
    [lia | lia | done|].
  exists m. repeat split; [lia | lia | done | done | done |].
  intros Hfirst. destruct (decide (m = 1)) as [|Hne]; [done|].
  specialize (Hbefore 1 ltac:(lia)).
  change (candidate_name stem 1) with (stem ++ str ".pdf") in Hbefore. congruence.
Qed.

End UniquePathProperties.

Lemma ensure_unique_path_first_free_aux (existing : list pystr) (stem : pystr) n :
  1 <= n <= S (length existing) ->
  candidate_name stem n ∉ existing ->
  exists m,
    _ensure_unique_path (fun p => bool_decide (p ∈ existing)) (S (length existing)) stem
    = Some (candidate_name stem m)
    /\ candidate_name stem m ∉ existing.
Proof.
  intros Hn Hfree.
  destruct (unique_loop_finds (fun p => bool_decide (p ∈ existing)) stem
              (S (length existing)) 1 n) as (m & Hm & Hloop & Hmfree & _);
    [lia | lia | by apply bool_decide_eq_false|].
  exists m. split; [done|]. by apply bool_decide_eq_false in Hmfree.
Qed.

(** Among the first [length existing + 1] candidate names, which are
    all different, one is not in the directory. *)
Lemma free_candidate_exists (existing : list pystr) (stem : pystr) :
  exists n, 1 <= n <= S (length existing) /\ candidate_name stem n ∉ existing.
Proof.
  set (names := map (candidate_name stem) (seq 1 (S (length existing)))).
  assert (Hnodup : NoDup names).
  { apply NoDup_fmap_2_strong; [|apply NoDup_seq].
    intros n m Hn%elem_of_seq Hm%elem_of_seq. apply candidate_name_inj; lia. }
  destruct (decide (Forall (fun name => name ∈ existing) names)) as [Hall|Hnot].
  - assert (names ⊆+ existing) as Hsub.
    { apply NoDup_submseteq; [done|]. intros x Hx.
      by apply (proj1 (Forall_forall _ _) Hall). }
    apply submseteq_length in Hsub. subst names.
    rewrite length_map, length_seq in Hsub. lia.
  - apply not_Forall_Exists in Hnot; [|apply _].
    apply Exists_exists in Hnot as (name & Hin & Hname).
    apply list_elem_of_fmap in Hin as (n & -> & Hn%elem_of_seq).
    exists n. split; [lia | done].
Qed.

(** X21. On a directory with finitely many files the loop stops within
    one test more than there are files, and returns a name that is not
    in the directory. *)
Theorem ensure_unique_path_fresh (existing : list pystr) (stem : pystr) :
  exists path,
    _ensure_unique_path (fun p => bool_decide (p ∈ existing)) (S (length existing)) stem
    = Some path
    /\ path ∉ existing.
Proof.
  destruct (free_candidate_exists existing stem) as (n & Hn & Hfree).
  destruct (ensure_unique_path_first_free_aux existing stem n Hn Hfree) as (m & Hres & Hm).
  by exists (candidate_name stem m).
Qed.

Example ensure_unique_path_sample :
  _ensure_unique_path (fun p => bool_decide (p ∈ [str "sam.pdf"; str "sam_2.pdf"])) 5 (str "sam")
  = Some (str "sam_3.pdf").
Proof. vm_compute. reflexivity. Qed.

Lemma ensure_unique_path_first_free_witness :
  let path_exists := fun p => bool_decide (p ∈ [str "sam.pdf"; str "sam_2.pdf"]) in
  exists m, 1 <= m <= 3
            /\ _ensure_unique_path path_exists 5 (str "sam")
               = Some (candidate_name (str "sam") m)
            /\ path_exists (candidate_name (str "sam") m) = false
            /\ (forall k, 1 <= k < m -> path_exists (candidate_name (str "sam") k) = true)
            /\ (path_exists (str "sam" ++ str ".pdf") = false -> m = 1).
Proof.
  apply (ensure_unique_path_first_free
           (fun p => bool_decide (p ∈ [str "sam.pdf"; str "sam_2.pdf"])) 5 (str "sam") 3).
  - lia.
  - vm_compute. reflexivity.
Defined.

(** ** Pages of the output file *)

Lemma chunks_go_fuel n (l : list pystr) fuel fuel' :
  1 <= n -> length l <= fuel -> length l <= fuel' ->
  chunks_go fuel n l = chunks_go fuel' n l.
Proof.
  intros Hn. revert l fuel'. induction fuel as [|fuel IH]; intros l fuel' Hl Hl'.
  - destruct l; [by destruct fuel'|]. cbn in Hl. lia.
  - destruct l as [|x l]; [by destruct fuel'|].
    destruct fuel' as [|fuel']; [cbn in Hl'; lia|].
    cbn [chunks_go]. f_equal.
    apply IH; rewrite length_drop; cbn [length] in *; lia.
Qed.

Lemma chunks_cons n x (l : list pystr) :
  1 <= n -> chunks n (x :: l) = take n (x :: l) :: chunks n (drop n (x :: l)).
Proof.
  intros Hn. unfold chunks. cbn [length chunks_go]. f_equal.
  apply chunks_go_fuel; [done| |]; rewrite length_drop; cbn [length]; lia.
Qed.

Lemma chunks_nil n : chunks n [] = [].
Proof. done. Qed.

(** Cutting into pages loses nothing, and every page holds between one
    and [n] lines; every page but the last is full. *)
Lemma chunks_spec n (l : list pystr) :
  1 <= n ->
  concat (chunks n l) = l
  /\ Forall (fun page => 1 <= length page <= n) (chunks n l)
  /\ (forall i page, chunks n l !! i = Some page -> i + 1 < length (chunks n l) ->
                     length page = n).
Proof.
  intros Hn.
  induction l as [l IH] using (induction_ltof1 _ (@length pystr)). unfold ltof in IH.
  destruct l as [|x l]; [by repeat split; [constructor | intros i page H; destruct i]|].
  rewrite chunks_cons by done.
  destruct (IH (drop n (x :: l))) as (Hc & Hf & Hfull).
  { rewrite length_drop. cbn [length]. lia. }
  split; [|split].
  - cbn [concat]. rewrite Hc. apply take_drop.
  - constructor; [|done]. rewrite length_take. cbn [length]. lia.
  - intros [|i] page Hi Hlen.
    + cbn in Hi. injection Hi as <-. cbn [length] in Hlen.
      rewrite length_take.
      destruct (decide (n <= length (x :: l))) as [|Hshort]; [lia|].
      rewrite drop_ge in Hlen by lia. cbn in Hlen. lia.
    + cbn in Hi. apply (Hfull i page Hi). cbn [length] in Hlen. lia.
Qed.

Lemma rows_app y (a b : list pystr) :
  rows y (a ++ b) = rows y a ++ rows (y - leading * Z.of_nat (length a)) b.
Proof.
  revert y. induction a as [|x a IH]; intros y.
  - cbn. f_equal. lia.
  - cbn [app rows length]. rewrite IH. do 3 f_equal. lia.
Qed.

(** Where the lines of a page are drawn. *)
Lemma rows_bounds y (lines : list pystr) lo :
  (lo <= y - leading * (Z.of_nat (length lines) - 1))%Z ->
  Forall (fun op => match op with
                    | DrawString x y' _ => x = left_margin /\ (lo <= y' <= y)%Z
                    | _ => True
                    end) (rows y lines).
Proof.
  revert y. induction lines as [|l lines IH]; intros y Hy; [constructor|].
  cbn [rows]. cbn [length] in Hy. unfold leading in *. constructor.
  - split; [done|]. lia.
  - eapply Forall_impl; [apply (IH (y - 12)%Z); lia|].
    intros [] ?; try done. cbn in *. lia.
Qed.

(** One turn of the loop: a new page when [text_y] has passed the
    bottom margin, then the line. *)
Lemma draw_line_step header header_text y pdf line :
  draw_line header header_text (y, pdf) line
  = if (y <? 54)%Z
    then ((first_y header - leading)%Z,
          pdf ++ ShowPage :: page_ops header header_text [line])
    else ((y - leading)%Z, pdf ++ [DrawString left_margin y line]).
Proof.
  unfold draw_line, page_ops.
  change (3 * inch / 4)%Z with 54%Z.
  change (top_margin - leading * 3 / 2)%Z with 720%Z.
  change top_margin with 738%Z.
  destruct (y <? 54)%Z; [|done].
  destruct header; cbn [first_y rows draw_header app];
    by rewrite <- ?app_assoc.
Qed.

Lemma page_ops_cons header header_text line page :
  page_ops header header_text (line :: page)
  = page_ops header header_text [line] ++ rows (first_y header - leading) page.
Proof.
  unfold page_ops. cbn [rows]. rewrite <- !app_assoc. f_equal.
Qed.

Lemma per_page_room header j :
  (first_y header - leading * Z.of_nat j <? 54)%Z = bool_decide (per_page header <= j).
Proof.
  unfold leading. destruct header; cbn [first_y per_page];
    case_bool_decide; apply Z.ltb_lt || apply Z.ltb_ge; lia.
Qed.

(** The loop over the lines, started [j] lines down a page: it fills
    the page, then draws the remaining lines page by page. *)
Lemma draw_lines_spec header header_text lines j pdf :
  j <= per_page header ->
  (fold_left (draw_line header header_text) lines
     ((first_y header - leading * Z.of_nat j)%Z, pdf)).2
  = pdf ++ rows (first_y header - leading * Z.of_nat j) (take (per_page header - j) lines)
        ++ concat (map (fun page => ShowPage :: page_ops header header_text page)
                       (chunks (per_page header) (drop (per_page header - j) lines))).
Proof.
  assert (1 <= per_page header) as Hpos by (destruct header; cbn; lia).
  revert j pdf. induction lines as [|line lines IH]; intros j pdf Hj.
  - rewrite take_nil, drop_nil. cbn. by rewrite app_nil_r.
  - cbn [fold_left]. rewrite draw_line_step, per_page_room.
    case_bool_decide as Hfull.
    + assert (j = per_page header) as -> by lia.
      rewrite Nat.sub_diag. rewrite take_0, drop_0. cbn [rows app].
      rewrite chunks_cons by done. cbn [map concat].
      replace (first_y header - leading)%Z
        with (first_y header - leading * Z.of_nat 1)%Z by lia.
      rewrite IH by done.
      destruct (per_page header) as [|n] eqn:Hn; [lia|].
      cbn [take drop]. rewrite Nat.sub_succ, Nat.sub_0_r.
      rewrite (page_ops_cons _ _ line (take n lines)).
      replace (first_y header - leading * Z.of_nat 1)%Z
        with (first_y header - leading)%Z by lia.
      rewrite <- !app_assoc. cbn [app]. by rewrite <- !app_assoc.
    + replace (first_y header - leading * Z.of_nat j - leading)%Z
        with (first_y header - leading * Z.of_nat (S j))%Z by lia.
      rewrite IH by lia.
      replace (per_page header - j) with (S (per_page header - S j)) by lia.
      cbn [take drop rows].
      replace (first_y header - leading * Z.of_nat j - leading)%Z
        with (first_y header - leading * Z.of_nat (S j))%Z by lia.
      by rewrite <- app_assoc.
Qed.

(** Nothing of a page is drawn outside the margins. *)
Lemma page_ops_bounds header header_text page :
  length page <= per_page header ->
  Forall (fun op => match op with
                    | DrawString x y _ => x = 54%Z /\ (54 <= y <= 738)%Z
                    | _ => True
                    end) (page_ops header header_text page).
Proof.
  intros Hlen. unfold page_ops.
  assert (Forall (fun op => match op with
                            | DrawString x y _ => x = 54%Z /\ (54 <= y <= 738)%Z
                            | _ => True
                            end) (rows (first_y header) page)) as Hrows.
  { eapply Forall_impl; [apply (rows_bounds (first_y header) page 54)|].
    - unfold leading. destruct header; cbn [first_y per_page] in *; lia.
    - intros [] ?; try done. change left_margin with 54%Z in *.
      destruct header; cbn [first_y] in *; lia. }
  destruct header; cbn [app draw_header].
  - constructor; [done|]. constructor; [by vm_compute|]. by constructor.
  - by constructor.
Qed.

Section WritePdfProperties.

Variable splitlines : pystr -> list pystr.
Variable textwrap_wrap : pystr -> nat -> list pystr.
Variable path_exists : pystr -> bool.

Lemma wrap_step_grows (wrapped_lines : list pystr) line width :
  length wrapped_lines
  < length (match line with
            | [] => wrapped_lines ++ [[]]
            | _ =>
                match textwrap_wrap line width with
                | [] => wrapped_lines ++ [[]]
                | wrapped => wrapped_lines ++ wrapped
                end
            end).
Proof.
  destruct line; [rewrite length_app; cbn; lia|].
  destruct (textwrap_wrap _ _); rewrite length_app; cbn; lia.
Qed.

Lemma wrap_text_length text width :
  1 <= length (_wrap_text splitlines textwrap_wrap text width)
  /\ length (splitlines text) <= length (_wrap_text splitlines textwrap_wrap text width).
Proof.
  unfold _wrap_text.
  assert (forall lines acc,
            length acc + length lines
            <= length (fold_left
                 (fun wrapped_lines line =>
                    match line with
                    | [] => wrapped_lines ++ [[]]
                    | _ =>
                        match textwrap_wrap line width with
                        | [] => wrapped_lines ++ [[]]
                        | wrapped => wrapped_lines ++ wrapped
                        end
                    end) lines acc)) as Hgrow.
  { induction lines as [|line lines IH]; intros acc; [cbn; lia|].
    cbn [fold_left length]. etrans; [|apply IH].
    match goal with
    | |- _ <= length ?x + _ =>
        assert (length acc < length x) by apply wrap_step_grows
    end.
    lia. }
  destruct (splitlines text) as [|l ls].
  - specialize (Hgrow [[]] []). cbv beta iota.
    split; (eapply Nat.le_trans; [|exact Hgrow]); cbn [length]; lia.
  - specialize (Hgrow (l :: ls) []). cbv beta iota.
    split; [|exact Hgrow]. eapply Nat.le_trans; [|exact Hgrow]. cbn [length]. lia.
Qed.

Lemma unique_loop_free (stem : pystr) fuel counter candidate target_path :
  unique_loop path_exists fuel stem counter candidate = Some target_path ->
  path_exists target_path = false.
Proof.
  revert counter candidate. induction fuel as [|fuel IH]; intros counter candidate; [done|].
  cbn [unique_loop]. destruct (path_exists candidate) eqn:Hex; [apply IH|].
  by intros [= <-].
Qed.

(** What [write_pdf] returns, in terms of its loop. *)
Lemma write_pdf_unfold fuel text filename_stem timestamp page_number header target_path pdf :
  write_pdf splitlines textwrap_wrap path_exists fuel text filename_stem timestamp
    page_number header = Some (target_path, pdf) ->
  let content := match text with [] => str "[No OCR text detected]" | _ => text end in
  let header_text :=
    str "Restored page " ++ [bullet] ++ str " " ++ timestamp ++ str " " ++ [bullet]
    ++ str " source page " ++ int_str page_number in
  _ensure_unique_path path_exists fuel filename_stem = Some target_path
  /\ pdf = (fold_left (draw_line header header_text)
              (_wrap_text splitlines textwrap_wrap content 85)
              (first_y header,
               (if header then draw_header header_text else []) ++ [SetFont "Courier" 11])).2
           ++ [Save].
Proof.
  intros H content header_text. unfold write_pdf in H.
  destruct (_ensure_unique_path path_exists fuel filename_stem) as [p|]; [|done].
  fold content header_text in H.
  change (top_margin - leading * 3 / 2)%Z with 720%Z in H.
  change top_margin with 738%Z in H.
  assert ((if header
           then (720%Z, draw_header header_text)
           else (738%Z, []))
          = (first_y header, if header then draw_header header_text else [])) as Heq
    by by destruct header.
  rewrite Heq in H. clear Heq.
  destruct (fold_left _ _ _) as [y log] eqn:Hfold in H.
  injection H as <- <-. split; [done|].
  by rewrite Hfold.
Qed.

(** The calls of [write_pdf], page by page. *)
Lemma write_pdf_pages_aux fuel text filename_stem timestamp page_number header target_path pdf :
  write_pdf splitlines textwrap_wrap path_exists fuel text filename_stem timestamp
    page_number header = Some (target_path, pdf) ->
  let content := match text with [] => str "[No OCR text detected]" | _ => text end in
  let header_text :=
    str "Restored page " ++ [bullet] ++ str " " ++ timestamp ++ str " " ++ [bullet]
    ++ str " source page " ++ int_str page_number in
  let lines := _wrap_text splitlines textwrap_wrap content 85 in
  let pages := chunks (per_page header) lines in
  concat pages = lines
  /\ Forall (fun page => 1 <= length page <= per_page header) pages
  /\ (forall i page, pages !! i = Some page -> i + 1 < length pages ->
                     length page = per_page header)
  /\ exists page rest,
       pages = page :: rest
       /\ pdf = page_ops header header_text page
                ++ concat (map (fun page => ShowPage :: page_ops header header_text page) rest)
                ++ [Save].
Proof.
  intros H content header_text lines pages.
  apply write_pdf_unfold in H as [_ Hpdf]. fold content header_text lines in Hpdf.
  assert (1 <= per_page header) as Hpos by (destruct header; cbn; lia).
  destruct (chunks_spec (per_page header) lines Hpos) as (Hconcat & Hsizes & Hfull).
  split; [done|]. split; [done|]. split; [done|].
  destruct (wrap_text_length content 85) as [Hne _]. fold lines in Hne.
  subst pages. destruct lines as [|line lines'] eqn:Hlines; [cbn in Hne; lia|].
  rewrite chunks_cons by done.
  eexists _, _. split; [done|].
  rewrite Hpdf.
  pose proof (draw_lines_spec header header_text (line :: lines') 0
                ((if header then draw_header header_text else []) ++ [SetFont "Courier" 11])
                ltac:(lia)) as Hloop.
  replace (first_y header - leading * Z.of_nat 0)%Z with (first_y header) in Hloop by lia.
  rewrite Nat.sub_0_r in Hloop. rewrite Hloop.
  unfold page_ops. by rewrite <- !app_assoc.
Qed.

(** Where [write_pdf] draws. *)
Lemma write_pdf_margins_aux fuel text filename_stem timestamp page_number header
    target_path pdf :
  write_pdf splitlines textwrap_wrap path_exists fuel text filename_stem timestamp
    page_number header = Some (target_path, pdf) ->
  path_exists target_path = false
  /\ Forall (fun op => match op with
                       | DrawString x y _ => x = 54%Z /\ (54 <= y <= 738)%Z
                       | _ => True
                       end) pdf
  /\ exists line rest,
       pdf = (if header
              then draw_header
                     (str "Restored page " ++ [bullet] ++ str " " ++ timestamp ++ str " "
                      ++ [bullet] ++ str " source page " ++ int_str page_number)
              else [])
             ++ SetFont "Courier" 11 :: DrawString 54 (first_y header) line :: rest.
Proof.
  intros H.
  pose proof (write_pdf_pages_aux _ _ _ _ _ _ _ _ H) as (_ & Hsizes & _ & page & rest & Hpages & ->).
  apply write_pdf_unfold in H as [Hpath _].
  split; [by apply unique_loop_free in Hpath|].
  rewrite Hpages in Hsizes. apply Forall_cons in Hsizes as [[Hpage Hpage'] Hrest].
  split.
  - apply Forall_app. split; [by apply page_ops_bounds|].
    apply Forall_app. split; [|by repeat constructor].
    apply Forall_concat, Forall_map. eapply Forall_impl; [exact Hrest|].
    intros page' [_ Hlen]. constructor; [done|]. by apply page_ops_bounds.
  - destruct page as [|line page]; [cbn in Hpage; lia|].
    exists line. eexists. unfold page_ops. cbn [rows].
    rewrite <- !app_assoc. cbn [app]. reflexivity.
Qed.

(** Once the name is found, [write_pdf] returns: the loop over the
    lines always ends. *)
Lemma write_pdf_returns fuel text filename_stem timestamp page_number header target_path :
  _ensure_unique_path path_exists fuel filename_stem = Some target_path ->
  exists pdf,
    write_pdf splitlines textwrap_wrap path_exists fuel text filename_stem timestamp
      page_number header = Some (target_path, pdf).
Proof.
  intros Hpath. unfold write_pdf. rewrite Hpath. cbv zeta.
  destruct header; cbv beta iota; destruct (fold_left _ _ _) as [y pdf1]; by eexists.
Qed.

(** X22. The pages of the output file.  When one of the first [fuel]
    candidate names is free, [write_pdf] returns, and the calls it has
    made are these: the wrapped lines (of the text, or of
    ["[No OCR text detected]"] when the text is empty) are cut, in
    order and without loss, into pages of 56 lines when there is a
    header and 58 when there is none; only the last page may be short,
    no page is empty and there is at least one.  Every page starts
    with the header (if any) and the font of the text, its lines are
    drawn from the top 12 points apart, pages are separated by
    [showPage], and [save] is the last call. *)
Theorem write_pdf_pages fuel n text filename_stem timestamp page_number header :
  1 <= n <= fuel ->
  path_exists (candidate_name filename_stem n) = false ->
  let content := match text with [] => str "[No OCR text detected]" | _ => text end in
  let header_text :=
    str "Restored page " ++ [bullet] ++ str " " ++ timestamp ++ str " " ++ [bullet]
    ++ str " source page " ++ int_str page_number in
  let lines := _wrap_text splitlines textwrap_wrap content 85 in
  let pages := chunks (per_page header) lines in
  exists target_path pdf,
    write_pdf splitlines textwrap_wrap path_exists fuel text filename_stem timestamp
      page_number header = Some (target_path, pdf)
    /\ concat pages = lines
    /\ Forall (fun page => 1 <= length page <= per_page header) pages
    /\ (forall i page, pages !! i = Some page -> i + 1 < length pages ->
                       length page = per_page header)
    /\ exists page rest,
         pages = page :: rest
         /\ pdf = page_ops header header_text page
                  ++ concat (map (fun page => ShowPage :: page_ops header header_text page)
                               rest)
                  ++ [Save].
Proof.
  intros Hn Hfree content header_text lines pages.
  destruct (unique_loop_finds path_exists filename_stem fuel 1 n)
    as (m & _ & Hloop & _ & _); [lia | lia | done|].
  destruct (write_pdf_returns fuel text filename_stem timestamp page_number header
              (candidate_name filename_stem m) Hloop) as [pdf Hpdf].
  exists (candidate_name filename_stem m), pdf. split; [done|].
  exact (write_pdf_pages_aux _ _ _ _ _ _ _ _ Hpdf).
Qed.

End WritePdfProperties.

(** X23. On a directory with finitely many files [write_pdf] returns,
    within one test more than there are files, and it neither writes
    over a file that is there nor draws outside the margins: the path
    it returns is not in the directory, every string is drawn at the
    left margin (54 points) and between the bottom margin (54) and the
    top margin (738), whatever the number of lines; the header, if
    any, is the first thing drawn and at least one line of text
    follows it. *)
Theorem write_pdf_within_margins (splitlines : pystr -> list pystr)
    (textwrap_wrap : pystr -> nat -> list pystr) (existing : list pystr)
    text filename_stem timestamp page_number header :
  exists target_path pdf,
    write_pdf splitlines textwrap_wrap (fun p => bool_decide (p ∈ existing))
      (S (length existing)) text filename_stem timestamp page_number header
    = Some (target_path, pdf)
    /\ (target_path ∉ existing)
    /\ Forall (fun op => match op with
                         | DrawString x y _ => x = 54%Z /\ (54 <= y <= 738)%Z
                         | _ => True
                         end) pdf
    /\ exists line rest,
         pdf = (if header
                then draw_header
                       (str "Restored page " ++ [bullet] ++ str " " ++ timestamp ++ str " "
                        ++ [bullet] ++ str " source page " ++ int_str page_number)
                else [])
               ++ SetFont "Courier" 11 :: DrawString 54 (first_y header) line :: rest.
Proof.
  destruct (free_candidate_exists existing filename_stem) as (n & Hn & Hfree).
  destruct (ensure_unique_path_first_free_aux existing filename_stem n Hn Hfree)
    as (m & Hres & Hm).
  destruct (write_pdf_returns splitlines textwrap_wrap _ _ text _ timestamp page_number
              header _ Hres) as [pdf Hpdf].
  exists (candidate_name filename_stem m), pdf. split; [done|]. split; [done|].
  by destruct (write_pdf_margins_aux _ _ _ _ _ _ _ _ _ _ _ Hpdf) as (_ & Hm1 & Hm2).
Qed.

Section WrapTextProperties.

Variable splitlines : pystr -> list pystr.
Variable textwrap_wrap : pystr -> nat -> list pystr.

(** X24. [_wrap_text] never returns an empty list, and never fewer
    lines than [splitlines] gives; every line it returns is empty or
    one of the pieces that [textwrap.wrap] returned for a non-empty
    line of the text. *)
Theorem wrap_text_lines text width :
  1 <= length (_wrap_text splitlines textwrap_wrap text width)
  /\ length (splitlines text) <= length (_wrap_text splitlines textwrap_wrap text width)
  /\ Forall (fun wrapped_line =>
               wrapped_line = []
               \/ exists line, line ∈ splitlines text /\ line <> []
                               /\ wrapped_line ∈ textwrap_wrap line width)
       (_wrap_text splitlines textwrap_wrap text width).
Proof.
  destruct (wrap_text_length splitlines textwrap_wrap text width) as [H1 H2].
  split; [done|]. split; [done|].
  unfold _wrap_text.
  assert (forall (lines lines' : list pystr) acc,
            (forall line, line ∈ lines -> line ∈ lines') ->
            Forall (fun wrapped_line =>
                      wrapped_line = []
                      \/ exists line, line ∈ lines' /\ line <> []
                                      /\ wrapped_line ∈ textwrap_wrap line width) acc ->
            Forall (fun wrapped_line =>
                      wrapped_line = []
                      \/ exists line, line ∈ lines' /\ line <> []
                                      /\ wrapped_line ∈ textwrap_wrap line width)
              (fold_left
                 (fun wrapped_lines line =>
                    match line with
                    | [] => wrapped_lines ++ [[]]
                    | _ =>
                        match textwrap_wrap line width with
                        | [] => wrapped_lines ++ [[]]
                        | wrapped => wrapped_lines ++ wrapped
                        end
                    end) lines acc)) as Hgen.
  { induction lines as [|line lines IH]; intros lines' acc Hsub Hacc; [done|].
    cbn [fold_left]. apply IH; [intros l Hl; apply Hsub; by right|].
    destruct line as [|c line].
    - apply Forall_app. split; [done|]. constructor; [by left | constructor].
    - destruct (textwrap_wrap (c :: line) width) as [|w ws] eqn:Hw.
      + apply Forall_app. split; [done|]. constructor; [by left | constructor].
      + apply Forall_app. split; [done|].
        apply Forall_forall. intros piece Hpiece. right.
        exists (c :: line). split; [apply Hsub; by left|]. split; [done|].
        by rewrite Hw. }
  destruct (splitlines text) as [|l ls] eqn:Hlines.
  - cbn. constructor; [by left | constructor].
  - apply Hgen; [done | constructor].
Qed.

End WrapTextProperties.

Example write_pdf_sample :
  write_pdf lines_at_newlines unwrapped (fun _ => false) 1 (str "Hello
world") (str "sam") (str "2024") 3 true
  = Some (str "sam.pdf",
          [SetFont "Courier" 8;
           DrawString 54 738
             (str "Restored page " ++ [bullet] ++ str " 2024 " ++ [bullet]
              ++ str " source page 3");
           SetFont "Courier" 11;
           DrawString 54 720 (str "Hello");
           DrawString 54 708 (str "world");
           Save])
  /\ write_pdf lines_at_newlines unwrapped (fun _ => false) 1 [] (str "sam") (str "2024") 3
       false
     = Some (str "sam.pdf",
             [SetFont "Courier" 11; DrawString 54 738 (str "[No OCR text detected]"); Save]).
Proof. vm_compute. done. Qed.

(** Sixty lines with a header: 56 on the first page, 4 on the second. *)
Example write_pdf_two_pages :
  match write_pdf (fun text => replicate 60 text) unwrapped (fun _ => false) 1 (str "x")
          (str "sam") (str "2024") 1 true with
  | Some (_, pdf) =>
      pdf !! 58 = Some (DrawString 54 60 (str "x"))
      /\ pdf !! 59 = Some ShowPage
      /\ pdf !! 63 = Some (DrawString 54 720 (str "x"))
      /\ length pdf = 68
  | None => False
  end.
Proof. vm_compute. done. Qed.

Lemma write_pdf_pages_witness :
  let content := str "Hello
world" in
  let header_text :=
    str "Restored page " ++ [bullet] ++ str " " ++ str "2024" ++ str " " ++ [bullet]
    ++ str " source page " ++ int_str 3 in
  let lines := _wrap_text lines_at_newlines unwrapped content 85 in
  let pages := chunks (per_page true) lines in
  exists target_path pdf,
    write_pdf lines_at_newlines unwrapped (fun _ => false) 1 (str "Hello
world") (str "sam") (str "2024") 3 true = Some (target_path, pdf)
    /\ concat pages = lines
    /\ Forall (fun page => 1 <= length page <= per_page true) pages
    /\ (forall i page, pages !! i = Some page -> i + 1 < length pages ->
                       length page = per_page true)
    /\ exists page rest,
         pages = page :: rest
         /\ pdf = page_ops true header_text page
                  ++ concat (map (fun page => ShowPage :: page_ops true header_text page)
                               rest)
                  ++ [Save].
Proof.
  apply (write_pdf_pages lines_at_newlines unwrapped (fun _ => false) 1 1 (str "Hello
world") (str "sam") (str "2024") 3 true).
  - lia.
  - reflexivity.
Defined.

(** ** Settings and command-line options *)

Section OptionsProperties.

Variable lower : pystr -> pystr.
Variable py_int : pystr -> option Z.
Variable BASE_DIR : pystr.
Variable joinpath : pystr -> pystr -> pystr.
Variable resolve : pystr -> pystr.
Variable expanduser : pystr -> pystr.
Variable path_exists : pystr -> bool.

(** X25. The environment and the command line read booleans alike:
    [_env_bool] gives what [_parse_bool_option] gives for the value of
    the variable, and its default exactly where the option would be
    absent or rejected with BadParameter.  Blanks around the value do
    not matter to either, and an option is read as absent only when it
    is absent. *)
Theorem env_bool_matches_option (env : environ) name default option_name value :
  _env_bool lower env name default
  = match _parse_bool_option lower option_name (env name) with
    | Ok (Some b) => b
    | Ok None | Raise _ => default
    end
  /\ _parse_bool_option lower option_name (Some (strip value))
     = _parse_bool_option lower option_name (Some value)
  /\ (_parse_bool_option lower option_name (Some value) <> Ok None).
Proof.
  split; [|split].
  - unfold _env_bool, _parse_bool_option. destruct (env name) as [v|]; [|done].
    cbv zeta. by repeat case_bool_decide.
  - unfold _parse_bool_option. by rewrite strip_idempotent.
  - unfold _parse_bool_option. cbv zeta. by repeat case_bool_decide.
Qed.

Lemma parse_bool_option_ok option_name value b :
  _parse_bool_option lower option_name value = Ok b ->
  match value with
  | None => b = None
  | Some v => exists b', b = Some b'
  end.
Proof.
  unfold _parse_bool_option. destruct value as [v|]; [|by intros [= <-]].
  cbv zeta. repeat case_bool_decide; intros [= <-]; by eexists.
Qed.

(** What [main] has checked when it starts the run. *)
Lemma main_options_ok settings o r :
  main_options lower resolve expanduser path_exists settings o = Ok r ->
  exists dry_run_bool keep_images_bool,
    _parse_bool_option lower (str "dry-run") (opt_dry_run o) = Ok dry_run_bool
    /\ _parse_bool_option lower (str "keep-images") (opt_keep_images o) = Ok keep_images_bool
    /\ opt_verbose o && opt_quiet o = false
    /\ (1 <= int_or (opt_max_concurrency o) (max_concurrency settings))%Z
    /\ path_exists (resolve (expanduser (opt_input o))) = true
    /\ path_exists (credentials_path (google settings)) = true
    /\ (exists c k, api_key (xai settings) = Some (c :: k))
    /\ r = {| resolved_threshold := int_or (opt_unk_threshold o) (unk_threshold settings);
              resolved_outdir :=
                resolve (match opt_outdir o with
                         | Some p => p
                         | None => output_dir settings
                         end);
              resolved_concurrency := int_or (opt_max_concurrency o) (max_concurrency settings);
              resolved_dry_run := _resolve_bool dry_run_bool (dry_run settings);
              resolved_verbose :=
                if opt_verbose o then true
                else if opt_quiet o then false else verbose settings;
              resolved_keep_images := _resolve_bool keep_images_bool (keep_images settings);
              resolved_fallback :=
                str_or_none (opt_name_fallback o) (name_fallback settings);
              input_path := resolve (expanduser (opt_input o)) |}.
Proof.
  unfold main_options.
  destruct (_parse_bool_option lower (str "dry-run") (opt_dry_run o)) as [d|]; [|done].
  destruct (_parse_bool_option lower (str "keep-images") (opt_keep_images o)) as [k|]; [|done].
  destruct (opt_verbose o && opt_quiet o) eqn:Hvq; [done|].
  cbv zeta.
  destruct (Z.ltb_spec (int_or (opt_max_concurrency o) (max_concurrency settings)) 1);
    [done|].
  destruct (path_exists (resolve (expanduser (opt_input o)))) eqn:Hin; [|done].
  cbn [negb]. unfold _validate_dependencies.
  destruct (path_exists (credentials_path (google settings))) eqn:Hcred; [|done].
  cbn [negb].
  destruct (api_key (xai settings)) as [[|c key]|] eqn:Hkey; [done| |done].
  intros [= <-]. exists d, k. repeat split; try done. by exists c, key.
Qed.

(** X26. A run starts only after every check: when [main] gets as far
    as the run, the concurrency is at least 1, [--verbose] and
    [--quiet] were not both given, the input file and the credentials
    file exist and the API key is not empty.  [--quiet] silences a
    verbose setting, [--verbose] overrides a quiet one, and the
    fallback name is the empty string only if the setting is. *)
Theorem main_options_checked settings o r :
  main_options lower resolve expanduser path_exists settings o = Ok r ->
  (1 <= resolved_concurrency r)%Z
  /\ opt_verbose o && opt_quiet o = false
  /\ path_exists (input_path r) = true
  /\ path_exists (credentials_path (google settings)) = true
  /\ (exists c k, api_key (xai settings) = Some (c :: k))
  /\ (opt_quiet o = true -> resolved_verbose r = false)
  /\ (opt_verbose o = true -> resolved_verbose r = true)
  /\ (resolved_fallback r = Some [] -> name_fallback settings = Some []).
Proof.
  intros H.
  apply main_options_ok in H
    as (d & k & _ & _ & Hvq & Hconc & Hin & Hcred & Hkey & ->).
  cbn [resolved_concurrency input_path resolved_verbose resolved_fallback].
  repeat split; try done.
  - intros Hq. rewrite Hq in *. by destruct (opt_verbose o).
  - by intros ->.
  - destruct (opt_name_fallback o) as [[|c s]|]; cbn; done.
Qed.

(** X27. A zero or empty option counts as not given: [--unk-threshold
    0], [--max-concurrency 0] and an empty [--name-fallback] leave
    [main] with what it does without the option.  So the threshold of
    a run is 0 only if the setting is 0, and [--max-concurrency 0]
    is never rejected when the setting is at least 1: the error for a
    concurrency below 1 is raised for negative options and for bad
    settings only. *)
Theorem main_zero_option_unset settings input outdir unk mc dry v q keep fallback :
  main_options lower resolve expanduser path_exists settings
    (mkCliOptions input outdir (Some 0%Z) mc dry v q keep fallback)
  = main_options lower resolve expanduser path_exists settings
      (mkCliOptions input outdir None mc dry v q keep fallback)
  /\ main_options lower resolve expanduser path_exists settings
       (mkCliOptions input outdir unk (Some 0%Z) dry v q keep fallback)
     = main_options lower resolve expanduser path_exists settings
         (mkCliOptions input outdir unk None dry v q keep fallback)
  /\ main_options lower resolve expanduser path_exists settings
       (mkCliOptions input outdir unk mc dry v q keep (Some []))
     = main_options lower resolve expanduser path_exists settings
         (mkCliOptions input outdir unk mc dry v q keep None)
  /\ (forall r,
        main_options lower resolve expanduser path_exists settings
          (mkCliOptions input outdir unk mc dry v q keep fallback) = Ok r ->
        (resolved_threshold r = 0%Z -> unk_threshold settings = 0%Z)
        /\ (unk = Some 0%Z -> resolved_threshold r = unk_threshold settings))
  /\ ((1 <= max_concurrency settings)%Z ->
      (mc = None \/ exists n, mc = Some n /\ (0 <= n)%Z) ->
      main_options lower resolve expanduser path_exists settings
        (mkCliOptions input outdir unk mc dry v q keep fallback)
      <> Raise (BadParameter (str "max_concurrency must be >= 1"))).
Proof.
  split; [done|]. split; [done|]. split; [done|]. split.
  - intros r H. apply main_options_ok in H as (d & k & _ & _ & _ & _ & _ & _ & _ & ->).
    cbn [resolved_threshold opt_unk_threshold]. split.
    + destruct unk as [n|]; cbn [int_or]; [|done].
      destruct (Z.eqb_spec n 0); [done|]. intros; lia.
    + by intros ->.
  - intros Hset Hmc. unfold main_options.
    destruct (_parse_bool_option lower (str "dry-run") _) as [d|[m]] eqn:Hd.
    2:{ unfold _parse_bool_option in Hd. cbn [opt_dry_run] in Hd.
        destruct dry as [s|]; [|done]. cbv zeta in Hd.
        repeat case_bool_decide; try done. injection Hd as <-.
        intros Hbad. injection Hbad as Hbad. by vm_compute in Hbad. }
    destruct (_parse_bool_option lower (str "keep-images") _) as [k|[m]] eqn:Hk.
    2:{ unfold _parse_bool_option in Hk. cbn [opt_keep_images] in Hk.
        destruct keep as [s|]; [|done]. cbv zeta in Hk.
        repeat case_bool_decide; try done. injection Hk as <-.
        intros Hbad. injection Hbad as Hbad. by vm_compute in Hbad. }
    cbn [opt_verbose opt_quiet opt_max_concurrency opt_input].
    destruct (v && q); [intros Hbad; injection Hbad as Hbad; by vm_compute in Hbad|].
    cbv zeta.
    assert (1 <= int_or mc (max_concurrency settings))%Z as Hpos.
    { destruct Hmc as [->|(n & -> & Hn)]; [done|]. cbn [int_or].
      destruct (Z.eqb_spec n 0); lia. }
    destruct (Z.ltb_spec (int_or mc (max_concurrency settings)) 1); [lia|].
    destruct (path_exists (resolve (expanduser input))); cbn [negb].
    2:{ intros Hbad. injection Hbad as Hbad. by vm_compute in Hbad. }
    unfold _validate_dependencies.
    destruct (path_exists (credentials_path (google settings))); cbn [negb].
    2:{ intros Hbad. injection Hbad as Hbad. by vm_compute in Hbad. }
    destruct (api_key (xai settings)) as [[|c key]|]; try done.
    all: intros Hbad; injection Hbad as Hbad; by vm_compute in Hbad.
Qed.

(** X28. Settings from the environment.  When [main] starts a run
    with the settings that [_build_settings] reads, the API key in the
    environment is not empty and the fallback name is absent or not
    empty; a threshold or concurrency that is unset, blank or not a
    number in the environment, and not given (or 0) on the command
    line, is 65 or 3: a bad number never stops the run. *)
Theorem main_from_environment (env : environ) o r :
  main_options lower resolve expanduser path_exists
    (_build_settings lower py_int BASE_DIR joinpath env) o = Ok r ->
  (exists c k, env "XAI_API_KEY"%string = Some (c :: k))
  /\ resolved_fallback r <> Some []
  /\ ((opt_unk_threshold o = None \/ opt_unk_threshold o = Some 0%Z) ->
      (env "UNK_THRESHOLD"%string = None
       \/ exists value, env "UNK_THRESHOLD"%string = Some value
                        /\ (strip value = [] \/ py_int value = None)) ->
      resolved_threshold r = 65%Z)
  /\ ((opt_max_concurrency o = None \/ opt_max_concurrency o = Some 0%Z) ->
      (env "MAX_CONCURRENCY"%string = None
       \/ exists value, env "MAX_CONCURRENCY"%string = Some value
                        /\ (strip value = [] \/ py_int value = None)) ->
      resolved_concurrency r = 3%Z).
Proof.
  intros H.
  apply main_options_ok in H as (d & k & _ & _ & _ & _ & _ & _ & Hkey & ->).
  cbn [resolved_fallback resolved_threshold resolved_concurrency].
  cbn [_build_settings xai api_key name_fallback unk_threshold max_concurrency] in *.
  assert (forall name default option,
            (option = None \/ option = Some 0%Z) ->
            (env name = None
             \/ exists value, env name = Some value
                              /\ (strip value = [] \/ py_int value = None)) ->
            int_or option (_env_int py_int env name default) = default) as Hint.
  { intros name default option Hopt Henv.
    assert (_env_int py_int env name default = default) as ->.
    { unfold _env_int. destruct Henv as [->|(value & -> & [->| ->])]; [done | done |].
      by destruct (strip value). }
    by destruct Hopt as [->| ->]. }
  split; [|split; [|split]].
  - destruct Hkey as (c & key & Hkey).
    destruct (env "XAI_API_KEY"%string) as [[|c' key']|]; try done. by eexists _, _.
  - destruct (opt_name_fallback o) as [[|c s]|]; cbn [str_or_none]; try done;
      by destruct (env "NAME_FALLBACK"%string) as [[|c' s']|].
  - apply Hint.
  - apply Hint.
Qed.

End OptionsProperties.

Example main_options_sample :
  main_options ascii_lower id id (fun _ => true)
    (_build_settings ascii_lower digits_int (str "/app") (fun a b => a ++ str "/" ++ b)
       sample_environ)
    sample_options
  = Ok {| resolved_threshold := 70;
          resolved_outdir := str "out";
          resolved_concurrency := 3;
          resolved_dry_run := true;
          resolved_verbose := false;
          resolved_keep_images := false;
          resolved_fallback := None;
          input_path := str "scan.pdf" |}
  /\ main_options ascii_lower id id (fun _ => true)
       (_build_settings ascii_lower digits_int (str "/app") (fun a b => a ++ str "/" ++ b)
          sample_environ)
       (mkCliOptions (str "scan.pdf") None None (Some (-1)%Z) None false false None None)
     = Raise (BadParameter (str "max_concurrency must be >= 1"))
  /\ main_options ascii_lower id id (fun _ => true)
       (_build_settings ascii_lower digits_int (str "/app") (fun a b => a ++ str "/" ++ b)
          sample_environ)
       (mkCliOptions (str "scan.pdf") None None None (Some (str "maybe")) true true None None)
     = Raise (BadParameter
                (str "dry-run must be one of: true, false, yes, no, on, off, 1, 0")).
Proof. vm_compute. done. Qed.

Lemma main_options_checked_witness :
  (1 <= 3)%Z
  /\ false && true = false
  /\ (fun _ : pystr => true) (str "scan.pdf") = true.
Proof.
  pose proof (main_options_checked ascii_lower id id (fun _ => true)
                (_build_settings ascii_lower digits_int (str "/app")
                   (fun a b => a ++ str "/" ++ b) sample_environ)
                sample_options
                {| resolved_threshold := 70;
                   resolved_outdir := str "out";
                   resolved_concurrency := 3;
                   resolved_dry_run := true;
                   resolved_verbose := false;
                   resolved_keep_images := false;
                   resolved_fallback := None;
                   input_path := str "scan.pdf" |}
                ltac:(vm_compute; reflexivity)) as (H1 & H2 & H3 & _).
  exact (conj H1 (conj H2 H3)).
Defined.

Lemma main_from_environment_witness :
  (exists c k, sample_environ "XAI_API_KEY"%string = Some (c :: k))
  /\ (None : option pystr) <> Some [].
Proof.
  pose proof (main_from_environment ascii_lower digits_int (str "/app")
                (fun a b => a ++ str "/" ++ b) id id (fun _ => true)
                sample_environ sample_options
                {| resolved_threshold := 70;
                   resolved_outdir := str "out";
                   resolved_concurrency := 3;
                   resolved_dry_run := true;
                   resolved_verbose := false;
                   resolved_keep_images := false;
                   resolved_fallback := None;
                   input_path := str "scan.pdf" |}
                ltac:(vm_compute; reflexivity)) as (H1 & H2 & _).
  exact (conj H1 H2).
Defined.

(** ** One page of the batch *)

(** The artifacts of an OCR result are its two transcripts. *)
Lemma ocr_google_vision_artifacts to_percent mean is_word document_text threshold r :
  ocr_google_vision to_percent mean is_word document_text threshold = Ok r ->
  artifacts r = [("raw"%string, raw_text r); ("masked"%string, ocr_masked_text r)].
Proof.
  unfold ocr_google_vision. destruct document_text as [response|]; [|done].
  cbv zeta.
  destruct (_extract_tokens_from_vision _ _ _) as [[tokens confidences]|]; [|done].
  destruct (_build_masked_text _ _ _ _ _) as [[masked count]|]; [|done].
  by intros [= <-].
Qed.

Lemma restore_violated_flag {client exn}
    (client_restore : client -> pystr -> Q -> client * result exn pystr)
    masked cl logger c :
  (restore client_restore masked cl logger).2 = Ok c ->
  guardrail_violated c = negb (_guardrail_ok masked (restored_text c))
  /\ (guardrail_triggered c = false -> guardrail_violated c = false).
Proof.
  rewrite restore_cases.
  destruct (client_restore cl masked 0.2%Q) as [cl1 [c1|e]]; [|cbn [snd]; intros [=]].
  destruct (_guardrail_ok masked c1) eqn:Hok1.
  - cbn [snd]. intros Heq.
    injection Heq. intros <-.
    cbn [guardrail_violated guardrail_triggered restored_text]. by rewrite Hok1.
  - cbv zeta. destruct (client_restore cl1 masked 0.0%Q) as [cl2 [c2|e]];
      [|cbn [snd]; intros [=]].
    destruct (_guardrail_ok masked c2) eqn:Hok2; cbn [snd]; intros Heq.
    + injection Heq. intros <-.
      cbn [guardrail_violated guardrail_triggered restored_text]. by rewrite Hok2.
    + injection Heq. intros <-.
      cbn [guardrail_violated guardrail_triggered restored_text]. by rewrite Hok2.
Qed.

Section WorkerProperties.

Variable client : Type.
Variable exn : Type.
Variable client_restore : client -> pystr -> Q -> client * result exn pystr.
Variable exn_str : exn -> pystr.
Variable joinpath : pystr -> pystr -> pystr.
Variable extract_first_name : pystr -> option pystr -> nat -> NameResult.
Variable write_pdf_outcome : pystr -> pystr -> pystr -> pystr -> nat -> result exn pystr.

(** X29. The artifacts of a failed page.  A page fails when OCR, the
    restoration or the writing of the PDF raises, and the error of the
    record is that exception.  The worker then writes
    [page_NNN_restored.txt], after [page_NNN_raw.txt] and
    [page_NNN_masked.txt] when OCR had succeeded; the restored file is
    empty unless the restoration had completed, and nothing is added
    to [generated_files]. *)
Theorem worker_failure_artifacts run_dir timestamp dry_run keep_images fallback ocr_outcome
    image_exists page_index cl generated eff page error :
  (forall r, ocr_outcome = Ok r ->
             artifacts r = [("raw"%string, raw_text r); ("masked"%string, ocr_masked_text r)]) ->
  worker client_restore exn_str joinpath extract_first_name write_pdf_outcome
    run_dir timestamp dry_run keep_images fallback ocr_outcome image_exists page_index cl
    generated = (eff, PageFailed page error) ->
  let file := artifact_path joinpath (joinpath run_dir (str "artifacts")) page_index in
  page = page_index + 1
  /\ generated_files eff = generated
  /\ ((exists exc, ocr_outcome = Raise exc /\ error = exn_str exc
                   /\ files_written eff = [(file "restored"%string, [])])
      \/ (exists r exc,
            ocr_outcome = Ok r
            /\ (restore client_restore (ocr_masked_text r) cl true).2 = Raise exc
            /\ error = exn_str exc
            /\ files_written eff
               = [(file "raw"%string, raw_text r); (file "masked"%string, ocr_masked_text r);
                  (file "restored"%string, [])])
      \/ (exists r c exc,
            ocr_outcome = Ok r
            /\ (restore client_restore (ocr_masked_text r) cl true).2 = Ok c
            /\ dry_run = false
            /\ write_pdf_outcome (restored_text c) run_dir
                 (filename_stem (extract_first_name (restored_text c) fallback page_index))
                 timestamp (page_index + 1) = Raise exc
            /\ error = exn_str exc
            /\ files_written eff
               = [(file "raw"%string, raw_text r); (file "masked"%string, ocr_masked_text r);
                  (file "restored"%string, restored_text c)])).
Proof.
  intros Hart H file. unfold worker in H.
  destruct ocr_outcome as [r|exc].
  - specialize (Hart r eq_refl).
    destruct (restore client_restore (ocr_masked_text r) cl true) as [[cl' log] [c|exc]] eqn:Hr.
    + cbv zeta in H. destruct dry_run; [done|].
      destruct (write_pdf_outcome _ _ _ _ _) as [output|exc] eqn:Hw; [done|].
      injection H as <- <- <-. split; [done|]. split; [done|].
      right. right. exists r, c, exc.
      split; [done|]. split; [by rewrite Hr|]. do 3 (split; [done|]).
      cbn [files_written]. unfold failure_artifacts. rewrite Hart. reflexivity.
    + injection H as <- <- <-. split; [done|]. split; [done|].
      right. left. exists r, exc.
      split; [done|]. split; [by rewrite Hr|]. split; [done|].
      cbn [files_written]. unfold failure_artifacts. rewrite Hart. reflexivity.
  - injection H as <- <- <-. split; [done|]. split; [done|].
    left. by exists exc.
Qed.

(** X30. The guardrail never holds a page back.  A page reported as a
    success went through OCR and restoration; its
    [guardrail_violated] flag is true exactly when the text that was
    exported fails the verifier against the masked transcript, and
    exactly then the log asks for a manual review; an untriggered
    guardrail is never violated.  Violated or not, outside a dry run
    the text was written with [write_pdf] and its path added to
    [generated_files]; no artifact file is written. *)
Theorem worker_success_flags run_dir timestamp dry_run keep_images fallback ocr_outcome
    image_exists page_index cl generated eff page output name triggered violated :
  worker client_restore exn_str joinpath extract_first_name write_pdf_outcome
    run_dir timestamp dry_run keep_images fallback ocr_outcome image_exists page_index cl
    generated = (eff, PageSuccess page output name triggered violated) ->
  exists r c,
    ocr_outcome = Ok r
    /\ (restore client_restore (ocr_masked_text r) cl true).2 = Ok c
    /\ page = page_index + 1
    /\ violated = negb (_guardrail_ok (ocr_masked_text r) (restored_text c))
    /\ (triggered = false -> violated = false)
    /\ (ReviewManually page ∈ page_log eff <-> violated = true)
    /\ files_written eff = []
    /\ (if dry_run
        then generated_files eff = generated
             /\ output
                = joinpath run_dir
                    (filename_stem (extract_first_name (restored_text c) fallback page_index)
                     ++ str ".pdf")
        else generated_files eff = generated ++ [output]
             /\ write_pdf_outcome (restored_text c) run_dir
                  (filename_stem (extract_first_name (restored_text c) fallback page_index))
                  timestamp page = Ok output).
Proof.
  intros H. unfold worker in H.
  destruct ocr_outcome as [r|exc]; [|done].
  destruct (restore client_restore (ocr_masked_text r) cl true) as [[cl' log] [c|exc]] eqn:Hr;
    [|done].
  assert ((restore client_restore (ocr_masked_text r) cl true).2 = Ok c) as Hc
    by by rewrite Hr.
  destruct (restore_violated_flag client_restore _ _ _ _ Hc) as [Hviol Htrig].
  exists r, c. cbv zeta in H.
  assert (forall page' masked total name' output',
            ReviewManually page
              ∈ [Processing page'; Processed page' masked total name' output']
                ++ (if guardrail_violated c then [ReviewManually page] else [])
            <-> guardrail_violated c = true) as Hlog.
  { intros. destruct (guardrail_violated c); cbn [app].
    - split; [done|]. intros _. do 2 right. by left.
    - split; [|done]. intros Hin. repeat (apply elem_of_cons in Hin as [?|Hin]; [done|]).
      by apply elem_of_nil in Hin. }
  destruct dry_run.
  - injection H as <- <- <- <- <- <-. repeat split; try done; apply Hlog.
  - destruct (write_pdf_outcome _ _ _ _ _) as [output'|exc] eqn:Hw; [|done].
    injection H as <- <- <- <- <- <-. repeat split; try done; apply Hlog.
Qed.

End WorkerProperties.

Example worker_sample :
  files_written (sample_worker [] false).1
  = [(str "out/artifacts/page_007_raw.txt", str "Hello Sam world");
     (str "out/artifacts/page_007_masked.txt", str "Hello [[UNK]] world");
     (str "out/artifacts/page_007_restored.txt", [])]
  /\ (sample_worker [] false).2 = PageFailed 7 (str "failed")
  /\ (sample_worker [str "Hi friend world"; str "Greetings pal world"] false).2
     = PageSuccess 7 (str "out/unnamed_07.pdf") (str "unnamed_07") true true
  /\ generated_files
       (sample_worker [str "Hi friend world"; str "Greetings pal world"] false).1
     = [str "out/unnamed_07.pdf"]
  /\ (sample_worker [str "Hello Sam world"] true).2
     = PageSuccess 7 (str "out/unnamed_07.pdf") (str "unnamed_07") false false
  /\ generated_files (sample_worker [str "Hello Sam world"] true).1 = [].
Proof. vm_compute. done. Qed.

Lemma worker_failure_artifacts_witness :
  7 = 6 + 1 /\ generated_files (sample_worker [] false).1 = [].
Proof.
  pose proof (worker_failure_artifacts DummyClient pyexn dummy_restore one_message slash_join
                fallback_only pdf_written (str "out") (str "2024") false false None
                sample_ocr true 6 (mkDummyClient [] 0) [] (sample_worker [] false).1 7
                (str "failed")
                (ocr_google_vision_artifacts _ _ _ _ _)
                ltac:(vm_compute; reflexivity)) as (H1 & H2 & _).
  exact (conj H1 H2).
Defined.

Lemma worker_success_flags_witness :
  exists r c,
    sample_ocr = Ok r
    /\ (restore dummy_restore (ocr_masked_text r)
          (mkDummyClient [str "Hi friend world"; str "Greetings pal world"] 0) true).2 = Ok c
    /\ 7 = 6 + 1
    /\ true = negb (_guardrail_ok (ocr_masked_text r) (restored_text c)).
Proof.
  pose proof (worker_success_flags DummyClient pyexn dummy_restore one_message slash_join
                fallback_only pdf_written (str "out") (str "2024") false false None
                sample_ocr true 6
                (mkDummyClient [str "Hi friend world"; str "Greetings pal world"] 0) []
                (sample_worker [str "Hi friend world"; str "Greetings pal world"] false).1
                7 (str "out/unnamed_07.pdf") (str "unnamed_07") true true
                ltac:(vm_compute; reflexivity)) as (r & c & H1 & H2 & H3 & H4 & _).
  exists r, c. exact (conj H1 (conj H2 (conj H3 H4))).
Defined.
